(** * tcp_server.py: the socket-to-response pipeline, embedded in Rocq

    The development follows the source file top to bottom:
    - Python values: [str] as a list of code points, [bytes] as a list of
      bytes, exceptions as an error result;
    - the UTF-8 codec behind [bytes.decode] and [str.encode];
    - the string methods the server and [urllib.parse] call;
    - [urllib.parse]: [urlsplit], [urlparse], [unquote], [parse_qsl],
      [parse_qs] (CPython 3.11, Lib/urllib/parse.py);
    - [parse_http_request], [create_http_response], the pages and
      [handle_client] over an explicit socket trace;
    - [urllib.parse.quote], [handle_exchange_request] and
      [handle_movie_request] over what the network, [json.loads] and the
      interpreter's number formatting give, and [main] over the calls on
      the server socket.

    A [print] leaves nothing on a socket, but it can raise, and the
    [except] clauses around it then run: what each [print] statement does
    is given by the console, like what the socket does. *)

From Stdlib Require Import ZArith NArith Lia DecimalString Strings.Byte.
From Stdlib Require Import Floats.SpecFloat.
From stdpp Require Import base option list strings gmap.

Set Default Proof Using "Type".

(** ** Python values *)

(** A Python [str] is a sequence of code points; a lone surrogate
    (U+D800..U+DFFF) is a legal element of a [str]. *)
Abbreviation str := (list N).
Abbreviation bytes := (list Byte.byte).

#[global] Instance byte_eq_dec : EqDecision Byte.byte := Byte.byte_eq_dec.

(** The exception classes the server distinguishes.  [UnicodeDecodeError]
    and [UnicodeEncodeError] are subclasses of [ValueError]; all of them but
    [NotAnException] derive from [Exception].  [NotAnException] stands for a
    [BaseException] outside [Exception] (SystemExit, KeyboardInterrupt). *)
Inductive exn : Set :=
| UnicodeDecodeError
| UnicodeEncodeError
| ValueError
| OSError
| OtherException
| NotAnException.

#[global] Instance exn_eq_dec : EqDecision exn.
Proof. solve_decision. Defined.

(** [isinstance(e, Exception)] *)
Definition is_Exception (e : exn) : bool :=
  match e with NotAnException => false | _ => true end.

(** The result of a call: a value, or a raised exception. *)
Inductive outcome (A : Type) : Type :=
| Returns (a : A)
| Raises (e : exn).
Arguments Returns {A} a.
Arguments Raises {A} e.

#[global] Instance outcome_ret : MRet outcome := λ A a, Returns a.
#[global] Instance outcome_bind : MBind outcome := λ A B f x,
  match x with Returns a => f a | Raises e => Raises e end.
#[global] Instance outcome_fmap : FMap outcome := λ A B f x,
  match x with Returns a => Returns (f a) | Raises e => Raises e end.

(** What can be raised inside the [try] block of a content handler: the
    classes its [except] clauses name, and the built-in ones of [exn].
    [HTTPError] is a subclass of [URLError], which is one of [OSError];
    [JSONDecodeError] is a subclass of [ValueError]. *)
Inductive raised : Set :=
| HTTPError
| URLError
| JSONDecodeError
| KeyError
| Builtin (e : exn).

(** ** String literals *)

(** An ASCII literal of the source, as code points. *)
Definition ascii_lit (s : string) : str :=
  Byte.to_N <$> String.list_byte_of_string s.

(** A character of the source, as its code point: ["/"%chr] is 47. *)
Definition chr_parse (bs : list Byte.byte) : option N :=
  match bs with [b] => Some (Byte.to_N b) | _ => None end.
Definition chr_print (n : N) : option (list Byte.byte) :=
  match Byte.of_N n with Some b => Some [b] | None => None end.
Declare Scope chr_scope.
Delimit Scope chr_scope with chr.
String Notation N chr_parse chr_print : chr_scope.

Definition CR : N := 13.
Definition LF : N := 10.
Definition CRLF : str := [CR; LF].
(** The double quote character, as a one-character [str]. *)
Definition DQ : str := [34%N].

(** ** The UTF-8 codec *)

Section utf8.
Local Open Scope N_scope.

Definition is_continuation_byte (b : N) : bool :=
  (0x80 <=? b) && (b <=? 0xBF).

(** One step of CPython's decoder (Objects/stringlib/codecs.h,
    [utf8_decode]) on the bytes [ch :: r]: the code point read, or [None]
    for an error, together with the number of bytes the step covers: the
    length of the sequence, or of the span an error handler replaces
    (invalid start byte: 1; invalid continuation byte: the bytes before
    it; unexpected end of data: all that is left). *)
Definition utf8_next (ch : N) (r : list N) : option N * nat :=
  if ch <? 0x80 then (Some ch, 1%nat)
  else if ch <? 0xC2 then (None, 1%nat)
  else if ch <? 0xE0 then
    match r with
    | [] => (None, 1%nat)
    | ch2 :: _ =>
        if negb (is_continuation_byte ch2) then (None, 1%nat)
        else (Some (N.shiftl ch 6 + ch2 - 0x3080), 2%nat)
    end
  else if ch <? 0xF0 then
    match r with
    | [] => (None, 1%nat)
    | ch2 :: r2 =>
        if negb (is_continuation_byte ch2)
           || (if ch2 <? 0xA0 then ch =? 0xE0 else ch =? 0xED)
        then (None, 1%nat)
        else match r2 with
             | [] => (None, 2%nat)
             | ch3 :: _ =>
                 if negb (is_continuation_byte ch3) then (None, 2%nat)
                 else (Some (N.shiftl ch 12 + N.shiftl ch2 6 + ch3
                             - 0xE2080),
                       3%nat)
             end
    end
  else if ch <? 0xF5 then
    match r with
    | [] => (None, 1%nat)
    | ch2 :: r2 =>
        if negb (is_continuation_byte ch2)
           || (if ch2 <? 0x90 then ch =? 0xF0 else ch =? 0xF4)
        then (None, 1%nat)
        else match r2 with
             | [] => (None, 2%nat)
             | ch3 :: r3 =>
                 if negb (is_continuation_byte ch3) then (None, 2%nat)
                 else match r3 with
                      | [] => (None, 3%nat)
                      | ch4 :: _ =>
                          if negb (is_continuation_byte ch4)
                          then (None, 3%nat)
                          else (Some (N.shiftl ch 18 + N.shiftl ch2 12
                                      + N.shiftl ch3 6 + ch4 - 0x3C82080),
                                4%nat)
                      end
             end
    end
  else (None, 1%nat).

(** The [errors] argument of [bytes.decode]. *)
Inductive error_handler : Set := strict | replace.

(** [skip] counts the bytes of the current step still to pass over. *)
Fixpoint utf8_decode_from (errors : error_handler) (skip : nat)
    (s : list N) : outcome str :=
  match s with
  | [] => Returns []
  | ch :: r =>
      match skip with
      | S k => utf8_decode_from errors k r
      | O =>
          match utf8_next ch r with
          | (Some c, n) =>
              cons c <$> utf8_decode_from errors (pred n) r
          | (None, n) =>
              match errors with
              | strict => Raises UnicodeDecodeError
              | replace =>
                  cons 0xFFFD <$> utf8_decode_from errors (pred n) r
              end
          end
      end
  end.

(** [data.decode("utf-8", errors)] *)
Definition decode (errors : error_handler) (data : bytes) : outcome str :=
  utf8_decode_from errors 0 (Byte.to_N <$> data).

Definition byte_of_N (n : N) : Byte.byte :=
  default Byte.x00 (Byte.of_N n).

(** The UTF-8 bytes of one code point; [None] for a surrogate, which
    the strict encoder refuses. *)
Definition utf8_encode_char (c : N) : option bytes :=
  if c <? 0x80 then Some [byte_of_N c]
  else if c <? 0x800 then
    Some [byte_of_N (0xC0 + (N.shiftr c 6));
          byte_of_N (0x80 + N.land c 0x3F)]
  else if (0xD800 <=? c) && (c <=? 0xDFFF) then None
  else if c <? 0x10000 then
    Some [byte_of_N (0xE0 + (N.shiftr c 12));
          byte_of_N (0x80 + N.land (N.shiftr c 6) 0x3F);
          byte_of_N (0x80 + N.land c 0x3F)]
  else
    Some [byte_of_N (0xF0 + (N.shiftr c 18));
          byte_of_N (0x80 + N.land (N.shiftr c 12) 0x3F);
          byte_of_N (0x80 + N.land (N.shiftr c 6) 0x3F);
          byte_of_N (0x80 + N.land c 0x3F)].

(** [s.encode("utf-8")] *)
Fixpoint encode (s : str) : outcome bytes :=
  match s with
  | [] => Returns []
  | c :: s' =>
      match utf8_encode_char c with
      | None => Raises UnicodeEncodeError
      | Some bs => app bs <$> encode s'
      end
  end.
End utf8.

(** A literal of the source with non-ASCII text: the file is UTF-8, so the
    bytes of the literal decode to the code points Python sees. *)
Definition lit (s : string) : str :=
  match decode strict (String.list_byte_of_string s) with
  | Returns u => u
  | Raises _ => []
  end.

(** ** String methods

    The methods of [str] and [bytes] that the server and [urllib.parse]
    call, with Python's conventions: [find] answers [-1] when the character
    is absent, slices clamp their bounds. *)

Section sequences.
Context {A : Type} `{EqDecision A}.

(** [c in s] *)
Definition contains (c : A) (s : list A) : bool := bool_decide (c ∈ s).

(** [s.find(c)] *)
Fixpoint find (c : A) (s : list A) : Z :=
  match s with
  | [] => -1
  | x :: s' =>
      if decide (x = c) then 0
      else let i := find c s' in if (i <? 0)%Z then -1 else (i + 1)%Z
  end.

(** The bound [i] of a slice, brought into [0 .. len(s)]. *)
Definition slice_index (s : list A) (i : Z) : nat :=
  let n := Z.of_nat (length s) in
  let i := if (i <? 0)%Z then (i + n)%Z else i in
  Z.to_nat (Z.min (Z.max i 0) n).

(** [s[:i]] and [s[i:]] *)
Definition slice_to (s : list A) (i : Z) : list A :=
  take (slice_index s i) s.
Definition slice_from (s : list A) (i : Z) : list A :=
  drop (slice_index s i) s.
(** [s[i:j]] *)
Definition slice (s : list A) (i j : Z) : list A :=
  drop (slice_index s i) (take (slice_index s j) s).

(** [s.find(c, start)] *)
Definition find_from (c : A) (s : list A) (start : Z) : Z :=
  let k := slice_index s start in
  let i := find c (drop k s) in
  if (i <? 0)%Z then -1 else (i + Z.of_nat k)%Z.

(** [s.rfind(c)] *)
Fixpoint rfind (c : A) (s : list A) : Z :=
  match s with
  | [] => -1
  | x :: s' =>
      let i := rfind c s' in
      if (i <? 0)%Z then (if decide (x = c) then 0 else -1) else (i + 1)%Z
  end.

(** [s.split(sep, maxsplit)] for a one-character [sep]; [maxsplit] is
    [None] when the argument is left out. *)
Fixpoint split (sep : A) (maxsplit : option nat) (s : list A)
    : list (list A) :=
  match s with
  | [] => [[]]
  | c :: s' =>
      if bool_decide (c = sep ∧ maxsplit ≠ Some 0%nat) then
        [] :: split sep (pred <$> maxsplit) s'
      else
        let r := split sep maxsplit s' in
        (c :: hd [] r) :: tl r
  end.

(** [s.split(sep)] for a separator of any positive length: [skip] counts
    the characters of a separator found that are still to pass over. *)
Fixpoint split_str_from (sep : list A) (skip : nat) (s : list A)
    : list (list A) :=
  match s with
  | [] => [[]]
  | c :: s' =>
      match skip with
      | S k => split_str_from sep k s'
      | O =>
          if bool_decide (sep `prefix_of` s) then
            [] :: split_str_from sep (pred (length sep)) s'
          else
            let r := split_str_from sep 0 s' in
            (c :: hd [] r) :: tl r
      end
  end.
Definition split_str (sep s : list A) : list (list A) :=
  split_str_from sep 0 s.

(** [sep.join(parts)] *)
Fixpoint join (sep : list A) (parts : list (list A)) : list A :=
  match parts with
  | [] => []
  | [p] => p
  | p :: ps => p ++ sep ++ join sep ps
  end.

(** [s.lstrip(chars)] *)
Fixpoint lstrip (chars : list A) (s : list A) : list A :=
  match s with
  | [] => []
  | c :: s' => if bool_decide (c ∈ chars) then lstrip chars s' else s
  end.

(** [s.replace(c, '')] *)
Definition remove_char (c : A) (s : list A) : list A :=
  filter (λ x, x ≠ c) s.

(** [s.replace(c, d)] for one-character [c] and [d] *)
Definition replace_char (c d : A) (s : list A) : list A :=
  (λ x, if decide (x = c) then d else x) <$> s.

(** [s.startswith(p)] *)
Definition startswith (p s : list A) : bool := bool_decide (p `prefix_of` s).

(** [s.partition(c)]: the text before the first [c], whether [c] was
    found, and the text after it. *)
Definition partition (c : A) (s : list A) : list A * bool * list A :=
  let i := find c s in
  if (i <? 0)%Z then (s, false, [])
  else (slice_to s i, true, slice_from s (i + 1)).

(** [s.rpartition(c)]: when [c] is absent the whole text is the last
    component. *)
Definition rpartition (c : A) (s : list A) : list A * bool * list A :=
  let i := rfind c s in
  if (i <? 0)%Z then ([], false, s)
  else (slice_to s i, true, slice_from s (i + 1)).
End sequences.

(** Tuple assignment [a, b = parts]: anything but two parts raises
    [ValueError]. *)
Definition unpack2 {A} (parts : list A) : outcome (A * A) :=
  match parts with
  | [a; b] => Returns (a, b)
  | _ => Raises ValueError
  end.

Section characters.
Local Open Scope N_scope.

(** [c.isspace()], as CPython's [_PyUnicode_IsWhitespace] lists it. *)
Definition isspace (c : N) : bool :=
  ((0x09 <=? c) && (c <=? 0x0D)) || ((0x1C <=? c) && (c <=? 0x20))
  || (c =? 0x85) || (c =? 0xA0) || (c =? 0x1680)
  || ((0x2000 <=? c) && (c <=? 0x200A))
  || (c =? 0x2028) || (c =? 0x2029) || (c =? 0x202F) || (c =? 0x205F)
  || (c =? 0x3000).

(** [c.isascii()] *)
Definition isascii (c : N) : bool := c <? 0x80.

Definition is_ascii_upper (c : N) : bool := (0x41 <=? c) && (c <=? 0x5A).
Definition is_ascii_lower (c : N) : bool := (0x61 <=? c) && (c <=? 0x7A).
Definition is_ascii_digit (c : N) : bool := (0x30 <=? c) && (c <=? 0x39).

(** [c.isascii() and c.isalpha()] *)
Definition is_ascii_alpha (c : N) : bool :=
  is_ascii_upper c || is_ascii_lower c.

(** [s.lower()], on the ASCII text it is called on. *)
Definition lower (s : str) : str :=
  (λ c, if is_ascii_upper c then c + 0x20 else c) <$> s.

(** The value of a hexadecimal digit. *)
Definition hex_value (c : N) : option N :=
  if is_ascii_digit c then Some (c - 0x30)
  else if (0x41 <=? c) && (c <=? 0x46) then Some (c - 0x41 + 10)
  else if (0x61 <=? c) && (c <=? 0x66) then Some (c - 0x61 + 10)
  else None.
End characters.

(** [s.split()]: the maximal runs of characters that are not whitespace. *)
Fixpoint split_whitespace (s : str) : list str :=
  match s with
  | [] => []
  | c :: s' =>
      if isspace c then split_whitespace s'
      else
        match s' with
        | [] => [[c]]
        | c' :: _ =>
            if isspace c' then [c] :: split_whitespace s'
            else
              let r := split_whitespace s' in
              (c :: hd [] r) :: tl r
        end
  end.

(** The decimal digits of an [int], after its sign. *)
Definition decimal (n : Z) : str :=
  ascii_lit (NilZero.string_of_int (Z.to_int n)).

(** [sys.int_info.default_max_str_digits]: CPython 3.11 converts no [int]
    of more digits into a [str]; the program leaves the limit in place. *)
Definition int_max_str_digits : Z := 4300.

(** [str(n)] and [f"{n}"] for an [int]: a [ValueError] when [n] has more
    digits than the limit, the sign not counted (Objects/longobject.c,
    [long_to_decimal_string_internal]). *)
Definition str_of_int (n : Z) : outcome str :=
  if (int_max_str_digits <? Z.of_nat (length (decimal (Z.abs n))))%Z
  then Raises ValueError
  else Returns (decimal n).

(** [f"{len(b)}"]: a length is at most [sys.maxsize], which has 19
    digits, so that the limit is out of its reach. *)
Definition str_of_len (n : nat) : str := decimal (Z.of_nat n).

(** ** urllib.parse

    CPython 3.11, Lib/urllib/parse.py, on [str] arguments ([_coerce_args] is
    the identity there) and with the default arguments the server leaves in
    place: [scheme=''], [allow_fragments=True] for [urlparse];
    [keep_blank_values=False], [strict_parsing=False], [encoding='utf-8'],
    [errors='replace'], [max_num_fields=None], [separator='&'] for
    [parse_qs]. *)

Inductive ip_class : Set := IPv4Address | IPv6Address.

(** Two functions of other library modules are reached from [urlsplit], and
    only for a target with a network location: [ipaddress.ip_address] (the
    class of the address, or [None] where it raises [ValueError]) and
    [unicodedata.normalize('NFKC', _)].  They are taken as given. *)
Record stdlib : Type := {
  ip_address : str → option ip_class;
  normalize_NFKC : str → str;
}.

Record SplitResult : Type := {
  split_scheme : str;
  split_netloc : str;
  split_path : str;
  split_query : str;
  split_fragment : str;
}.

Record ParseResult : Type := {
  scheme : str;
  netloc : str;
  path : str;
  params : str;
  query : str;
  fragment : str;
}.

(** The first entry of the list is the empty string. *)
Definition uses_params : list str :=
  [] :: (ascii_lit <$>
           ["ftp"; "hdl"; "prospero"; "http"; "imap"; "https"; "shttp";
            "rtsp"; "rtspu"; "sip"; "sips"; "mms"; "sftp"; "tel"]).

Definition scheme_chars : str :=
  ascii_lit "abcdefghijklmnopqrstuvwxyzABCDEFGHIJKLMNOPQRSTUVWXYZ0123456789+-.".

(** The code points U+0000 .. U+0020. *)
Definition _WHATWG_C0_CONTROL_OR_SPACE : str := N.of_nat <$> seq 0 33.

(** Tab, carriage return, line feed. *)
Definition _UNSAFE_URL_BYTES_TO_REMOVE : list N := [9; 13; 10]%N.

Definition _splitparams (url : str) : str * str :=
  let found (i : Z) := (slice_to url i, slice_from url (i + 1)) in
  if contains "/"%chr url then
    let i := find_from ";"%chr url (rfind "/"%chr url) in
    if (i <? 0)%Z then (url, []) else found i
  else found (find ";"%chr url).

Definition _splitnetloc (url : str) (start : Z) : str * str :=
  let delim :=
    foldl (λ delim c,
             let wdelim := find_from c url start in
             if (0 <=? wdelim)%Z then Z.min delim wdelim else delim)
          (Z.of_nat (length url)) (ascii_lit "/?#") in
  (slice url start delim, slice_from url delim).

Section urllib.
Variable lib : stdlib.

Definition _checknetloc (netloc : str) : outcome unit :=
  if bool_decide (netloc = []) || forallb isascii netloc then Returns ()
  else
    let n := remove_char "@"%chr netloc in
    let n := remove_char ":"%chr n in
    let n := remove_char "#"%chr n in
    let n := remove_char "?"%chr n in
    let netloc2 := normalize_NFKC lib n in
    if bool_decide (n = netloc2) then Returns ()
    else if existsb (λ c, contains c netloc2) (ascii_lit "/?#@:")
    then Raises ValueError
    else Returns ().

(** [re.match(r"\Av[a-fA-F0-9]+\..+\Z", hostname)]: a [v], one or more
    hexadecimal digits, a dot, and one or more characters none of which
    is a line feed. *)
Fixpoint hex_then_dot_rest (seen : bool) (s : str) : bool :=
  match s with
  | [] => false
  | c :: s' =>
      if bool_decide (is_Some (hex_value c)) then hex_then_dot_rest true s'
      else seen && bool_decide (c = "."%chr) && bool_decide (s' ≠ [])
           && negb (contains LF s')
  end.
Definition ipvfuture_match (hostname : str) : bool :=
  match hostname with
  | "v"%chr :: s => hex_then_dot_rest false s
  | _ => false
  end.

Definition _check_bracketed_host (hostname : str) : outcome unit :=
  if startswith ["v"%chr] hostname then
    if negb (ipvfuture_match hostname) then Raises ValueError
    else Returns ()
  else
    match ip_address lib hostname with
    | None => Raises ValueError
    | Some IPv4Address => Raises ValueError
    | Some IPv6Address => Returns ()
    end.

Definition _check_bracketed_netloc (netloc : str) : outcome unit :=
  let hostname_and_port := (rpartition "@"%chr netloc).2 in
  let '(before_bracket, have_open_br, bracketed) :=
    partition "["%chr hostname_and_port in
  if have_open_br then
    if bool_decide (before_bracket ≠ []) then Raises ValueError
    else
      let '(hostname, _, port) := partition "]"%chr bracketed in
      if bool_decide (port ≠ []) && negb (startswith [":"%chr] port)
      then Raises ValueError
      else _check_bracketed_host hostname
  else
    let '(hostname, _, port) := partition ":"%chr hostname_and_port in
    _check_bracketed_host hostname.

Definition urlsplit (url : str) : outcome SplitResult :=
  let url := lstrip _WHATWG_C0_CONTROL_OR_SPACE url in
  let url := foldl (λ url b, remove_char b url)
                   url _UNSAFE_URL_BYTES_TO_REMOVE in
  let i := find ":"%chr url in
  let '(scheme, url) :=
    if (0 <? i)%Z && from_option is_ascii_alpha false (head url)
       && forallb (λ c, contains c scheme_chars) (slice_to url i)
    then (lower (slice_to url i), slice_from url (i + 1))
    else ([], url) in
  '(netloc, url) ←
    (if bool_decide (slice_to url 2 = ascii_lit "//") then
       let '(netloc, url) := _splitnetloc url 2 in
       if (contains "["%chr netloc && negb (contains "]"%chr netloc))
          || (contains "]"%chr netloc && negb (contains "["%chr netloc))
       then Raises ValueError
       else
         _ ← (if contains "["%chr netloc && contains "]"%chr netloc
              then _check_bracketed_netloc netloc
              else Returns ());
         Returns (netloc, url)
     else Returns ([], url));
  '(url, fragment) ←
    (if contains "#"%chr url then unpack2 (split "#"%chr (Some 1%nat) url)
     else Returns (url, []));
  '(url, query) ←
    (if contains "?"%chr url then unpack2 (split "?"%chr (Some 1%nat) url)
     else Returns (url, []));
  _ ← _checknetloc netloc;
  Returns {| split_scheme := scheme; split_netloc := netloc;
             split_path := url; split_query := query;
             split_fragment := fragment |}.

Definition urlparse (url : str) : outcome ParseResult :=
  splitresult ← urlsplit url;
  let '(url, params) :=
    if bool_decide (split_scheme splitresult ∈ uses_params)
       && contains ";"%chr (split_path splitresult)
    then _splitparams (split_path splitresult)
    else (split_path splitresult, []) in
  Returns {| scheme := split_scheme splitresult;
             netloc := split_netloc splitresult;
             path := url; params := params;
             query := split_query splitresult;
             fragment := split_fragment splitresult |}.
End urllib.

(** [_hextobyte[key]]: the table has an entry for every pair of hexadecimal
    digits, of either case; any other key raises [KeyError]. *)
Definition _hextobyte (key : bytes) : option Byte.byte :=
  match key with
  | [a; b] =>
      h ← hex_value (Byte.to_N a);
      l ← hex_value (Byte.to_N b);
      Some (byte_of_N (16 * h + l))
  | _ => None
  end.

Definition unquote_to_bytes (string : str) : outcome bytes :=
  if bool_decide (string = []) then Returns []
  else
    string ← encode string;
    let bits := split "%"%byte None string in
    if bool_decide (length bits = 1%nat) then Returns string
    else
      Returns
        (hd [] bits
         ++ concat ((λ item,
                       match _hextobyte (slice_to item 2) with
                       | Some b => b :: slice_from item 2
                       | None => "%"%byte :: item
                       end) <$> tl bits)).

(** [_asciire.split(string)] for [_asciire = re.compile('([\x00-\x7f]+)')]:
    the text before the first run of ASCII characters, then each run
    followed by the text up to the next one. *)
Fixpoint _asciire_split (string : str) : list str :=
  match string with
  | [] => [[]]
  | c :: s' =>
      let bits := _asciire_split s' in
      if isascii c then
        match bits with
        | [] :: run :: bits' => [] :: (c :: run) :: bits'
        | _ => [] :: [c] :: bits
        end
      else (c :: hd [] bits) :: tl bits
  end.

(** The loop of [unquote] over [bits[1:]], two items at a time; a run with
    no text after it would be an [IndexError]. *)
Fixpoint unquote_bits (bits : list str) : outcome str :=
  match bits with
  | [] => Returns []
  | [_] => Raises OtherException
  | run :: text :: bits' =>
      b ← unquote_to_bytes run;
      d ← decode replace b;
      r ← unquote_bits bits';
      Returns (d ++ text ++ r)
  end.

Definition unquote (string : str) : outcome str :=
  if negb (contains "%"%chr string) then Returns string
  else
    let bits := _asciire_split string in
    r ← unquote_bits (tl bits);
    Returns (hd [] bits ++ r).

(** The body of the loop of [parse_qsl] for one field: the pair it appends,
    if any. *)
Definition parse_qsl_field (name_value : str) : outcome (option (str * str)) :=
  if bool_decide (name_value = []) then Returns None
  else
    match split "="%chr (Some 1%nat) name_value with
    | [n; v] =>
        if bool_decide (v ≠ []) then
          name ← unquote (replace_char "+"%chr " "%chr n);
          value ← unquote (replace_char "+"%chr " "%chr v);
          Returns (Some (name, value))
        else Returns None
    | _ => Returns None
    end.

Fixpoint parse_qsl_fields (query_args : list str)
    : outcome (list (str * str)) :=
  match query_args with
  | [] => Returns []
  | name_value :: rest =>
      p ← parse_qsl_field name_value;
      r ← parse_qsl_fields rest;
      Returns (option_list p ++ r)
  end.

Definition parse_qsl (qs : str) : outcome (list (str * str)) :=
  let query_args :=
    if bool_decide (qs ≠ []) then split "&"%chr None qs else [] in
  parse_qsl_fields query_args.

(** A [dict[str, list[str]]]. *)
Abbreviation dict := (gmap str (list str)).

(** One turn of the loop of [parse_qs]. *)
Definition parse_qs_add (parsed_result : dict) (pair : str * str) : dict :=
  let '(name, value) := pair in
  match parsed_result !! name with
  | Some values => <[name := values ++ [value]]> parsed_result
  | None => <[name := [value]]> parsed_result
  end.

Definition parse_qs (qs : str) : outcome dict :=
  pairs ← parse_qsl qs;
  Returns (foldl parse_qs_add ∅ pairs).

(** ** parse_http_request *)

Definition parse_http_request (lib : stdlib) (request : str)
    : outcome (str * str * dict) :=
  match split_str CRLF request with
  | [] => Returns ([], [], ∅)
  | request_line :: _ =>
      match split_whitespace request_line with
      | method :: full_path :: _ =>
          parsed_url ← urlparse lib full_path;
          let path := path parsed_url in
          query_params ← parse_qs (query parsed_url);
          Returns (method, path, query_params)
      | _ => Returns ([], [], ∅)
      end
  end.

(** A library in which no host is an address and normalisation changes
    nothing, to evaluate the parser on targets that do not reach it. *)
Definition no_addresses : stdlib :=
  {| ip_address := λ _, None; normalize_NFKC := λ s, s |}.

(** ** create_http_response *)

Definition BUFFER_SIZE : N := 4096.

(** The f-string of the headers is evaluated from left to right: the
    status code is formatted before the body is encoded for its length. *)
Definition create_http_response (status_code : Z) (status_text body : str)
    : outcome bytes :=
  code ← str_of_int status_code;
  encoded_body ← encode body;
  let headers : str :=
    ascii_lit "HTTP/1.1 " ++ code ++ ascii_lit " "
      ++ status_text ++ CRLF
    ++ ascii_lit "Content-Type: text/html; charset=utf-8" ++ CRLF
    ++ ascii_lit "Content-Length: "
      ++ str_of_len (length encoded_body) ++ CRLF
    ++ ascii_lit "Connection: close" ++ CRLF
    ++ CRLF in
  encoded_headers ← encode headers;
  encoded_body ← encode body;
  Returns (encoded_headers ++ encoded_body).

(** ** The pages

    The literals of the source, character for character; a double quote
    inside a literal is written [DQ]. *)

Definition get_index_page : str :=
  concat
    [lit "
    <!DOCTYPE html>
    <html>
        <head>
            <meta charset=";
     DQ;
     lit "utf-8";
     DQ;
     lit ">
            <title>TCP HTTP Server</title>
            <style>
                body { 
                    font-family: Monocraft, sans-serif; max-width: 800px;
                    margin: 50px auto;
                    padding: 20px;
                }
                h1 { color: #333; }
                ul { list-style-type: none; padding: 0; }
                li { margin: 10px 0; }
                a { color: #0066cc; text-decoration: none; }
                a:hover { text-decoration: underline; }
            </style>
        </head>
        <body>
            <h1>Многопоточный TCP HTTP Server</h1>
            <p>Доступные сервисы:</p>
            <ul>
                <li><a href=";
     DQ;
     lit "movies";
     DQ;
     lit ">Поиск фильмов</a></li>
                <li><a href=";
     DQ;
     lit "/exchange?currency=USD";
     DQ;
     lit ">Курсы валют (USD)</a></li>
                <li><a href=";
     DQ;
     lit "/exchange?currency=EUR";
     DQ;
     lit ">Курсы валют (EUR)</a></li>
                <li><a href=";
     DQ;
     lit "/exchange?currency=GBP";
     DQ;
     lit ">Курсы валют (GBP)</a></li>
                <li><a href=";
     DQ;
     lit "/exchange?currency=JPY";
     DQ;
     lit ">Курсы валют (JPY)</a></li>
                <li><a href=";
     DQ;
     lit "/movie?title=Matrix";
     DQ;
     lit ">Информация о фильме: Matrix</a></li>
                <li><a href=";
     DQ;
     lit "/movie?title=Inception";
     DQ;
     lit ">Информация о фильме: Inception</a></li>
                <li><a href=";
     DQ;
     lit "/movie?title=The Shawshank Redemption";
     DQ;
     lit ">Информация о фильме: The Shawshank Redemption</a></li>
            </ul>
        </body>
    </html>
    "].

Definition get_search_movies : str :=
  concat
    [lit "
    <!DOCTYPE html>
    <html>
    <head>
        <meta charset=";
     DQ;
     lit "UTF-8";
     DQ;
     lit " />
        <title>Поиск фильмов</title>
        <style>
            body {
                    font-family: Monocraft, sans-serif; max-width: 800px;
                    margin: 50px auto;
                    padding: 20px;
                }
                h1 { color: #333; }
                a { color: #0066cc; text-decoration: none; }
                a:hover { text-decoration: underline; }
        </style>
    </head>
    <body>
        <form action=";
     DQ;
     lit "/movie";
     DQ;
     lit " method=";
     DQ;
     lit "get";
     DQ;
     lit ">
        <h1>Поиск фильмов</h1>
        <input type=";
     DQ;
     lit "text";
     DQ;
     lit " name=";
     DQ;
     lit "title";
     DQ;
     lit " placeholder=";
     DQ;
     lit "Название фильма";
     DQ;
     lit ">
        <button type=";
     DQ;
     lit "submit";
     DQ;
     lit ">Найти</button>
        </form>
        <p style=";
     DQ;
     lit "margin-top: 30px;";
     DQ;
     lit "><a href=";
     DQ;
     lit "/";
     DQ;
     lit ">На главную</a></p>
    </body>
    </html>
    "].

(** The f-string of the last branch of the dispatch in [handle_client]. *)
Definition not_found_body (path : str) : str :=
  (concat
    [lit "
            <!DOCTYPE html>
            <html>
                <head>
                    <meta charset=";
     DQ;
     lit "utf-8";
     DQ;
     lit ">
                    <title>404 - Не найдено</title>
                </head>
                <body>
                    <h1>404 - Страница не найдена</h1>
                    <p>Путь "])
  ++ path
  ++ (concat
    [lit " не найден на сервере.</p>
                    <a href=";
     DQ;
     lit "/";
     DQ;
     lit ">На главную</a>
                </body>
            </html>
            "]).

Definition bad_request_body : str :=
  concat
    [lit "<h1>400 - Bad Request</h1><p>Неверный формат запроса</p>"].

Definition internal_error_body : str :=
  concat
    [lit "<h1>500 - Internal Server Error</h1>"].

(** ** The socket and the handler's effects *)

(** What the handler does to the client socket, in order. *)
Inductive event : Type :=
| Recv (bufsize : N)
| Sendall (data : bytes)
| Close.

#[global] Instance event_eq_dec : EqDecision event.
Proof. solve_decision. Defined.

Definition is_Sendall (ev : event) : bool :=
  match ev with Sendall _ => true | _ => false end.

(** The client socket, seen from the handler: what [recv] answers, what the
    [k]-th call of [sendall] does with its argument ([k] counts from 0), and
    what [close] does. *)
Record socket : Type := {
  recv_result : outcome bytes;
  sendall_result : nat → bytes → outcome unit;
  close_result : outcome unit;
}.

(** [sys.stdout], seen from the program.  A [print] can raise: a
    [UnicodeEncodeError] for a text the encoding of the stream does not
    have, an [OSError] for a stream that is closed or broken.
    [print_result line text] is what the [print] statement at the line
    [line] of the source does with the text [text]; in one call of
    [handle_client] or of a content handler each [print] statement runs at
    most once.  [exception_text e] is [str(e)], the message that the log
    lines about a failure end with. *)
Record console : Type := {
  print_result : N → str → outcome unit;
  exception_text : raised → str;
}.

(** [print(text)] at the line [line]; [text] is an f-string, whose
    evaluation can raise. *)
Definition print (out : console) (line : N) (text : outcome str)
    : outcome unit :=
  text ← text; print_result out line text.

(** What the handler's surroundings answer: the library functions behind
    [urlsplit], the two content handlers, which call remote services and
    are functions of the query parameters for a given state of the world,
    and the console. *)
Record environment : Type := {
  env_lib : stdlib;
  handle_exchange_request : dict → outcome str;
  handle_movie_request : dict → outcome str;
  env_console : console;
}.

(** A computation over the trace of socket calls made so far. *)
Definition io (A : Type) : Type := list event → outcome A * list event.

#[global] Instance io_ret : MRet io := λ A a t, (Returns a, t).
#[global] Instance io_bind : MBind io := λ A B f m t,
  match m t with
  | (Returns a, t') => f a t'
  | (Raises e, t') => (Raises e, t')
  end.

(** A call that has no effect on the socket. *)
Definition pure {A} (x : outcome A) : io A := λ t, (x, t).

(** [try: body / except ...: handler]: [handlers e] is the clause that
    matches [e], if one does. *)
Definition try_except {A} (body : io A) (handlers : exn → option (io A))
    : io A := λ t,
  match body t with
  | (Returns a, t') => (Returns a, t')
  | (Raises e, t') =>
      match handlers e with
      | Some handler => handler t'
      | None => (Raises e, t')
      end
  end.

(** [try: body / finally: cleanup]: the outcome of [body] stands unless
    [cleanup] raises. *)
Definition try_finally {A} (body : io A) (cleanup : io unit) : io A := λ t,
  match body t with
  | (r, t') =>
      match cleanup t' with
      | (Returns _, t'') => (r, t'')
      | (Raises e, t'') => (Raises e, t'')
      end
  end.

(** [except Exception:] *)
Definition except_Exception {A} (handler : io A) (e : exn) : option (io A) :=
  if is_Exception e then Some handler else None.

Section client_socket.
Variable client_socket : socket.

Definition sendall_calls (t : list event) : nat :=
  length (filter (λ ev, is_Sendall ev = true) t).

Definition recv (bufsize : N) : io bytes := λ t,
  (recv_result client_socket, t ++ [Recv bufsize]).
Definition sendall (data : bytes) : io unit := λ t,
  (sendall_result client_socket (sendall_calls t) data,
   t ++ [Sendall data]).
Definition close : io unit := λ t,
  (close_result client_socket, t ++ [Close]).
End client_socket.

(** ** handle_client *)

(** The dispatch on [path] in [handle_client] (the [if]/[elif] chain): the
    status code, the status text and the body of the response. *)
Definition dispatch (env : environment) (path : str) (params : dict)
    : outcome (Z * str * str) :=
  if bool_decide (path = ascii_lit "/") || bool_decide (path = []) then
    Returns (200%Z, ascii_lit "OK", get_index_page)
  else if bool_decide (path = ascii_lit "/movies") then
    Returns (200%Z, ascii_lit "OK", get_search_movies)
  else if bool_decide (path = ascii_lit "/exchange") then
    response_body ← handle_exchange_request env params;
    Returns (200%Z, ascii_lit "OK", response_body)
  else if bool_decide (path = ascii_lit "/movie") then
    response_body ← handle_movie_request env params;
    Returns (200%Z, ascii_lit "OK", response_body)
  else
    Returns (404%Z, ascii_lit "Not Found", not_found_body path).

(** [f"{address[0]}:{address[1]}"], the part of the log lines that names
    the client. *)
Definition client_text (address : str * Z) : outcome str :=
  port ← str_of_int address.2;
  Returns (address.1 ++ ":"%chr :: port).

(** The texts of the log lines (lines 493, 502, 503 and 505, 547, 550, 560
    and 576). *)
Definition connected_text (address : str * Z) : outcome str :=
  client ← client_text address;
  Returns (lit "[Подключение] Клиент " ++ client ++ lit " подключен").

Definition request_heading (address : str * Z) : outcome str :=
  client ← client_text address;
  Returns (lit "[Запрос от " ++ client ++ ascii_lit "]").

Definition rule : str := replicate 50 "-"%chr.

Definition answered_text (address : str * Z) : outcome str :=
  client ← client_text address;
  Returns (lit "[Ответ] Отправлен ответ клиенту " ++ client).

Definition undecodable_text (address : str * Z) : outcome str :=
  client ← client_text address;
  Returns (lit "[Ошибка] Не удалось декодировать запрос от " ++ client).

Definition failure_text (out : console) (address : str * Z) (e : exn)
    : outcome str :=
  client ← client_text address;
  Returns (lit "[Ошибка] Ошибка при обработке клиента " ++ client
             ++ ascii_lit ": " ++ exception_text out (Builtin e)).

Definition disconnected_text (address : str * Z) : outcome str :=
  client ← client_text address;
  Returns (lit "[Отключение] Клиент " ++ client ++ lit " отключен").

Definition handle_client (env : environment) (client_socket : socket)
    (address : str * Z) : io unit :=
  let out := env_console env in
  try_finally
    (try_except
       (pure (print out 493 (connected_text address));;
        request_data ← recv client_socket BUFFER_SIZE;
        if bool_decide (request_data = []) then mret ()
        else
          request_str ← pure (decode strict request_data);
          pure (print out 502 (request_heading address));;
          pure (print out 503 (Returns rule));;
          pure (print out 504 (Returns request_str));;
          pure (print out 505 (Returns rule));;
          '(method, path, params) ←
            pure (parse_http_request (env_lib env) request_str);
          '(status_code, status_text, response_body) ←
            pure (dispatch env path params);
          response ←
            pure (create_http_response status_code status_text response_body);
          sendall client_socket response;;
          pure (print out 547 (answered_text address)))
       (λ e,
          match e with
          | UnicodeDecodeError =>
              Some (pure (print out 550 (undecodable_text address));;
                    error_response ←
                      pure (create_http_response 400
                              (ascii_lit "Bad Request") bad_request_body);
                    sendall client_socket error_response)
          | _ =>
              except_Exception
                (pure (print out 560 (failure_text out address e));;
                 error_response ←
                   pure (create_http_response 500
                           (ascii_lit "Internal Server Error")
                           internal_error_body);
                 try_except (sendall client_socket error_response)
                            (except_Exception (mret ())))
                e
          end))
    (try_except
       (close client_socket;;
        pure (print out 576 (disconnected_text address)))
       (except_Exception (mret ()))).

(** A socket that delivers [data] and on which every call succeeds, a
    console that takes every text, and surroundings in which the remote
    services cannot be reached. *)
Definition socket_with (data : bytes) : socket :=
  {| recv_result := Returns data;
     sendall_result := λ _ _, Returns ();
     close_result := Returns () |}.

Definition quiet_console : console :=
  {| print_result := λ _ _, Returns ();
     exception_text := λ _, [] |}.

Definition no_services : environment :=
  {| env_lib := no_addresses;
     handle_exchange_request := λ _, Raises OSError;
     handle_movie_request := λ _, Raises OSError;
     env_console := quiet_console |}.

(** A console whose encoding has the Latin and the Cyrillic letters, like
    cp1251: [print] raises [UnicodeEncodeError] for a text with a code
    point from U+0500 on. *)
Definition cyrillic_console : console :=
  {| print_result := λ _ text,
       if forallb (λ c, c <? 0x500)%N text then Returns ()
       else Raises UnicodeEncodeError;
     exception_text := λ _, [] |}.

(** A console that takes the first log line of a connection and is broken
    from then on, like a pipe whose reader has gone. *)
Definition broken_console : console :=
  {| print_result := λ line _,
       if (line =? 493)%N then Returns () else Raises OSError;
     exception_text := λ _, [] |}.

(** The surroundings of [no_services] with another console. *)
Definition no_services_on (out : console) : environment :=
  {| env_lib := no_addresses;
     handle_exchange_request := λ _, Raises OSError;
     handle_movie_request := λ _, Raises OSError;
     env_console := out |}.

(** The address of a client on the same host. *)
Definition local_client : str * Z := (ascii_lit "127.0.0.1", 50000%Z).

(** * The content handlers and what they call

    ** urllib.parse.quote

    CPython 3.11, Lib/urllib/parse.py, on a [str] argument and with the
    default arguments [safe='/'], [encoding='utf-8'], [errors='strict']. *)

Definition _ALWAYS_SAFE_BYTES : bytes :=
  String.list_byte_of_string
    "ABCDEFGHIJKLMNOPQRSTUVWXYZabcdefghijklmnopqrstuvwxyz0123456789_.-~".

(** A hexadecimal digit, in upper case. *)
Definition hex_digit (n : N) : N :=
  (if n <? 10 then 0x30 + n else 0x41 + (n - 10))%N.

(** [_Quoter(safe)[b]]: [chr(b)] for a safe byte, ['%{:02X}'.format(b)] for
    another. *)
Definition _Quoter (safe : bytes) (b : Byte.byte) : str :=
  if bool_decide (b ∈ _ALWAYS_SAFE_BYTES ++ safe) then [Byte.to_N b]
  else ["%"%chr; hex_digit (Byte.to_N b / 16); hex_digit (Byte.to_N b mod 16)].

(** [bs.rstrip(chars)] *)
Definition rstrip {A} `{EqDecision A} (chars s : list A) : list A :=
  reverse (lstrip chars (reverse s)).

Definition quote_from_bytes (bs safe : bytes) : outcome str :=
  if bool_decide (bs = []) then Returns []
  else if bool_decide (rstrip (_ALWAYS_SAFE_BYTES ++ safe) bs = [])
  then decode strict bs
  else Returns (concat (_Quoter safe <$> bs)).

Definition quote (string : str) : outcome str :=
  if bool_decide (string = []) then Returns string
  else
    string ← encode string;
    quote_from_bytes string ["/"%byte].

(** ** What the handlers take as given

    The handlers read a URL and parse what they read as JSON.  What the
    network answers, what [json.loads] makes of a text, and the
    interpreter's Unicode tables and floating-point arithmetic are taken as
    given. *)

(** The value [json.loads] returns: [None], a [bool], an [int], a
    [float], a [str], a [list] or a [dict] with [str] keys. *)
#[warnings="-register-all"] Inductive json : Type :=
| JNone
| JBool (b : bool)
| JInt (n : Z)
| JFloat (x : spec_float)
| JStr (s : str)
| JList (items : list json)
| JDict (items : gmap str json).

(** The result of a step of a [try] block. *)
Inductive attempt (A : Type) : Type :=
| Done (a : A)
| Failed (e : raised).
Arguments Done {A} a.
Arguments Failed {A} e.

#[global] Instance attempt_ret : MRet attempt := λ A a, Done a.
#[global] Instance attempt_bind : MBind attempt := λ A B f x,
  match x with Done a => f a | Failed e => Failed e end.

(** A call of the model of the library, inside a [try] block. *)
Definition raising {A} (x : outcome A) : attempt A :=
  match x with Returns a => Done a | Raises e => Failed (Builtin e) end.

(** - [urlopen_read url timeout]: [urlopen(url, timeout=timeout)] entered
      as a context manager and [response.read()] on it (the response of an
      http URL is an [HTTPResponse], as the [assert] has it): the bytes
      read, or what is raised on the way;
    - [json_loads]: [json.loads] on a [str];
    - [repr]: the text of a [float], a [list] or a [dict] in an f-string
      (a [ValueError] for a list that holds an [int] beyond the limit of
      [str_of_int]);
    - [to_upper_full]: the upper case of a character that is not ASCII,
      which may be several characters;
    - [divide]: [a / b] for two numbers;
    - [fixed]: [format(a, '.<digits>f')] for a number. *)
Record platform : Type := {
  urlopen_read : str → Z → attempt bytes;
  json_loads : str → attempt json;
  repr : json → attempt str;
  to_upper_full : N → str;
  divide : json → json → attempt json;
  fixed : nat → json → attempt str;
}.

Definition TIMEOUT : Z := 10.
Definition OMDB_API_KEY : str := ascii_lit "YOUR_API_KEY".

(** [values[0]]: an [IndexError] on an empty list. *)
Definition first_item {A} (values : list A) : outcome A :=
  match values with
  | [] => Raises OtherException
  | value :: _ => Returns value
  end.

(** [data.get(key, default)]: an [AttributeError] on a value that is not a
    [dict]. *)
Definition get (data : json) (key : str) (default_value : json)
    : attempt json :=
  match data with
  | JDict items => Done (default default_value (items !! key))
  | _ => Failed (Builtin OtherException)
  end.

(** [value == text] for a [str] [text]. *)
Definition is_str (value : json) (text : str) : bool :=
  match value with
  | JStr s => bool_decide (s = text)
  | _ => false
  end.

(** The truth value of [value] in a condition. *)
Definition truthy (value : json) : bool :=
  match value with
  | JNone => false
  | JBool b => b
  | JInt n => negb (n =? 0)%Z
  | JFloat x => match x with S754_zero _ => false | _ => true end
  | JStr s => negb (bool_decide (s = []))
  | JList items => negb (bool_decide (items = []))
  | JDict items => negb (bool_decide (items = ∅))
  end.

(** [f"{value}"] *)
Definition format (pf : platform) (value : json) : attempt str :=
  match value with
  | JStr s => Done s
  | JNone => Done (ascii_lit "None")
  | JBool true => Done (ascii_lit "True")
  | JBool false => Done (ascii_lit "False")
  | JInt n => raising (str_of_int n)
  | JFloat _ | JList _ | JDict _ => repr pf value
  end.

(** [s.upper()]: character by character. *)
Definition upper (pf : platform) (s : str) : str :=
  c ← s;
  if isascii c then [if is_ascii_lower c then (c - 0x20)%N else c]
  else to_upper_full pf c.

(** An [int], a [bool] or a [float]. *)
Definition is_number (value : json) : bool :=
  match value with
  | JBool _ | JInt _ | JFloat _ => true
  | _ => false
  end.

(** [value != 0] *)
Definition differs_from_zero (value : json) : bool :=
  match value with
  | JBool b => b
  | JInt n => negb (n =? 0)%Z
  | JFloat x => match x with S754_zero _ => false | _ => true end
  | _ => true
  end.

(** [a / b]: a [TypeError] unless both are numbers. *)
Definition truediv (pf : platform) (a b : json) : attempt json :=
  if is_number a && is_number b then divide pf a b
  else Failed (Builtin OtherException).

(** [f"{value:.<digits>f}"]: a [ValueError] for a [str], a [TypeError] for
    a value that is no number. *)
Definition format_fixed (pf : platform) (digits : nat) (value : json)
    : attempt str :=
  match value with
  | JBool _ | JInt _ | JFloat _ => fixed pf digits value
  | JStr _ => Failed (Builtin ValueError)
  | JNone | JList _ | JDict _ => Failed (Builtin OtherException)
  end.

(** [p in s] for two [str]. *)
Fixpoint is_substring (p s : str) : bool :=
  startswith p s
  || match s with
     | [] => false
     | _ :: s' => is_substring p s'
     end.

(** [item in container] for a [str] [item]: a [TypeError] for a container
    that is no [dict], [list] or [str]. *)
Definition contains_str (container : json) (item : str) : attempt bool :=
  match container with
  | JDict items => Done (bool_decide (is_Some (items !! item)))
  | JList items => Done (existsb (λ value, is_str value item) items)
  | JStr s => Done (is_substring item s)
  | _ => Failed (Builtin OtherException)
  end.

(** The [float] [1.0]. *)
Definition one : spec_float := S754_finite false 4503599627370496 (-52).

(** ** The pages of the content handlers *)

(** The page of [handle_movie_request] for a request without a title
    (lines 226-241). *)
Definition movie_usage_page : str :=
  concat
    [lit "
        <!DOCTYPE html>
        <html>
            <head>
                <meta charset=";
     DQ;
     lit "utf-8";
     DQ;
     lit ">
                <title>Ошибка</title>
            </head>
            <body>
                <h1>Ошибка</h1>
                <p>Не указано название фильма.</p>
                <p>Используйте: /movie?title=Название фильма</p>
                <a href=";
     DQ;
     lit "/";
     DQ;
     lit ">На главную</a>
                <a href=";
     DQ;
     lit "/movies";
     DQ;
     lit ">Искать другие фильмы</a>
            </body>
        </html>
        "].

(** The page for a title the service does not know (lines 258-272). *)
Definition movie_not_found_page (error_msg : str) : str :=
  concat
    [lit "
            <!DOCTYPE html>
            <html>
                <head>
                    <meta charset=";
     DQ;
     lit "utf-8";
     DQ;
     lit ">
                    <title>Фильм не найден</title>
                </head>
                <body>
                    <h1>Ошибка</h1>
                    <p>";
     error_msg;
     lit "</p>
                    <a href=";
     DQ;
     lit "/";
     DQ;
     lit ">На главную</a>
                    <a href=";
     DQ;
     lit "/movies";
     DQ;
     lit ">Искать другие фильмы</a>
                </body>
            </html>
            "].

(** The image tag of the poster (line 288). *)
Definition poster_img (poster movie_title : str) : str :=
  concat
    [lit "<img src=";
     DQ;
     poster;
     DQ;
     lit " alt=";
     DQ;
     lit "Постер ";
     movie_title;
     DQ;
     lit " style=";
     DQ;
     lit "max-width: 300px; margin: 20px 0;";
     DQ;
     lit ">"].

(** The page of a film (lines 290-322). *)
Definition movie_page
    (movie_title poster_html year director
     genre actors rating plot : str) : str :=
  concat
    [lit "
        <!DOCTYPE html>
        <html>
            <head>
                <meta charset=";
     DQ;
     lit "utf-8";
     DQ;
     lit ">
                <title>";
     movie_title;
     lit "</title>
                <style>
                    body {
                        font-family: Monocraft, sans-serif;
                        max-width: 800px;
                        margin: 50px auto;
                        padding: 20px;
                    }
                    h1 { color: #333; }
                    .info { margin: 10px 0; }
                    .label { font-weight: bold; color: #666; }
                    .rating { color: #0066cc; font-size: 18px; }
                </style>
            </head>
            <body>
                <h1>";
     movie_title;
     lit "</h1>
                ";
     poster_html;
     lit "
                <div class=";
     DQ;
     lit "info";
     DQ;
     lit "><span class=";
     DQ;
     lit "label";
     DQ;
     lit ">Год:</span> ";
     year;
     lit "</div>
                <div class=";
     DQ;
     lit "info";
     DQ;
     lit "><span class=";
     DQ;
     lit "label";
     DQ;
     lit ">Режиссер:</span> ";
     director;
     lit "</div>
                <div class=";
     DQ;
     lit "info";
     DQ;
     lit "><span class=";
     DQ;
     lit "label";
     DQ;
     lit ">Жанр:</span> ";
     genre;
     lit "</div>
                <div class=";
     DQ;
     lit "info";
     DQ;
     lit "><span class=";
     DQ;
     lit "label";
     DQ;
     lit ">Актеры:</span> ";
     actors;
     lit "</div>
                <div class=";
     DQ;
     lit "info";
     DQ;
     lit "><span class=";
     DQ;
     lit "label";
     DQ;
     lit ">Рейтинг IMDb:</span> <span class=";
     DQ;
     lit "rating";
     DQ;
     lit ">";
     rating;
     lit "/10</span></div>
                <div class=";
     DQ;
     lit "info";
     DQ;
     lit "><span class=";
     DQ;
     lit "label";
     DQ;
     lit ">Описание:</span> ";
     plot;
     lit "</div>
                <p style=";
     DQ;
     lit "margin-top: 30px;";
     DQ;
     lit "><a href=";
     DQ;
     lit "/";
     DQ;
     lit ">На главную</a></p>
                <p><a href=";
     DQ;
     lit "/movies";
     DQ;
     lit ">Искать другие фильмы</a></p>
            </body>
        </html>
        "].

(** The page of the clause [except (HTTPError, URLError)] (lines 326-340). *)
Definition movie_unreachable_page (title : str) : str :=
  concat
    [lit "
        <!DOCTYPE html>
        <html>
            <head>
                <meta charset=";
     DQ;
     lit "utf-8";
     DQ;
     lit ">
                <title>Ошибка API</title>
            </head>
            <body>
                <h1>Ошибка</h1>
                <p>Не удалось получить информацию о фильме ";
     DQ;
     title;
     DQ;
     lit ".</p>
                <p>Проверьте подключение к интернету и попробуйте позже.</p>
                <a href=";
     DQ;
     lit "/";
     DQ;
     lit ">На главную</a>
            </body>
        </html>
        "].

(** The page of the clause [except (json.JSONDecodeError, KeyError)], the
    same text in both handlers (lines 176-189 and 343-356). *)
Definition api_data_error_page : str :=
  concat
    [lit "
        <!DOCTYPE html>
        <html>
            <head>
                <meta charset=";
     DQ;
     lit "utf-8";
     DQ;
     lit ">
                <title>Ошибка обработки</title>
            </head>
            <body>
                <h1>Ошибка</h1>
                <p>Ошибка при обработке данных от API.</p>
                <a href=";
     DQ;
     lit "/";
     DQ;
     lit ">На главную</a>
            </body>
        </html>
        "].

(** The page of the clause [except Exception], the same text in both
    handlers (lines 195-208 and 359-372). *)
Definition unexpected_error_page : str :=
  concat
    [lit "
        <!DOCTYPE html>
        <html>
            <head>
                <meta charset=";
     DQ;
     lit "utf-8";
     DQ;
     lit ">
                <title>Ошибка</title>
            </head>
            <body>
                <h1>Ошибка</h1>
                <p>Произошла ошибка при обработке запроса.</p>
                <a href=";
     DQ;
     lit "/";
     DQ;
     lit ">На главную</a>
            </body>
        </html>
        "].

(** The page of [handle_exchange_request] for a currency the rates do not
    list (lines 99-113). *)
Definition currency_not_found_page (currency : str) : str :=
  concat
    [lit "
            <!DOCTYPE html>
            <html>
                <head>
                    <meta charset=";
     DQ;
     lit "utf-8";
     DQ;
     lit ">
                    <title>Валюта не найдена</title>
                </head>
                <body>
                    <h1>Ошибка</h1>
                    <p>Валюта ";
     currency;
     lit " не найдена в базе данных.</p>
                    <p>Доступные валюты: USD, EUR, GBP, JPY, CNY, RUB, CAD, AUD и другие</p>
                    <a href=";
     DQ;
     lit "/";
     DQ;
     lit ">На главную</a>
                </body>
            </html>
            "].

(** The page of a rate (lines 127-155); [rate_to_rub] and [rate_to_usd] are
    the formatted numbers. *)
Definition rate_page
    (currency currency_name rate_to_rub rate_to_usd date : str) : str :=
  concat
    [lit "
        <!DOCTYPE html>
        <html>
            <head>
                <meta charset=";
     DQ;
     lit "utf-8";
     DQ;
     lit ">
                <title>Курс ";
     currency;
     lit "</title>
                <style>
                    body {
                        font-family: Monocraft, sans-serif;
                        max-width: 600px;
                        margin: 50px auto;
                        padding: 20px;
                    }
                    h1 { color: #333; }
                    .rate { font-size: 24px; color: #0066cc; margin: 20px 0; }
                    .info { color: #666; }
                </style>
            </head>
            <body>
                <h1>Курс валюты</h1>
                <p><strong>";
     currency_name;
     lit " (";
     currency;
     lit ")</strong></p>
                <div class=";
     DQ;
     lit "rate";
     DQ;
     lit ">1 ";
     currency;
     lit " = ";
     rate_to_rub;
     lit " RUB</div>
                <div class=";
     DQ;
     lit "rate";
     DQ;
     lit ">1 USD = ";
     rate_to_usd;
     lit " ";
     currency;
     lit "</div>
                <p class=";
     DQ;
     lit "info";
     DQ;
     lit ">Дата обновления: ";
     date;
     lit "</p>
                <p class=";
     DQ;
     lit "info";
     DQ;
     lit ">Источник: exchangerate-api.io</p>
                <a href=";
     DQ;
     lit "/";
     DQ;
     lit ">На главную</a>
            </body>
        </html>
        "].

(** The page of the clause [except (HTTPError, URLError)] (lines 159-173). *)
Definition exchange_unreachable_page (currency : str) : str :=
  concat
    [lit "
        <!DOCTYPE html>
        <html>
            <head>
                <meta charset=";
     DQ;
     lit "utf-8";
     DQ;
     lit ">
                <title>Ошибка API</title>
            </head>
            <body>
                <h1>Ошибка</h1>
                <p>Не удалось получить данные о курсе валюты ";
     currency;
     lit ".</p>
                <p>Проверьте подключение к интернету и попробуйте позже.</p>
                <a href=";
     DQ;
     lit "/";
     DQ;
     lit ">На главную</a>
            </body>
        </html>
        "].

(** ** The content handlers *)

Module content.

Definition currency_names : gmap str str :=
  list_to_map
    [(ascii_lit "USD", lit "Доллар США");
     (ascii_lit "EUR", lit "Евро");
     (ascii_lit "GBP", lit "Фунт стерлингов");
     (ascii_lit "JPY", lit "Японская иена");
     (ascii_lit "CNY", lit "Китайский юань");
     (ascii_lit "RUB", lit "Российский рубль");
     (ascii_lit "CAD", lit "Канадский доллар");
     (ascii_lit "AUD", lit "Австралийский доллар")].

(** [print(f"<prefix>{e}")], the first statement of an [except] clause. *)
Definition log_failure (out : console) (line : N) (prefix : str)
    (e : raised) : outcome unit :=
  print out line (Returns (prefix ++ exception_text out e)).

(** The [try] block of [handle_exchange_request]. *)
Definition exchange_lookup (pf : platform) (currency : str) : attempt str :=
  let api_url := ascii_lit "https://api.exchangerate-api.com/v4/latest/USD" in
  body ← urlopen_read pf api_url TIMEOUT;
  text ← raising (decode strict body);
  data ← json_loads pf text;
  rates ← get data (ascii_lit "rates") (JDict ∅);
  date ← get data (ascii_lit "date") (JStr (lit "Неизвестно"));
  listed ← contains_str rates currency;
  if negb listed then Done (currency_not_found_page currency)
  else
    rate_to_usd ← get rates currency (JFloat one);
    rate_rub ← get rates (ascii_lit "RUB") (JFloat one);
    rate_to_rub ←
      (if differs_from_zero rate_to_usd then truediv pf rate_rub rate_to_usd
       else Done (JInt 0));
    let currency_name := default currency (currency_names !! currency) in
    shown_to_rub ← format_fixed pf 2 rate_to_rub;
    shown_to_usd ← format_fixed pf 4 rate_to_usd;
    shown_date ← format pf date;
    Done (rate_page currency currency_name shown_to_rub shown_to_usd
            shown_date).

Definition handle_exchange_request (out : console) (pf : platform)
    (params : dict) : outcome str :=
  currency ←
    first_item (default [ascii_lit "USD"] (params !! ascii_lit "currency"));
  let currency := upper pf currency in
  match exchange_lookup pf currency with
  | Done html_response => Returns html_response
  | Failed e =>
      match e with
      | HTTPError | URLError =>
          log_failure out 158
            (lit "[Ошибка API] Ошибка при получении курсов валют: ") e;;
          Returns (exchange_unreachable_page currency)
      | JSONDecodeError | KeyError =>
          log_failure out 175
            (lit "[Ошибка парсинга] Ошибка при обработке ответа API: ") e;;
          Returns api_data_error_page
      | Builtin x =>
          if is_Exception x then
            log_failure out 191
              (lit "[Ошибка] Неожиданная ошибка при обработке "
                 ++ lit "запроса курса валют: ")
              e;;
            Returns unexpected_error_page
          else Raises x
      end
  end.

(** The [try] block of [handle_movie_request]. *)
Definition movie_lookup (pf : platform) (title : str) : attempt str :=
  encoded_title ← raising (quote title);
  let api_url :=
    ascii_lit "http://www.omdbapi.com/?apikey=" ++ OMDB_API_KEY
      ++ ascii_lit "&t=" ++ encoded_title in
  body ← urlopen_read pf api_url TIMEOUT;
  text ← raising (decode strict body);
  data ← json_loads pf text;
  response ← get data (ascii_lit "Response") JNone;
  if is_str response (ascii_lit "False") then
    error_msg ← get data (ascii_lit "Error") (JStr (lit "Фильм не найден"));
    shown_error ← format pf error_msg;
    Done (movie_not_found_page shown_error)
  else
    movie_title ← get data (ascii_lit "Title") (JStr (lit "Неизвестно"));
    year ← get data (ascii_lit "Year") (JStr (lit "Неизвестно"));
    director ← get data (ascii_lit "Director") (JStr (lit "Неизвестно"));
    rating ← get data (ascii_lit "imdbRating") (JStr (lit "Неизвестно"));
    plot ← get data (ascii_lit "Plot") (JStr (lit "Описание отсутствует"));
    genre ← get data (ascii_lit "Genre") (JStr (lit "Неизвестно"));
    actors ← get data (ascii_lit "Actors") (JStr (lit "Неизвестно"));
    poster ← get data (ascii_lit "Poster") (JStr []);
    poster_html ←
      (if truthy poster && negb (is_str poster (ascii_lit "N/A"))
       then
         shown_poster ← format pf poster;
         shown_title ← format pf movie_title;
         Done (poster_img shown_poster shown_title)
       else Done []);
    shown_title ← format pf movie_title;
    shown_year ← format pf year;
    shown_director ← format pf director;
    shown_genre ← format pf genre;
    shown_actors ← format pf actors;
    shown_rating ← format pf rating;
    shown_plot ← format pf plot;
    Done (movie_page shown_title poster_html shown_year shown_director
            shown_genre shown_actors shown_rating shown_plot).

Definition handle_movie_request (out : console) (pf : platform)
    (params : dict) : outcome str :=
  title ← first_item (default [lit "Неизвестно"] (params !! ascii_lit "title"));
  if bool_decide (title = []) || bool_decide (title = lit "Неизвестно")
  then Returns movie_usage_page
  else
    match movie_lookup pf title with
    | Done html_response => Returns html_response
    | Failed e =>
        match e with
        | HTTPError | URLError =>
            log_failure out 325
              (lit "[Ошибка API] Ошибка при получении информации о фильме: ")
              e;;
            Returns (movie_unreachable_page title)
        | JSONDecodeError | KeyError =>
            log_failure out 342
              (lit "[Ошибка парсинга] Ошибка при обработке ответа API: ") e;;
            Returns api_data_error_page
        | Builtin x =>
            if is_Exception x then
              log_failure out 358
                (lit "[Ошибка] Неожиданная ошибка при обработке "
                   ++ lit "запроса фильма: ")
                e;;
              Returns unexpected_error_page
            else Raises x
        end
    end.

End content.

(** * main

    The server socket is seen through the calls [main] makes on it and
    what they raise; the thread started for a connection runs
    [handle_client] on its own and is not followed here. *)

Definition HOST : str := ascii_lit "localhost".
Definition PORT : Z := 8888.

(** What a call can raise: [KeyboardInterrupt], which [main] names, or an
    exception of [exn], where [NotAnException] stands for the other classes
    outside [Exception]. *)
Inductive signal : Set :=
| KeyboardInterrupt
| Exn (e : exn).

(** The calls of [main] on sockets and threads, in order:
    [socket.socket(AF_INET, SOCK_STREAM)],
    [setsockopt(SOL_SOCKET, SO_REUSEADDR, 1)], [bind((host, port))],
    [listen(backlog)], [accept()],
    [Thread(target=handle_client, args=(client_socket, address),
    daemon=True).start()] and [close()]. *)
Inductive server_event : Type :=
| Socket
| Setsockopt
| Bind (host : str) (port : Z)
| Listen (backlog : Z)
| Accept
| Start (client_socket : socket) (address : str * Z)
| Close_server.

(** What the calls do: what each one raises, if anything, and what the
    [k]-th [accept] returns ([k] counts from 0; the [k]-th thread is the
    one of the [k]-th connection).  [print_raises line text] is what the
    [print] statement at the line [line] raises for the text [text], and
    [thread_print_raises k text] what the [print] of line 612 raises in the
    [k]-th turn of the loop; [error_text e] is [str(e)]. *)
Record listener : Type := {
  socket_raises : option signal;
  setsockopt_raises : option signal;
  bind_raises : option signal;
  listen_raises : option signal;
  accept_result : nat → signal + socket * (str * Z);
  start_raises : nat → option signal;
  close_raises : option signal;
  print_raises : N → str → option signal;
  thread_print_raises : nat → str → option signal;
  error_text : exn → str;
}.

(** A [print] of an f-string, whose evaluation can raise. *)
Definition say (raises : str → option signal) (text : outcome str)
    : option signal :=
  match text with
  | Returns text => raises text
  | Raises e => Some (Exn e)
  end.

(** [f"{HOST}:{PORT}"] *)
Definition server_text : outcome str :=
  port ← str_of_int PORT;
  Returns (HOST ++ ":"%chr :: port).

(** The three [print] statements before the loop (lines 596-598): what the
    first one that raises raises. *)
Definition announce (l : listener) : option signal :=
  match say (print_raises l 596)
          (server ← server_text;
           Returns (lit "[Сервер] Запущен на " ++ server)) with
  | Some s => Some s
  | None =>
      match say (print_raises l 597)
              (Returns (lit "[Сервер] Ожидание подключений...")) with
      | Some s => Some s
      | None =>
          say (print_raises l 598)
            (server ← server_text;
             Returns (lit "[Сервер] Откройте в браузере: http://"
                        ++ server))
      end
  end.

(** The [print] that ends a turn of the loop (line 612). *)
Definition announce_thread (l : listener) (k : nat) (address : str * Z)
    : option signal :=
  say (thread_print_raises l k)
    (client ← client_text address;
     Returns (lit "[Поток] Запущен поток для клиента " ++ client)).

(** The turns [k], [k+1], ... of the loop [while True], at most [fuel] of
    them: the exception that ends the loop, if one does within these
    turns, and the calls made. *)
Fixpoint serve (l : listener) (fuel k : nat)
    : option signal * list server_event :=
  match fuel with
  | O => (None, [])
  | S fuel =>
      match accept_result l k with
      | inl s => (Some s, [Accept])
      | inr (client_socket, address) =>
          match start_raises l k with
          | Some s => (Some s, [Accept; Start client_socket address])
          | None =>
              match announce_thread l k address with
              | Some s => (Some s, [Accept; Start client_socket address])
              | None =>
                  let '(raised, t) := serve l fuel (S k) in
                  (raised, Accept :: Start client_socket address :: t)
              end
          end
      end
  end.

(** How [main] ends: it returns, or an exception leaves it. *)
Inductive ending : Set :=
| Returned
| Propagated (s : signal).

(** The clauses [except KeyboardInterrupt] and [except Exception], each of
    which is one [print] (lines 617 and 619). *)
Definition after_except (l : listener) (s : signal) : ending :=
  match s with
  | KeyboardInterrupt =>
      match say (print_raises l 617)
              (Returns
                 (LF :: lit "[Сервер] Получен сигнал завершения (Ctrl+C)"))
      with
      | None => Returned
      | Some s' => Propagated s'
      end
  | Exn e =>
      if is_Exception e then
        match say (print_raises l 619)
                (Returns (lit "[Ошибка] Критическая ошибка сервера: "
                            ++ error_text l e)) with
        | None => Returned
        | Some s' => Propagated s'
        end
      else Propagated s
  end.

(** The clause [finally]: [close] and a [print] (line 624), guarded by
    [except Exception]. *)
Definition after_finally (l : listener) (e : ending) : ending :=
  let raised :=
    match close_raises l with
    | Some s => Some s
    | None =>
        say (print_raises l 624) (Returns (lit "[Сервер] Сервер остановлен"))
    end in
  match raised with
  | None => e
  | Some KeyboardInterrupt => Propagated KeyboardInterrupt
  | Some (Exn x) => if is_Exception x then e else Propagated (Exn x)
  end.

(** [main], for at most [fuel] turns of its loop: how it ends ([None]
    while the loop is still running) and the calls made. *)
Definition main (l : listener) (fuel : nat)
    : option ending * list server_event :=
  match socket_raises l with
  | Some s => (Some (Propagated s), [Socket])
  | None =>
      match setsockopt_raises l with
      | Some s => (Some (Propagated s), [Socket; Setsockopt])
      | None =>
          let '(raised, t) :=
            match bind_raises l with
            | Some s => (Some s, [Bind HOST PORT])
            | None =>
                match listen_raises l with
                | Some s => (Some s, [Bind HOST PORT; Listen 5])
                | None =>
                    match announce l with
                    | Some s => (Some s, [Bind HOST PORT; Listen 5])
                    | None =>
                        let '(raised, t) := serve l fuel 0 in
                        (raised, Bind HOST PORT :: Listen 5 :: t)
                    end
                end
            end in
          match raised with
          | None => (None, Socket :: Setsockopt :: t)
          | Some s =>
              (Some (after_finally l (after_except l s)),
               Socket :: Setsockopt :: t ++ [Close_server])
          end
      end
  end.

(** * The vocabulary of the properties *)

(** ** Bytes on the wire *)

(** The code points U+D800..U+DFFF. *)
Definition is_surrogate (c : N) : Prop := (0xD800 ≤ c ≤ 0xDFFF)%N.

(** The decimal digits of an [int], as the bytes they encode to. *)
Definition decimal_bytes (n : Z) : bytes :=
  String.list_byte_of_string (NilZero.string_of_int (Z.to_int n)).

(** [n] has at most 4300 decimal digits, so that [str_of_int] returns. *)
Definition within_str_digits (n : Z) : Prop :=
  (Z.of_nat (length (decimal (Z.abs n))) ≤ int_max_str_digits)%Z.

Definition ascii_bytes (bs : bytes) : Prop :=
  Forall (λ b, (Byte.to_N b < 0x80)%N) bs.

(** A bytes literal, and the two bytes of a line end. *)
Definition bytes_lit (s : string) : bytes := String.list_byte_of_string s.
Definition CRLF_bytes : bytes := [Byte.x0d; Byte.x0a].

(** The response as the wire protocol writes it, from the encoded status
    text and body. *)
Definition wire_format (status_code : Z) (text_bytes body_bytes : bytes)
    : bytes :=
  bytes_lit "HTTP/1.1 " ++ decimal_bytes status_code ++ bytes_lit " "
    ++ text_bytes ++ CRLF_bytes
  ++ bytes_lit "Content-Type: text/html; charset=utf-8" ++ CRLF_bytes
  ++ bytes_lit "Content-Length: "
    ++ decimal_bytes (Z.of_nat (length body_bytes)) ++ CRLF_bytes
  ++ bytes_lit "Connection: close" ++ CRLF_bytes
  ++ CRLF_bytes
  ++ body_bytes.

(** A text that UTF-8 can encode: it holds no surrogate. *)
Definition encodable (s : str) : Prop :=
  Forall (λ c, ¬ is_surrogate c) s.

(** The bytes [s] encodes to. *)
Definition encoded (s : str) : bytes :=
  match encode s with Returns b => b | Raises _ => [] end.

(** The three responses the handler builds from fixed text. *)
Definition index_response : bytes :=
  wire_format 200 (bytes_lit "OK") (encoded get_index_page).

Definition bad_request_response : bytes :=
  wire_format 400 (bytes_lit "Bad Request") (encoded bad_request_body).

Definition internal_error_response : bytes :=
  wire_format 500 (bytes_lit "Internal Server Error")
    (encoded internal_error_body).

(** ** Request lines *)

Definition no_whitespace (s : str) : Prop :=
  Forall (λ c, isspace c = false) s.

(** A token of a request line: a non-empty run without whitespace. *)
Definition token (s : str) : Prop := s ≠ [] ∧ no_whitespace s.

(** [PATH.split('/')[-1]] *)
Definition last_segment (p : str) : str :=
  default [] (last (split "/"%chr None p)).

(** The targets [PATH?QUERY] that [urlparse] only cuts at the question
    mark: the path starts with one slash (no scheme, no network location),
    neither part holds a fragment mark, the path holds no question mark, and
    the last segment of the path carries no [;parameters]. *)
Record plain_target (PATH QUERY : str) : Prop := {
  path_rooted : ["/"%chr] `prefix_of` PATH;
  path_no_netloc : ¬ ["/"%chr; "/"%chr] `prefix_of` PATH;
  path_no_query : "?"%chr ∉ PATH;
  path_no_fragment : "#"%chr ∉ PATH;
  path_no_params : ";"%chr ∉ last_segment PATH;
  query_no_fragment : "#"%chr ∉ QUERY;
}.

(** The request whose first line is [METHOD PATH?QUERY VERSION], followed
    by CRLF and anything at all (headers, body). *)
Definition request_with (METHOD PATH QUERY VERSION rest : str) : str :=
  METHOD ++ ascii_lit " " ++ PATH ++ ascii_lit "?" ++ QUERY ++ ascii_lit " "
    ++ VERSION ++ CRLF ++ rest.

(** The first line of a request: [request.split(CRLF)[0]]. *)
Definition request_line (request : str) : str :=
  hd [] (split_str CRLF request).

(** ** Query strings *)

(** The parts of [_asciire.split] after the first: runs of ASCII
    characters, each followed by a text. *)
Inductive ascii_runs : list str → Prop :=
| ascii_runs_nil : ascii_runs []
| ascii_runs_cons run text rest :
    Forall (λ c, isascii c = true) run → ascii_runs rest →
    ascii_runs (run :: text :: rest).

(** What [parse_qsl] does to a name or a value: [+] becomes a space, then
    percent escapes are decoded. *)
Definition form_decode (s : str) : outcome str :=
  unquote (replace_char "+"%chr " "%chr s).

(** A field of a query string, between two [&]: a [name=value] that
    [parse_qsl] keeps, or a text that it drops. *)
Inductive query_field : Type :=
| Kept (name value : str)
| Dropped (text : str).

(** The text of a field. *)
Definition render (f : query_field) : str :=
  match f with
  | Kept name value => name ++ "="%chr :: value
  | Dropped text => text
  end.

(** No field holds a [&].  A kept field has a name without [=] and a value
    that is not empty; a dropped one has no [=], or nothing after its first
    [=]. *)
Definition well_formed_field (f : query_field) : Prop :=
  match f with
  | Kept name value =>
      ("&"%chr ∉ name) ∧ ("="%chr ∉ name) ∧ ("&"%chr ∉ value) ∧ value ≠ []
  | Dropped text =>
      ("&"%chr ∉ text)
      ∧ (("="%chr ∉ text) ∨ ∃ name, text = name ++ ["="%chr] ∧ "="%chr ∉ name)
  end.

(** The query string made of the fields. *)
Definition query_string (fields : list query_field) : str :=
  join ["&"%chr] (render <$> fields).

(** The raw names and values of the kept fields, in order. *)
Definition kept_pairs (fields : list query_field) : list (str * str) :=
  omap (λ f, match f with
             | Kept name value => Some (name, value)
             | Dropped _ => None
             end) fields.

(** [d] is the decoded form of the raw pair [p]. *)
Definition decodes_to (p d : str * str) : Prop :=
  form_decode p.1 = Returns d.1 ∧ form_decode p.2 = Returns d.2.

(** The values paired with [key], in the order of the pairs. *)
Definition values_of (key : str) (pairs : list (str * str)) : list str :=
  (filter (λ p, p.1 = key) pairs).*2.

(** ** Exceptions and socket calls *)

(** A call that raises nothing but [ValueError]. *)
Definition only_ValueError {A} (x : outcome A) : Prop :=
  ∀ e, x = Raises e → e = ValueError.

(** The text [urlsplit] works on: the argument without its leading
    control characters and spaces, and without tabs and line ends. *)
Definition cleaned (url : str) : str :=
  foldl (λ url b, remove_char b url)
        (lstrip _WHATWG_C0_CONTROL_OR_SPACE url)
        _UNSAFE_URL_BYTES_TO_REMOVE.

(** The target has the network location [netloc]: its first slash is
    doubled, and [netloc] is the text from there to the next [/], [?] or
    [#], or to the end of the target. *)
Definition network_location (target netloc : str) : Prop :=
  ∃ l1 l2,
    target = l1 ++ ascii_lit "//" ++ netloc ++ l2
    ∧ ("/"%chr ∉ l1)
    ∧ (∀ c, c ∈ ascii_lit "/?#" → c ∉ netloc)
    ∧ (l2 = [] ∨ ∃ c, c ∈ ascii_lit "/?#" ∧ head l2 = Some c).

(** A computation that makes calls on the socket, none of them [close]. *)
Definition never_closes {A} (m : io A) : Prop :=
  ∀ t, ∃ added, (m t).2 = t ++ added ∧ Close ∉ added.

(** ** Code points and pieces of text *)

(** The code points a [str] can hold: U+0000..U+10FFFF. *)
Definition is_code_point (c : N) : Prop := (c ≤ 0x10FFFF)%N.

(** [p] is a contiguous piece of [s]. *)
Definition substring {A} (p s : list A) : Prop :=
  ∃ before after, s = before ++ p ++ after.

(** What [urlsplit] leaves of a URL once the fragment and the query are cut
    off: pieces of the URL, the path without [#] and [?], the query without
    [#]. *)
Definition cut_at_marks (url path query : str) : Prop :=
  substring path url ∧ substring query url
  ∧ ("#"%chr ∉ path) ∧ ("?"%chr ∉ path) ∧ ("#"%chr ∉ query).

(** ** The parts of handle_client *)

(** The guarded block of [handle_client], its [except] clauses and its
    [finally] clause. *)
Definition request_block (env : environment) (client_socket : socket)
    (address : str * Z) : io unit :=
  let out := env_console env in
  pure (print out 493 (connected_text address));;
  request_data ← recv client_socket BUFFER_SIZE;
  if bool_decide (request_data = []) then mret ()
  else
    request_str ← pure (decode strict request_data);
    pure (print out 502 (request_heading address));;
    pure (print out 503 (Returns rule));;
    pure (print out 504 (Returns request_str));;
    pure (print out 505 (Returns rule));;
    '(method, path, params) ←
      pure (parse_http_request (env_lib env) request_str);
    '(status_code, status_text, response_body) ←
      pure (dispatch env path params);
    response ←
      pure (create_http_response status_code status_text response_body);
    sendall client_socket response;;
    pure (print out 547 (answered_text address)).

Definition except_clauses (env : environment) (client_socket : socket)
    (address : str * Z) (e : exn) : option (io unit) :=
  let out := env_console env in
  match e with
  | UnicodeDecodeError =>
      Some (pure (print out 550 (undecodable_text address));;
            error_response ←
              pure (create_http_response 400
                      (ascii_lit "Bad Request") bad_request_body);
            sendall client_socket error_response)
  | _ =>
      except_Exception
        (pure (print out 560 (failure_text out address e));;
         error_response ←
           pure (create_http_response 500
                   (ascii_lit "Internal Server Error")
                   internal_error_body);
         try_except (sendall client_socket error_response)
                    (except_Exception (mret ())))
        e
  end.

Definition finally_clause (env : environment) (client_socket : socket)
    (address : str * Z) : io unit :=
  try_except
    (close client_socket;;
     pure (print (env_console env) 576 (disconnected_text address)))
    (except_Exception (mret ())).

(** The log lines the handler prints before it parses a request are
    printed: the [print] statements of the lines 493 and 502 to 505
    return. *)
Definition request_logged (env : environment) (address : str * Z)
    (request : str) : Prop :=
  print (env_console env) 493 (connected_text address) = Returns ()
  ∧ print (env_console env) 502 (request_heading address) = Returns ()
  ∧ print (env_console env) 503 (Returns rule) = Returns ()
  ∧ print (env_console env) 504 (Returns request) = Returns ()
  ∧ print (env_console env) 505 (Returns rule) = Returns ().

(** The [print] after the write of the response (line 547) returns. *)
Definition answer_logged (env : environment) (address : str * Z) : Prop :=
  print (env_console env) 547 (answered_text address) = Returns ().

(** The [print] that opens the [except] clause for the exception [e]. *)
Definition failure_print (env : environment) (address : str * Z) (e : exn)
    : outcome unit :=
  match e with
  | UnicodeDecodeError =>
      print (env_console env) 550 (undecodable_text address)
  | _ => print (env_console env) 560
           (failure_text (env_console env) address e)
  end.

(** The response the [except] clause for the exception [e] writes: none
    for an exception outside [Exception], which no clause catches. *)
Definition error_response (e : exn) : option bytes :=
  match e with
  | UnicodeDecodeError => Some bad_request_response
  | NotAnException => None
  | _ => Some internal_error_response
  end.

(** The [sendall] of the [except] clause for [e], as it shows in the
    trace: the clause writes when its [print] has returned. *)
Definition recovery_of (env : environment) (address : str * Z) (e : exn)
    : list event :=
  match failure_print env address e with
  | Returns _ =>
      from_option (λ response, [Sendall response]) [] (error_response e)
  | Raises _ => []
  end.

Definition search_response : bytes :=
  wire_format 200 (bytes_lit "OK") (encoded get_search_movies).

Definition not_found_response (path : str) : bytes :=
  wire_format 404 (bytes_lit "Not Found") (encoded (not_found_body path)).

(** The paths the dispatch of [handle_client] knows. *)
Definition routes : list str :=
  [ascii_lit "/"; []; ascii_lit "/movies"; ascii_lit "/exchange";
   ascii_lit "/movie"].

(** The content handler the dispatch calls for [path], if it calls one. *)
Definition content_handler (env : environment) (path : str)
    : option (dict → outcome str) :=
  if bool_decide (path = ascii_lit "/exchange")
  then Some (handle_exchange_request env)
  else if bool_decide (path = ascii_lit "/movie")
  then Some (handle_movie_request env)
  else None.

(** ** The text of a response *)

(** The status line, the three header lines, the blank line and the
    body, before they are encoded. *)
Definition response_text (status_code : Z) (status_text body : str) : str :=
  ascii_lit "HTTP/1.1 " ++ decimal status_code ++ ascii_lit " "
    ++ status_text ++ CRLF
  ++ ascii_lit "Content-Type: text/html; charset=utf-8" ++ CRLF
  ++ ascii_lit "Content-Length: "
    ++ decimal (Z.of_nat (length (encoded body))) ++ CRLF
  ++ ascii_lit "Connection: close" ++ CRLF
  ++ CRLF
  ++ body.

(** The lines of the head of a response. *)
Definition response_head (status_code : Z) (text_bytes body_bytes : bytes)
    : list bytes :=
  [bytes_lit "HTTP/1.1 " ++ decimal_bytes status_code ++ bytes_lit " "
     ++ text_bytes;
   bytes_lit "Content-Type: text/html; charset=utf-8";
   bytes_lit "Content-Length: "
     ++ decimal_bytes (Z.of_nat (length body_bytes));
   bytes_lit "Connection: close"].


(** ** The content handlers *)

(** The characters of a quoted text: the unreserved ones, [/] and [%]. *)
Definition quoted_characters : str :=
  ascii_lit
    "ABCDEFGHIJKLMNOPQRSTUVWXYZabcdefghijklmnopqrstuvwxyz0123456789_.-~/%".

(** The bytes of the quoted text of [bs]. *)
Definition quoted_bytes (safe bs : bytes) : bytes :=
  concat ((λ b, if bool_decide (b ∈ _ALWAYS_SAFE_BYTES ++ safe) then [b]
                else ["%"%byte; byte_of_N (hex_digit (Byte.to_N b / 16));
                      byte_of_N (hex_digit (Byte.to_N b mod 16))]) <$> bs).

(** What [unquote_to_bytes] makes of the parts between the [%] signs. *)
Definition unescaped (bits : list bytes) : bytes :=
  hd [] bits
  ++ concat ((λ item,
                match _hextobyte (slice_to item 2) with
                | Some b => b :: slice_from item 2
                | None => "%"%byte :: item
                end) <$> tl bits).

(** ** Form encoding

    The encoding [application/x-www-form-urlencoded] of a text, as the
    standard defines it, against which the decoding of the parser is
    checked. *)

(** [c] is the hexadecimal digit, of either case, of the value [v]. *)
Definition hexadecimal (c v : N) : Prop :=
  ascii_lit "0123456789ABCDEF" !! N.to_nat v = Some c
  ∨ ascii_lit "0123456789abcdef" !! N.to_nat v = Some c.

(** The ways to write a byte in a form-encoded text: as [%XY], where [X]
    and [Y] are the hexadecimal digits of its value; as [+], for a space;
    as itself, for an ASCII byte other than [%] and [+]. *)
Inductive form_encoded_byte : Byte.byte → str → Prop :=
| byte_escaped (b : Byte.byte) (X Y : N) :
    hexadecimal X (Byte.to_N b / 16) → hexadecimal Y (Byte.to_N b mod 16) →
    form_encoded_byte b ["%"%chr; X; Y]
| space_as_plus : form_encoded_byte " "%byte ["+"%chr]
| byte_literal (b : Byte.byte) :
    (Byte.to_N b < 0x80)%N → b ≠ "%"%byte → b ≠ "+"%byte →
    form_encoded_byte b [Byte.to_N b].

(** [raw] is a form encoding of the text [s]: the UTF-8 bytes of [s], each
    written in one of these ways. *)
Definition form_encoding (raw s : str) : Prop :=
  Forall is_code_point s
  ∧ ∃ bs pieces,
      encode s = Returns bs
      ∧ Forall2 form_encoded_byte bs pieces
      ∧ raw = concat pieces.

(** The URL [handle_movie_request] reads for a quoted title, and the one
    [handle_exchange_request] reads. *)
Definition omdb_url (encoded_title : str) : str :=
  ascii_lit "http://www.omdbapi.com/?apikey=" ++ OMDB_API_KEY
    ++ ascii_lit "&t=" ++ encoded_title.

Definition exchange_url : str :=
  ascii_lit "https://api.exchangerate-api.com/v4/latest/USD".

(** The title [handle_movie_request] works on, and the currency
    [handle_exchange_request] works on before it is put in upper case: the
    first value of the parameter, or the default. *)
Definition requested_title (params : dict) : option str :=
  head (default [lit "Неизвестно"] (params !! ascii_lit "title")).

Definition requested_currency (params : dict) : option str :=
  head (default [ascii_lit "USD"] (params !! ascii_lit "currency")).

(** Surroundings whose content handlers are the two handlers of the
    source, over the platform [pf]. *)
Definition serves_content (env : environment) (pf : platform) : Prop :=
  handle_exchange_request env
  = content.handle_exchange_request (env_console env) pf
  ∧ handle_movie_request env
    = content.handle_movie_request (env_console env) pf.

(** The [print] that opens the [except] clause of a content handler for
    a service that cannot be reached (an [HTTPError] or a [URLError]; line
    158 in [handle_exchange_request], 325 in [handle_movie_request])
    returns. *)
Definition exchange_unreachable_logged (out : console) : Prop :=
  ∀ e, e = HTTPError ∨ e = URLError →
       content.log_failure out 158
         (lit "[Ошибка API] Ошибка при получении курсов валют: ") e
       = Returns ().

Definition movie_unreachable_logged (out : console) : Prop :=
  ∀ e, e = HTTPError ∨ e = URLError →
       content.log_failure out 325
         (lit "[Ошибка API] Ошибка при получении информации о фильме: ") e
       = Returns ().

(** Every [print] of the [except] clauses of the content handlers
    returns, whatever its text. *)
Definition failures_logged (out : console) : Prop :=
  ∀ line text,
    line ∈ [158; 175; 191; 325; 342; 358]%N →
    print_result out line text = Returns ().

(** Two platforms that differ in what the network answers only. *)
Definition same_library (pf1 pf2 : platform) : Prop :=
  json_loads pf1 = json_loads pf2 ∧ repr pf1 = repr pf2
  ∧ to_upper_full pf1 = to_upper_full pf2
  ∧ divide pf1 = divide pf2 ∧ fixed pf1 = fixed pf2.

(** Two platforms that differ only in what a division by zero, or of
    values that are no numbers, does. *)
Definition same_but_division_by_zero (pf1 pf2 : platform) : Prop :=
  urlopen_read pf1 = urlopen_read pf2
  ∧ json_loads pf1 = json_loads pf2 ∧ repr pf1 = repr pf2
  ∧ to_upper_full pf1 = to_upper_full pf2 ∧ fixed pf1 = fixed pf2
  ∧ ∀ a b, is_number a = true → is_number b = true →
           differs_from_zero b = true → divide pf1 a b = divide pf2 a b.

(** No URL can be read: [urlopen] raises an [HTTPError] or a
    [URLError]. *)
Definition unreachable (pf : platform) : Prop :=
  ∀ url timeout,
    urlopen_read pf url timeout = Failed HTTPError
    ∨ urlopen_read pf url timeout = Failed URLError.

(** No exception outside [Exception] (a [KeyboardInterrupt], say) arrives
    during a call of the platform. *)
Definition uninterrupted (pf : platform) : Prop :=
  ∀ e,
    ((∃ url timeout, urlopen_read pf url timeout = Failed (Builtin e))
     ∨ (∃ text, json_loads pf text = Failed (Builtin e))
     ∨ (∃ a b, divide pf a b = Failed (Builtin e))
     ∨ (∃ digits a, fixed pf digits a = Failed (Builtin e))
     ∨ (∃ a, repr pf a = Failed (Builtin e))) →
    is_Exception e = true.

(** What a step of a [try] block raises, when it is a built-in exception,
    is of class [Exception]. *)
Definition ordinary {A} (x : attempt A) : Prop :=
  ∀ e, x = Failed (Builtin e) → is_Exception e = true.

(** The response 200 OK with the page [body]. *)
Definition page_response (body : str) : bytes :=
  wire_format 200 (bytes_lit "OK") (encoded body).

(** A platform without a network. *)
Definition offline : platform :=
  {| urlopen_read := λ _ _, Failed URLError;
     json_loads := λ _, Failed JSONDecodeError;
     repr := λ _, Done [];
     to_upper_full := λ c, [c];
     divide := λ _ _, Failed (Builtin OtherException);
     fixed := λ _ _, Failed (Builtin ValueError) |}.

(** A platform whose network answers as the one of [offline] for the
    exchange service, and otherwise for the other URLs. *)
Definition other_network : platform :=
  {| urlopen_read := λ url _,
       if bool_decide (url = exchange_url) then Failed URLError
       else Done [];
     json_loads := λ _, Failed JSONDecodeError;
     repr := λ _, Done [];
     to_upper_full := λ c, [c];
     divide := λ _ _, Failed (Builtin OtherException);
     fixed := λ _ _, Failed (Builtin ValueError) |}.

(** A platform whose exchange service lists the euro at the rate zero,
    with the division [division]. *)
Definition zero_rate (division : json → json → attempt json) : platform :=
  {| urlopen_read := λ _ _, Done [];
     json_loads := λ _,
       Done (JDict {[ ascii_lit "rates" :=
                        JDict {[ ascii_lit "EUR" := JInt 0;
                                 ascii_lit "RUB" := JInt 90 ]} ]});
     repr := λ _, Done [];
     to_upper_full := λ c, [c];
     divide := division;
     fixed := λ _ _, Done (ascii_lit "0.00") |}.

(** The server over the platform without a network. *)
Definition offline_server : environment :=
  {| env_lib := no_addresses;
     handle_exchange_request :=
       content.handle_exchange_request quiet_console offline;
     handle_movie_request :=
       content.handle_movie_request quiet_console offline;
     env_console := quiet_console |}.

(** ** main *)

(** The listener is set up: the four calls before the loop and the three
    [print] statements after them raise nothing. *)
Definition set_up (l : listener) : Prop :=
  socket_raises l = None ∧ setsockopt_raises l = None
  ∧ bind_raises l = None ∧ listen_raises l = None
  ∧ announce l = None.

(** The calls of the [k]-th turn: the [accept], and the start of a thread
    for the connection accepted, if one is. *)
Definition turn (l : listener) (k : nat) : list server_event :=
  match accept_result l k with
  | inl _ => [Accept]
  | inr (client_socket, address) => [Accept; Start client_socket address]
  end.

(** The exception the [k]-th turn raises, if it raises one: that of the
    [accept], of the start of the thread, or of the [print] after it. *)
Definition turn_raises (l : listener) (k : nat) : option signal :=
  match accept_result l k with
  | inl s => Some s
  | inr (_, address) =>
      match start_raises l k with
      | Some s => Some s
      | None => announce_thread l k address
      end
  end.

(** The calls of the turns [0 .. n-1]. *)
Definition turns (l : listener) (n : nat) : list server_event :=
  flat_map (turn l) (seq 0 n).

(** The calls before the loop. *)
Definition setup_calls : list server_event :=
  [Socket; Setsockopt; Bind HOST PORT; Listen 5].

(** An exception that one of the [except] clauses of [main] catches. *)
Definition caught (s : signal) : bool :=
  match s with
  | KeyboardInterrupt => true
  | Exn e => is_Exception e
  end.

(** The [print] statements of the [except] clauses and of the [finally]
    clause of [main] (lines 617, 619 and 624) raise nothing, whatever
    their text. *)
Definition ending_logged (l : listener) : Prop :=
  ∀ line text, line ∈ [617; 619; 624]%N → print_raises l line text = None.

(** A listener that accepts two connections and is then interrupted from
    the keyboard. *)
Definition two_connections : listener :=
  {| socket_raises := None;
     setsockopt_raises := None;
     bind_raises := None;
     listen_raises := None;
     accept_result := λ k,
       if (k <? 2)%nat
       then inr (socket_with [], (ascii_lit "127.0.0.1", 50000%Z))
       else inl KeyboardInterrupt;
     start_raises := λ _, None;
     close_raises := None;
     print_raises := λ _ _, None;
     thread_print_raises := λ _ _, None;
     error_text := λ _, [] |}.

(** * Properties *)

(** ** The codec *)

Lemma fmap_Returns {A B} (f : A → B) (x : outcome A) (b : B) :
  f <$> x = Returns b ↔ ∃ a, x = Returns a ∧ b = f a.
Proof.
  destruct x as [a|e]; simpl; split.
  - intros [= <-]. by exists a.
  - by intros (? & [= <-] & ->).
  - done.
  - by intros (? & ? & _).
Qed.

Lemma encode_app (s1 s2 : str) :
  encode (s1 ++ s2) = b1 ← encode s1; b2 ← encode s2; Returns (b1 ++ b2).
Proof.
  induction s1 as [|c s1 IH]; simpl.
  - by destruct (encode s2).
  - destruct (utf8_encode_char c) as [bs|]; [|done].
    rewrite IH. destruct (encode s1) as [b1|]; simpl; [|done].
    destruct (encode s2) as [b2|]; simpl; [|done].
    by rewrite (assoc_L (++)).
Qed.

Lemma encode_app_Returns (s1 s2 : str) (b1 b2 : bytes) :
  encode s1 = Returns b1 → encode s2 = Returns b2 →
  encode (s1 ++ s2) = Returns (b1 ++ b2).
Proof. intros H1 H2. by rewrite encode_app, H1, H2. Qed.

Lemma byte_of_to_N (b : Byte.byte) : byte_of_N (Byte.to_N b) = b.
Proof. unfold byte_of_N. by rewrite Byte.of_to_N. Qed.

(** ASCII text encodes to itself, byte for byte. *)
Lemma encode_ascii (bs : bytes) :
  Forall (λ b, (Byte.to_N b < 0x80)%N) bs →
  encode (Byte.to_N <$> bs) = Returns bs.
Proof.
  induction 1 as [|b bs Hb _ IH]; [done|].
  rewrite fmap_cons. cbn [encode]. unfold utf8_encode_char.
  apply N.ltb_lt in Hb. rewrite Hb, IH. simpl.
  by rewrite byte_of_to_N.
Qed.

Lemma utf8_encode_char_None (c : N) :
  utf8_encode_char c = None ↔ is_surrogate c.
Proof.
  unfold utf8_encode_char, is_surrogate.
  destruct (N.ltb_spec c 0x80); [split; [done|lia]|].
  destruct (N.ltb_spec c 0x800); [split; [done|lia]|].
  destruct (N.leb_spec 0xD800 c); simpl.
  - destruct (N.leb_spec c 0xDFFF); [done|].
    destruct (N.ltb_spec c 0x10000); split; (done || lia).
  - destruct (N.ltb_spec c 0x10000); split; (done || lia).
Qed.

Lemma encode_Returns_iff (s : str) :
  (∃ b, encode s = Returns b) ↔ Forall (λ c, ¬ is_surrogate c) s.
Proof.
  induction s as [|c s IH]; simpl.
  - split; [constructor | by exists []].
  - rewrite Forall_cons, <- IH, <- utf8_encode_char_None.
    destruct (utf8_encode_char c) as [bs|]; split.
    + intros [b Hb]. apply fmap_Returns in Hb as (b' & Hb' & _). eauto.
    + intros [_ [b Hb]]. rewrite Hb. by eexists.
    + by intros [b Hb].
    + by intros [[] _].
Qed.

Lemma string_of_uint_ascii (d : Decimal.uint) :
  ascii_bytes (String.list_byte_of_string (NilEmpty.string_of_uint d)).
Proof.
  induction d; simpl; try (constructor; [by vm_compute|done]).
  constructor.
Qed.

Lemma decimal_bytes_ascii (n : Z) : ascii_bytes (decimal_bytes n).
Proof.
  unfold decimal_bytes, NilZero.string_of_int, NilZero.string_of_uint.
  destruct (Z.to_int n) as [d|d]; simpl.
  - destruct d; try apply (string_of_uint_ascii (_ d));
      repeat (constructor; [by vm_compute|]); constructor.
  - constructor; [by vm_compute|].
    destruct d; try apply (string_of_uint_ascii (_ d));
      repeat (constructor; [by vm_compute|]); constructor.
Qed.

Lemma encode_decimal (n : Z) : encode (decimal n) = Returns (decimal_bytes n).
Proof. apply encode_ascii, decimal_bytes_ascii. Qed.

Lemma encode_str_of_len (n : nat) :
  encode (str_of_len n) = Returns (decimal_bytes (Z.of_nat n)).
Proof. apply encode_decimal. Qed.

Lemma str_of_int_Returns (n : Z) :
  within_str_digits n → str_of_int n = Returns (decimal n).
Proof.
  unfold within_str_digits, str_of_int. intros Hn.
  by destruct (Z.ltb_spec int_max_str_digits
                 (Z.of_nat (length (decimal (Z.abs n))))); [lia|].
Qed.

Lemma str_of_int_Raises (n : Z) :
  ¬ within_str_digits n → str_of_int n = Raises ValueError.
Proof.
  unfold within_str_digits, str_of_int. intros Hn.
  by destruct (Z.ltb_spec int_max_str_digits
                 (Z.of_nat (length (decimal (Z.abs n))))); [|lia].
Qed.

Lemma str_of_int_cases (n : Z) :
  (within_str_digits n ∧ str_of_int n = Returns (decimal n))
  ∨ (¬ within_str_digits n ∧ str_of_int n = Raises ValueError).
Proof.
  destruct (decide (within_str_digits n)) as [Hn|Hn].
  - left. by split; [|apply str_of_int_Returns].
  - right. by split; [|apply str_of_int_Raises].
Qed.

Lemma encode_Raises (s : str) (e : exn) :
  encode s = Raises e → e = UnicodeEncodeError.
Proof.
  induction s as [|c s IH]; simpl; [done|].
  destruct (utf8_encode_char c); [|by intros [= <-]].
  destruct (encode s); simpl; [done|]. intros [= <-]. by apply IH.
Qed.

Lemma encoded_Returns (s : str) : encodable s → encode s = Returns (encoded s).
Proof.
  intros [b Hb]%encode_Returns_iff. unfold encoded. by rewrite Hb.
Qed.

Lemma encode_unencodable (s : str) :
  ¬ encodable s → encode s = Raises UnicodeEncodeError.
Proof.
  intros Hs. destruct (encode s) as [b|e] eqn:Hencode.
  - destruct Hs. apply encode_Returns_iff. by exists b.
  - by rewrite (encode_Raises _ _ Hencode).
Qed.

(** ** create_http_response *)

(** The bytes of the headers, for a body of [n] bytes. *)
Lemma encode_headers (status_code : Z) (status_text : str)
    (text_bytes : bytes) (n : nat) :
  encode status_text = Returns text_bytes →
  encode (ascii_lit "HTTP/1.1 " ++ decimal status_code ++ ascii_lit " "
            ++ status_text ++ CRLF
          ++ ascii_lit "Content-Type: text/html; charset=utf-8" ++ CRLF
          ++ ascii_lit "Content-Length: " ++ str_of_len n ++ CRLF
          ++ ascii_lit "Connection: close" ++ CRLF
          ++ CRLF)
  = Returns (bytes_lit "HTTP/1.1 " ++ decimal_bytes status_code
             ++ bytes_lit " " ++ text_bytes ++ CRLF_bytes
             ++ bytes_lit "Content-Type: text/html; charset=utf-8"
             ++ CRLF_bytes
             ++ bytes_lit "Content-Length: "
             ++ decimal_bytes (Z.of_nat n) ++ CRLF_bytes
             ++ bytes_lit "Connection: close" ++ CRLF_bytes ++ CRLF_bytes).
Proof.
  intros Htext.
  repeat apply encode_app_Returns;
    first [ assumption | apply encode_decimal | apply encode_str_of_len
          | reflexivity ].
Qed.

(** The response for a status code within the limit and a text and a body
    that can be encoded. *)
Lemma create_http_response_Returns_wire_format
    (status_code : Z) (status_text body : str) (text_bytes body_bytes : bytes) :
  within_str_digits status_code →
  encode status_text = Returns text_bytes →
  encode body = Returns body_bytes →
  create_http_response status_code status_text body
  = Returns (wire_format status_code text_bytes body_bytes).
Proof.
  intros Hcode Htext Hbody. unfold create_http_response, wire_format.
  rewrite (str_of_int_Returns _ Hcode), Hbody. cbn [mbind outcome_bind].
  rewrite (encode_headers status_code status_text text_bytes _ Htext).
  cbn [mbind outcome_bind]. f_equal. by rewrite <- !(assoc_L (++)).
Qed.

(** C3, as the code has it: for a status code of at most 4300 digits, and
    a status text and a body that UTF-8 can encode (no surrogate code
    point), the builder returns exactly the bytes of
    [HTTP/1.1 <code> <text>\r\nContent-Type: text/html;
    charset=utf-8\r\nContent-Length: <n>\r\nConnection: close\r\n\r\n<body>],
    where [<n>] is the number of bytes of the encoded body.  For a status
    code of more digits the builder raises [ValueError], and otherwise,
    for a status text or a body that holds a surrogate,
    [UnicodeEncodeError]. *)
Theorem create_http_response_wire_format
    (status_code : Z) (status_text body : str) :
  (within_str_digits status_code →
   encodable status_text → encodable body →
   create_http_response status_code status_text body
   = Returns (wire_format status_code (encoded status_text) (encoded body)))
  ∧ (¬ within_str_digits status_code →
     create_http_response status_code status_text body = Raises ValueError)
  ∧ (within_str_digits status_code →
     ¬ (encodable status_text ∧ encodable body) →
     create_http_response status_code status_text body
     = Raises UnicodeEncodeError).
Proof.
  split; [|split].
  - intros Hcode Htext Hbody.
    by apply create_http_response_Returns_wire_format;
      [|apply encoded_Returns..].
  - intros Hcode. unfold create_http_response.
    by rewrite (str_of_int_Raises _ Hcode).
  - intros Hcode Hnot. unfold create_http_response.
    rewrite (str_of_int_Returns _ Hcode). cbn [mbind outcome_bind].
    destruct (encode body) as [body_bytes|e] eqn:Hbody; last first.
    { by rewrite (encode_Raises _ _ Hbody). }
    cbn [mbind outcome_bind].
    assert (¬ encodable status_text) as Htext.
    { intros Htext. apply Hnot. split; [done|].
      apply encode_Returns_iff. by eexists. }
    apply encode_unencodable in Htext.
    rewrite (encode_app (ascii_lit "HTTP/1.1 ")).
    change (encode (ascii_lit "HTTP/1.1 "))
      with (Returns (bytes_lit "HTTP/1.1 ") : outcome bytes).
    cbn [mbind outcome_bind].
    rewrite (encode_app (decimal status_code)), encode_decimal.
    cbn [mbind outcome_bind].
    rewrite (encode_app (ascii_lit " ")).
    change (encode (ascii_lit " "))
      with (Returns (bytes_lit " ") : outcome bytes).
    cbn [mbind outcome_bind].
    by rewrite (encode_app status_text), Htext.
Qed.

(** A two-character body of three bytes: the header counts the bytes. *)
Lemma create_http_response_wire_format_witness :
  create_http_response 404 (ascii_lit "Not Found") (lit "Жa")
  = Returns (bytes_lit "HTTP/1.1 404 Not Found" ++ CRLF_bytes
             ++ bytes_lit "Content-Type: text/html; charset=utf-8"
             ++ CRLF_bytes
             ++ bytes_lit "Content-Length: 3" ++ CRLF_bytes
             ++ bytes_lit "Connection: close" ++ CRLF_bytes ++ CRLF_bytes
             ++ bytes_lit "Жa")
  ∧ length (lit "Жa") = 2%nat.
Proof.
  split; [|reflexivity].
  apply (create_http_response_wire_format 404 (ascii_lit "Not Found")
           (lit "Жa")).
  - by vm_compute.
  - apply encode_Returns_iff. eexists. reflexivity.
  - apply encode_Returns_iff. eexists. reflexivity.
Defined.

(** C3 as stated fails for a body that holds a lone surrogate, which a
    [str] may: [encode] raises and no response is built. *)
Lemma create_http_response_surrogate_body :
  create_http_response 200 (ascii_lit "OK") [0xD800%N]
  = Raises UnicodeEncodeError.
Proof. reflexivity. Qed.

(** It fails for a status code of 4301 digits as well. *)
Example create_http_response_long_status_code :
  create_http_response (10 ^ 4300) (ascii_lit "OK") []
  = Raises ValueError.
Proof. by vm_compute. Qed.

(** ** String methods *)

Section sequences_facts.
Context {A : Type} `{EqDecision A}.
Implicit Types (c : A) (s a b : list A).

Lemma contains_true c s : contains c s = true ↔ c ∈ s.
Proof. unfold contains. by rewrite bool_decide_eq_true. Qed.

Lemma contains_false c s : contains c s = false ↔ c ∉ s.
Proof. unfold contains. by rewrite bool_decide_eq_false. Qed.

Lemma find_absent c s : c ∉ s → find c s = (-1)%Z.
Proof.
  induction s as [|x s IH]; simpl; [done|].
  rewrite not_elem_of_cons. intros [Hx Hs].
  rewrite decide_False, IH by done. done.
Qed.

Lemma rfind_absent c s : c ∉ s → rfind c s = (-1)%Z.
Proof.
  induction s as [|x s IH]; simpl; [done|].
  rewrite not_elem_of_cons. intros [Hx Hs].
  rewrite IH by done. simpl. by rewrite decide_False.
Qed.

Lemma rfind_app c a b : c ∉ b → rfind c (a ++ c :: b) = Z.of_nat (length a).
Proof.
  intros Hb. induction a as [|x a IH]; simpl.
  - rewrite rfind_absent by done. simpl. by rewrite decide_True.
  - rewrite IH. destruct (Z.ltb_spec (Z.of_nat (length a)) 0); lia.
Qed.

Lemma slice_index_nonneg s (i : Z) :
  (0 ≤ i)%Z → slice_index s i = Z.to_nat i `min` length s.
Proof.
  intros Hi. unfold slice_index.
  destruct (Z.ltb_spec i 0); lia.
Qed.

Lemma slice_to_nonneg s (i : Z) :
  (0 ≤ i)%Z → slice_to s i = take (Z.to_nat i) s.
Proof.
  intros Hi. unfold slice_to. rewrite slice_index_nonneg by done.
  destruct (Nat.min_spec (Z.to_nat i) (length s)) as [[? ->]|[? ->]];
    [done|]. by rewrite !take_ge by lia.
Qed.

Lemma remove_char_absent c s : c ∉ s → remove_char c s = s.
Proof.
  unfold remove_char. induction s as [|x s IH]; [done|].
  rewrite not_elem_of_cons. intros [Hx Hs].
  rewrite filter_cons_True by done. by rewrite IH.
Qed.

Lemma split_no_budget c s : split c (Some 0%nat) s = [s].
Proof.
  induction s as [|x s IH]; simpl; [done|].
  rewrite bool_decide_eq_false_2 by (intros [? ?]; congruence). by rewrite IH.
Qed.

Lemma split_absent c m s : c ∉ s → split c m s = [s].
Proof.
  induction s as [|x s IH]; simpl; [done|].
  rewrite not_elem_of_cons. intros [Hx Hs].
  rewrite bool_decide_eq_false_2 by (intros [? ?]; congruence). by rewrite IH.
Qed.

(** [s.split(c, 1)] cuts at the first [c]. *)
Lemma split_once c a b :
  c ∉ a → split c (Some 1%nat) (a ++ c :: b) = [a; b].
Proof.
  induction a as [|x a IH]; simpl.
  - intros _. rewrite bool_decide_eq_true_2 by done. simpl.
    by rewrite split_no_budget.
  - rewrite not_elem_of_cons. intros [Hx Ha].
    rewrite bool_decide_eq_false_2 by (intros [? ?]; congruence). by rewrite IH.
Qed.

Lemma split_once_present c s :
  c ∈ s → ∃ a b, split c (Some 1%nat) s = [a; b].
Proof.
  intros (a & b & -> & Ha)%list_elem_of_split_l.
  exists a, b. by apply split_once.
Qed.

Lemma split_app c a b :
  c ∉ a → split c None (a ++ c :: b) = a :: split c None b.
Proof.
  induction a as [|x a IH]; simpl.
  - intros _. by rewrite bool_decide_eq_true_2 by done.
  - rewrite not_elem_of_cons. intros [Hx Ha].
    rewrite bool_decide_eq_false_2 by (intros [? ?]; congruence). by rewrite IH.
Qed.

(** Splitting undoes joining when no part holds the separator. *)
Lemma split_join c (parts : list (list A)) :
  parts ≠ [] → Forall (λ p, c ∉ p) parts →
  split c None (join [c] parts) = parts.
Proof.
  intros Hne Hparts. induction Hparts as [|p ps Hp Hps IH]; [done|].
  destruct ps as [|p' ps]; simpl.
  - by apply split_absent.
  - rewrite split_app by done. f_equal. by apply IH.
Qed.

Lemma split_str_from_skip (sep k rest : list A) :
  split_str_from sep (length k) (k ++ rest) = split_str_from sep 0 rest.
Proof. induction k as [|x k IH]; simpl; [by destruct rest|done]. Qed.

(** The text up to the first separator is the first part, when the
    separator's first character does not occur in it. *)
Lemma split_str_first c0 (sep' line rest : list A) :
  c0 ∉ line →
  split_str (c0 :: sep') (line ++ c0 :: sep' ++ rest)
  = line :: split_str (c0 :: sep') rest.
Proof.
  unfold split_str. induction line as [|x line IH]; simpl.
  - intros _. rewrite bool_decide_eq_true_2.
    + by rewrite split_str_from_skip.
    + apply prefix_cons, prefix_app_r. done.
  - rewrite not_elem_of_cons. intros [Hx Hline].
    rewrite bool_decide_eq_false_2.
    + by rewrite IH.
    + intros [k Hk]. simplify_eq/=.
Qed.

Lemma split_str_nonempty (sep s : list A) (n : nat) :
  split_str_from sep n s ≠ [].
Proof.
  revert n. induction s as [|x s IH]; intros n; simpl; [done|].
  destruct n; [|done]. by case_bool_decide.
Qed.
End sequences_facts.

(** ** Tokens *)

Lemma no_whitespace_absent (c : N) (s : str) :
  isspace c = true → no_whitespace s → c ∉ s.
Proof.
  intros Hc Hs Hin. unfold no_whitespace in Hs.
  rewrite Forall_forall in Hs. specialize (Hs c Hin). congruence.
Qed.

Lemma no_whitespace_app (s1 s2 : str) :
  no_whitespace (s1 ++ s2) ↔ no_whitespace s1 ∧ no_whitespace s2.
Proof. unfold no_whitespace. by rewrite Forall_app. Qed.

Lemma no_whitespace_cons (c : N) (s : str) :
  no_whitespace (c :: s) ↔ isspace c = false ∧ no_whitespace s.
Proof. unfold no_whitespace. by rewrite Forall_cons. Qed.

Lemma split_whitespace_token (t : str) (sp : N) (rest : str) :
  token t → isspace sp = true →
  split_whitespace (t ++ sp :: rest) = t :: split_whitespace rest.
Proof.
  intros [Hne Hws] Hsp. induction Hws as [|c t Hc Hws IH]; [done|].
  cbn [app split_whitespace]. rewrite Hc.
  destruct t as [|c' t]; cbn [app].
  - rewrite Hsp. cbn [split_whitespace]. by rewrite Hsp.
  - apply Forall_cons in Hws as Hc'. destruct Hc' as [-> _].
    specialize (IH ltac:(done)). cbn [app] in IH. by rewrite IH.
Qed.

Lemma split_whitespace_last (t : str) :
  token t → split_whitespace t = [t].
Proof.
  intros [Hne Hws]. induction Hws as [|c t Hc Hws IH]; [done|].
  cbn [split_whitespace]. rewrite Hc.
  destruct t as [|c' t]; [done|].
  apply Forall_cons in Hws as Hc'. destruct Hc' as [-> _].
  by rewrite (IH ltac:(done)).
Qed.

(** Every part [s.split()] returns is a token. *)
Lemma split_whitespace_tokens (s : str) : Forall token (split_whitespace s).
Proof.
  induction s as [|c s IH]; [constructor|].
  cbn [split_whitespace]. destruct (isspace c) eqn:Hc; [done|].
  destruct s as [|c' s].
  { repeat constructor; [done|]. by rewrite Hc. }
  destruct (isspace c') eqn:Hc'.
  { constructor; [|done]. split; [done|]. by repeat constructor. }
  destruct (split_whitespace (c' :: s)) as [|t ts]; simpl.
  - repeat constructor; [done|]. by rewrite Hc.
  - apply Forall_cons in IH as [[_ Ht] Hts].
    constructor; [|done]. split; [done|]. by constructor.
Qed.

(** The request line [METHOD TARGET VERSION] has these three parts. *)
Lemma split_whitespace_request_line (method target version : str) :
  token method → token target → token version →
  split_whitespace (method ++ " "%chr :: target ++ " "%chr :: version)
  = [method; target; version].
Proof.
  intros Hm Ht Hv.
  rewrite split_whitespace_token by done.
  rewrite split_whitespace_token by done.
  by rewrite split_whitespace_last.
Qed.

(** ** parse_qs never raises *)

Lemma decode_replace_total (skip : nat) (s : list N) :
  ∃ r, utf8_decode_from replace skip s = Returns r.
Proof.
  revert skip. induction s as [|ch s IH]; intros skip; simpl; [by eexists|].
  destruct skip as [|k]; [|apply IH].
  destruct (utf8_next ch s) as [[c|] n];
    destruct (IH (pred n)) as [r ->]; by eexists.
Qed.

Lemma encode_ascii_total (s : str) :
  Forall (λ c, isascii c = true) s → ∃ b, encode s = Returns b.
Proof.
  intros Hs. apply encode_Returns_iff.
  eapply Forall_impl; [exact Hs|]. intros c Hc [Hlo _].
  apply N.ltb_lt in Hc. lia.
Qed.

Lemma _asciire_split_shape (s : str) :
  ∃ first rest, _asciire_split s = first :: rest ∧ ascii_runs rest.
Proof.
  induction s as [|c s (first & rest & IH & Hrest)];
    [by exists [], []; split; [|constructor]|].
  cbn [_asciire_split]. rewrite IH. destruct (isascii c) eqn:Hc.
  - destruct first as [|x first].
    + destruct Hrest as [|run text rest Hrun Hrest].
      * eexists _, _. split; [done|]. by repeat constructor.
      * eexists _, _. split; [done|]. by repeat constructor.
    + eexists _, _. split; [done|]. by repeat constructor.
  - eexists _, _. by split.
Qed.

Lemma unquote_to_bytes_total (run : str) :
  Forall (λ c, isascii c = true) run → ∃ b, unquote_to_bytes run = Returns b.
Proof.
  intros [b Hb]%encode_ascii_total. unfold unquote_to_bytes.
  case_bool_decide; [by eexists|]. rewrite Hb. cbn [mbind outcome_bind].
  case_bool_decide; by eexists.
Qed.

Lemma unquote_bits_total (bits : list str) :
  ascii_runs bits → ∃ r, unquote_bits bits = Returns r.
Proof.
  induction 1 as [|run text rest Hrun _ [r IH]]; [by eexists|].
  cbn [unquote_bits].
  destruct (unquote_to_bytes_total run Hrun) as [b ->].
  cbn [mbind outcome_bind]. unfold decode.
  destruct (decode_replace_total 0 (Byte.to_N <$> b)) as [d ->].
  rewrite IH. by eexists.
Qed.

Lemma unquote_total (s : str) : ∃ r, unquote s = Returns r.
Proof.
  unfold unquote. destruct (negb (contains "%"%chr s)); [by eexists|].
  destruct (_asciire_split_shape s) as (first & rest & -> & Hrest).
  destruct (unquote_bits_total rest Hrest) as [r Hr].
  cbn [tail hd]. rewrite Hr. by eexists.
Qed.

Lemma parse_qsl_field_total (name_value : str) :
  ∃ p, parse_qsl_field name_value = Returns p.
Proof.
  unfold parse_qsl_field. case_bool_decide; [by eexists|].
  destruct (split "="%chr (Some 1%nat) name_value) as [|n [|v [|? ?]]];
    try by eexists.
  case_bool_decide; [|by eexists].
  destruct (unquote_total (replace_char "+"%chr " "%chr n)) as [name ->].
  destruct (unquote_total (replace_char "+"%chr " "%chr v)) as [value ->].
  by eexists.
Qed.

Lemma parse_qsl_fields_total (query_args : list str) :
  ∃ pairs, parse_qsl_fields query_args = Returns pairs.
Proof.
  induction query_args as [|f fs [pairs IH]]; [by eexists|].
  cbn [parse_qsl_fields].
  destruct (parse_qsl_field_total f) as [p ->]. rewrite IH. by eexists.
Qed.

Lemma parse_qs_total (qs : str) : ∃ d, parse_qs qs = Returns d.
Proof.
  unfold parse_qs, parse_qsl.
  destruct (parse_qsl_fields_total
              (if bool_decide (qs ≠ []) then split "&"%chr None qs else []))
    as [pairs ->].
  by eexists.
Qed.

(** ** urlparse on a target in origin form *)

Lemma split_nonempty {A} `{EqDecision A} (c : A) m (s : list A) :
  split c m s ≠ [].
Proof. destruct s; simpl; [done|]. by case_bool_decide. Qed.

Lemma split_present {A} `{EqDecision A} (c : A) (s : list A) :
  c ∈ s → ∃ a b rs, split c None s = a :: b :: rs.
Proof.
  intros (a & b & -> & Ha)%list_elem_of_split_l.
  rewrite split_app by done.
  destruct (split c None b) as [|b' rs] eqn:Hb;
    [by apply split_nonempty in Hb|].
  by eexists _, _, _.
Qed.

Lemma last_segment_spec (p : str) :
  "/"%chr ∈ p → ∃ dirs, p = dirs ++ "/"%chr :: last_segment p
                     ∧ "/"%chr ∉ last_segment p.
Proof.
  unfold last_segment. induction p as [|x p IH]; [by rewrite elem_of_nil|].
  intros Hin. cbn [split]. case_bool_decide as Hx.
  - destruct Hx as [-> _]. cbn [fmap option_fmap option_map].
    destruct (decide ("/"%chr ∈ p)) as [Hp|Hp].
    + destruct (IH Hp) as (dirs & Heq & Hlast).
      destruct (split "/"%chr None p) as [|a rs] eqn:Hs;
        [by apply split_nonempty in Hs|].
      rewrite last_cons_cons. exists ("/"%chr :: dirs). split; [|done].
      simpl. by f_equal.
    + rewrite split_absent by done. exists []. by split.
  - assert ("/"%chr ∈ p) as Hp.
    { apply elem_of_cons in Hin as [<-|]; [|done]. by destruct Hx. }
    destruct (IH Hp) as (dirs & Heq & Hlast).
    destruct (split_present _ _ Hp) as (a & b & rs & Hs).
    rewrite Hs in *. cbn [hd tail]. rewrite !last_cons_cons in *.
    exists (x :: dirs). split; [|done]. simpl. by f_equal.
Qed.

Section urllib_facts.
Variable lib : stdlib.

Lemma urlsplit_plain_target (PATH QUERY : str) :
  no_whitespace PATH → no_whitespace QUERY → plain_target PATH QUERY →
  urlsplit lib (PATH ++ "?"%chr :: QUERY)
  = Returns {| split_scheme := []; split_netloc := []; split_path := PATH;
               split_query := QUERY; split_fragment := [] |}.
Proof.
  intros HP HQ [[p ->] Hnetloc Hquery Hfragment _ Hqfragment].
  cbn [app] in *. unfold urlsplit.
  assert (no_whitespace ("/"%chr :: p ++ "?"%chr :: QUERY)) as Hws.
  { apply no_whitespace_cons in HP as [_ HP].
    apply no_whitespace_cons; split; [done|].
    apply no_whitespace_app; split; [done|].
    by apply no_whitespace_cons. }
  assert (lstrip _WHATWG_C0_CONTROL_OR_SPACE
            ("/"%chr :: p ++ "?"%chr :: QUERY)
          = "/"%chr :: p ++ "?"%chr :: QUERY) as ->.
  { cbn [lstrip].
    by replace (bool_decide ("/"%chr ∈ _WHATWG_C0_CONTROL_OR_SPACE))
      with false by by vm_compute. }
  assert (foldl (λ url b, remove_char b url)
            ("/"%chr :: p ++ "?"%chr :: QUERY) _UNSAFE_URL_BYTES_TO_REMOVE
          = "/"%chr :: p ++ "?"%chr :: QUERY) as ->.
  { cbn [foldl _UNSAFE_URL_BYTES_TO_REMOVE].
    by rewrite (remove_char_absent 9%N), (remove_char_absent 13%N),
      (remove_char_absent 10%N) by by apply no_whitespace_absent. }
  cbn [head from_option].
  replace (is_ascii_alpha "/"%chr) with false by done.
  rewrite andb_false_r. cbn [andb].
  rewrite bool_decide_eq_false_2; last first.
  { rewrite slice_to_nonneg by done. intros Heq. apply Hnetloc.
    change (ascii_lit "//") with ["/"%chr; "/"%chr] in Heq.
    destruct p as [|x p]; [done|]. simplify_eq/=.
    by apply prefix_cons, prefix_cons, prefix_nil. }
  cbn [mbind outcome_bind].
  rewrite (proj2 (contains_false _ _)); last first.
  { rewrite not_elem_of_cons, not_elem_of_app, not_elem_of_cons.
    rewrite not_elem_of_cons in Hfragment.
    destruct Hfragment as [H1 H2]. by repeat split. }
  cbn [mbind outcome_bind].
  rewrite (proj2 (contains_true _ _)) by set_solver.
  rewrite (split_once "?"%chr ("/"%chr :: p) QUERY) by done.
  cbn [unpack2 mbind outcome_bind]. done.
Qed.

Lemma _splitparams_no_params (PATH : str) :
  "/"%chr ∈ PATH → ";"%chr ∉ last_segment PATH → _splitparams PATH = (PATH, []).
Proof.
  intros Hin Hparams.
  destruct (last_segment_spec PATH Hin) as (dirs & Heq & Hlast).
  unfold _splitparams. rewrite (proj2 (contains_true _ _)) by done.
  rewrite Heq at 1 2. rewrite rfind_app by done.
  unfold find_from. rewrite slice_index_nonneg by lia.
  rewrite Nat2Z.id, length_app, Nat.min_l by lia.
  rewrite drop_app_length, find_absent; [done|].
  rewrite not_elem_of_cons. done.
Qed.

Lemma urlparse_plain_target (PATH QUERY : str) :
  no_whitespace PATH → no_whitespace QUERY → plain_target PATH QUERY →
  ∃ r, urlparse lib (PATH ++ "?"%chr :: QUERY) = Returns r
       ∧ path r = PATH ∧ query r = QUERY.
Proof.
  intros HP HQ Hplain. unfold urlparse.
  rewrite urlsplit_plain_target by done.
  cbn [mbind outcome_bind split_path split_scheme split_query].
  destruct Hplain as [[p Hp] _ _ _ Hparams _].
  destruct (_ && _) eqn:Htest.
  - rewrite _splitparams_no_params; [by eexists| |done].
    rewrite Hp. set_solver.
  - by eexists.
Qed.
End urllib_facts.

(** ** parse_http_request on a request line [METHOD PATH?QUERY VERSION] *)

(** Decides a closed decidable proposition by evaluation. *)
Ltac by_evaluation := apply (bool_decide_unpack _); vm_compute; exact I.

Lemma token_not_CR (t : str) : no_whitespace t → CR ∉ t.
Proof. by apply no_whitespace_absent. Qed.

Lemma parse_http_request_plain_target
    (lib : stdlib) (METHOD PATH QUERY VERSION rest : str) :
  token METHOD → no_whitespace PATH → no_whitespace QUERY → token VERSION →
  plain_target PATH QUERY →
  parse_http_request lib (request_with METHOD PATH QUERY VERSION rest)
  = query_params ← parse_qs QUERY; Returns (METHOD, PATH, query_params).
Proof.
  intros HM HP HQ HV Hplain. unfold parse_http_request, request_with.
  change (ascii_lit " ") with [" "%chr]. change (ascii_lit "?") with ["?"%chr].
  assert (token (PATH ++ "?"%chr :: QUERY)) as HT.
  { split; [by destruct PATH|].
    apply no_whitespace_app; split; [done|]. by apply no_whitespace_cons. }
  replace (METHOD ++ [" "%chr] ++ PATH ++ ["?"%chr] ++ QUERY ++ [" "%chr]
           ++ VERSION ++ CRLF ++ rest)
    with ((METHOD ++ " "%chr :: (PATH ++ "?"%chr :: QUERY)
             ++ " "%chr :: VERSION)
          ++ CR :: [LF] ++ rest)
    by (unfold CRLF; by simplify_list_eq).
  unfold CRLF. rewrite split_str_first; last first.
  { destruct HM as [_ HM], HT as [_ HT], HV as [_ HV].
    rewrite not_elem_of_app, not_elem_of_cons, not_elem_of_app,
      not_elem_of_cons.
    by repeat split; try apply token_not_CR. }
  rewrite split_whitespace_request_line by done.
  destruct (urlparse_plain_target lib PATH QUERY) as (r & -> & <- & <-);
    done.
Qed.

(** C4, as the code has it: for every request whose first line is
    [METHOD PATH?QUERY VERSION] with tokens [METHOD] and [VERSION], a [PATH]
    that begins with one [/] (not [//]) and holds no [?], no [#] and no [;]
    in its last segment, and a [QUERY] without [#], the parser returns the
    method token, the path verbatim and [parse_qs] of the query; the
    version token and everything after the first CRLF are ignored. *)
Theorem parse_http_request_request_line
    (lib : stdlib) (METHOD PATH QUERY VERSION rest : str) :
  token METHOD → no_whitespace PATH → no_whitespace QUERY → token VERSION →
  plain_target PATH QUERY →
  ∃ query_params,
    parse_qs QUERY = Returns query_params
    ∧ parse_http_request lib (request_with METHOD PATH QUERY VERSION rest)
      = Returns (METHOD, PATH, query_params).
Proof.
  intros HM HP HQ HV Hplain.
  destruct (parse_qs_total QUERY) as [query_params Hqs].
  exists query_params. split; [done|].
  rewrite parse_http_request_plain_target by done. by rewrite Hqs.
Qed.

(** A [;] in an inner segment and percent escapes in the path stay as they
    are; the query is decoded. *)
Lemma parse_http_request_request_line_witness :
  ∃ query_params,
    parse_qs (ascii_lit "x=%41&y=2") = Returns query_params
    ∧ parse_http_request no_addresses
        (request_with (ascii_lit "GET") (ascii_lit "/a;b/%7Ec")
           (ascii_lit "x=%41&y=2") (ascii_lit "HTTP/1.1")
           (ascii_lit "Host: localhost" ++ CRLF ++ CRLF))
      = Returns (ascii_lit "GET", ascii_lit "/a;b/%7Ec", query_params).
Proof.
  apply (parse_http_request_request_line no_addresses).
  - split; by_evaluation.
  - by_evaluation.
  - by_evaluation.
  - split; by_evaluation.
  - split; by_evaluation.
Defined.

(** C4 as stated fails for a path whose last segment holds a [;]:
    [urlparse] moves what follows it to [params], and the parser returns
    the path cut short. *)
Lemma parse_http_request_params_dropped :
  parse_http_request no_addresses
    (request_with (ascii_lit "GET") (ascii_lit "/a;b") (ascii_lit "x=1")
       (ascii_lit "HTTP/1.1") CRLF)
  = Returns (ascii_lit "GET", ascii_lit "/a",
             {[ ascii_lit "x" := [ascii_lit "1"] ]}).
Proof. by vm_compute. Qed.

(** ** The query mapping *)

Lemma values_of_cons (key : str) (p : str * str) (pairs : list (str * str)) :
  values_of key (p :: pairs)
  = if decide (p.1 = key) then p.2 :: values_of key pairs
    else values_of key pairs.
Proof.
  unfold values_of. destruct (decide (p.1 = key)).
  - by rewrite filter_cons_True.
  - by rewrite filter_cons_False.
Qed.

(** The loop of [parse_qs], key by key. *)
Lemma foldl_parse_qs_add_lookup
    (pairs : list (str * str)) (parsed_result : gmap str (list str))
    (key : str) :
  foldl parse_qs_add parsed_result pairs !! key
  = match parsed_result !! key with
    | Some values => Some (values ++ values_of key pairs)
    | None =>
        match values_of key pairs with [] => None | values => Some values end
    end.
Proof.
  revert parsed_result.
  induction pairs as [|[name value] pairs IH]; intros parsed_result.
  - unfold values_of. rewrite filter_nil. simpl.
    destruct (parsed_result !! key); by rewrite ?app_nil_r.
  - cbn [foldl]. rewrite IH, values_of_cons. unfold parse_qs_add. simpl.
    destruct (decide (name = key)) as [->|Hne].
    + destruct (parsed_result !! key) as [values|];
        rewrite lookup_insert_eq; [by rewrite <- (assoc_L (++))|done].
    + destruct (parsed_result !! name) as [values|];
        by rewrite lookup_insert_ne.
Qed.

Lemma foldl_parse_qs_add_nonempty
    (pairs : list (str * str)) (key : str) (values : list str) :
  foldl parse_qs_add ∅ pairs !! key = Some values → values ≠ [].
Proof.
  rewrite foldl_parse_qs_add_lookup, lookup_empty.
  destruct (values_of key pairs); [done|]. by intros [= <-].
Qed.

Lemma parse_qs_nonempty_values
    (qs : str) (d : gmap str (list str)) (key : str) (values : list str) :
  parse_qs qs = Returns d → d !! key = Some values → values ≠ [].
Proof.
  unfold parse_qs. destruct (parse_qsl qs) as [pairs|]; [|done].
  intros [= <-]. apply foldl_parse_qs_add_nonempty.
Qed.

Lemma parse_qsl_field_kept (name value : str) (d : str * str) :
  well_formed_field (Kept name value) → decodes_to (name, value) d →
  parse_qsl_field (render (Kept name value)) = Returns (Some d).
Proof.
  destruct d as [name' value']. unfold decodes_to, form_decode. simpl.
  intros (_ & Hname & _ & Hvalue) [Hdn Hdv]. unfold parse_qsl_field.
  rewrite bool_decide_eq_false_2 by by destruct name.
  rewrite split_once by done. rewrite bool_decide_eq_true_2 by done.
  by rewrite Hdn, Hdv.
Qed.

Lemma parse_qsl_field_dropped (text : str) :
  well_formed_field (Dropped text) →
  parse_qsl_field (render (Dropped text)) = Returns None.
Proof.
  simpl. intros [_ Htext]. unfold parse_qsl_field.
  case_bool_decide; [done|].
  destruct Htext as [Hno|(name & -> & Hname)].
  - by rewrite split_absent.
  - rewrite split_once by done. by rewrite bool_decide_eq_false_2 by auto.
Qed.

Lemma parse_qsl_fields_rendered
    (fields : list query_field) (decoded : list (str * str)) :
  Forall well_formed_field fields →
  Forall2 decodes_to (kept_pairs fields) decoded →
  parse_qsl_fields (render <$> fields) = Returns decoded.
Proof.
  intros Hfields. revert decoded.
  induction Hfields as [|f fields Hf _ IH]; intros decoded Hdec.
  - by apply Forall2_nil_inv_l in Hdec as ->.
  - rewrite fmap_cons. cbn [parse_qsl_fields].
    destruct f as [name value|text]; cbn [kept_pairs omap list_omap] in Hdec.
    + apply Forall2_cons_inv_l in Hdec as (d & decoded' & Hd & Hdec & ->).
      rewrite (parse_qsl_field_kept name value d) by done.
      cbn [mbind outcome_bind]. by rewrite (IH decoded').
    + rewrite parse_qsl_field_dropped by done.
      cbn [mbind outcome_bind]. by rewrite (IH decoded).
Qed.

Lemma render_no_ampersand (fields : list query_field) :
  Forall well_formed_field fields →
  Forall (λ p, "&"%chr ∉ p) (render <$> fields).
Proof.
  intros Hfields. apply Forall_fmap. eapply Forall_impl; [exact Hfields|].
  intros [name value|text]; simpl.
  - intros (Hname & _ & Hvalue & _).
    rewrite not_elem_of_app, not_elem_of_cons. by repeat split.
  - by intros [? _].
Qed.

(** [parse_qsl] reads the kept fields of a query string back, decoded. *)
Lemma parse_qsl_query_string
    (fields : list query_field) (decoded : list (str * str)) :
  Forall well_formed_field fields →
  Forall2 decodes_to (kept_pairs fields) decoded →
  parse_qsl (query_string fields) = Returns decoded.
Proof.
  intros Hfields Hdec. unfold parse_qsl, query_string.
  case_bool_decide as Hqs.
  - rewrite split_join.
    + by apply parse_qsl_fields_rendered.
    + intros Hnil. apply Hqs. by rewrite Hnil.
    + by apply render_no_ampersand.
  - destruct fields as [|f [|f' fields]]; simpl in Hqs.
    + by apply Forall2_nil_inv_l in Hdec as ->.
    + destruct f as [name value|text]; simpl in *.
      * by destruct name.
      * by apply Forall2_nil_inv_l in Hdec as ->.
    + by destruct (render f).
Qed.

Lemma parse_qs_query_string
    (fields : list query_field) (decoded : list (str * str)) :
  Forall well_formed_field fields →
  Forall2 decodes_to (kept_pairs fields) decoded →
  parse_qs (query_string fields) = Returns (foldl parse_qs_add ∅ decoded).
Proof.
  intros Hfields Hdec. unfold parse_qs.
  by rewrite (parse_qsl_query_string _ decoded).
Qed.

Lemma join_split {A} `{EqDecision A} (c : A) (s : list A) :
  join [c] (split c None s) = s ∧ Forall (λ p, c ∉ p) (split c None s).
Proof.
  induction s as [|x s [IHjoin IHparts]].
  { split; [done|]. repeat constructor. apply not_elem_of_nil. }
  cbn [split]. cbn [fmap option_fmap option_map].
  destruct (split c None s) as [|p ps] eqn:Hsplit;
    [by apply split_nonempty in Hsplit|].
  apply Forall_cons in IHparts as [Hp Hps].
  case_bool_decide as Hx.
  - destruct Hx as [-> _].
    split; [simpl in *; by f_equal|].
    repeat constructor; [apply not_elem_of_nil|done..].
  - cbn [hd tail]. split.
    + destruct ps; simpl in *; by f_equal.
    + constructor; [|done]. rewrite not_elem_of_cons. split; [|done].
      intros <-. by apply Hx.
Qed.

Lemma part_is_field (part : str) :
  "&"%chr ∉ part → ∃ f, render f = part ∧ well_formed_field f.
Proof.
  intros Hamp. destruct (decide ("="%chr ∈ part)) as [Heq|Heq].
  - apply list_elem_of_split_l in Heq as (name & value & -> & Hname).
    apply not_elem_of_app in Hamp as [Hn Hv].
    apply not_elem_of_cons in Hv as [_ Hv].
    destruct value as [|v value].
    + exists (Dropped (name ++ ["="%chr])). split; [done|]. simpl.
      split; [|by eauto]. rewrite not_elem_of_app, not_elem_of_cons.
      repeat split; [done..|apply not_elem_of_nil].
    + by exists (Kept name (v :: value)).
  - exists (Dropped part). simpl. by eauto.
Qed.

Lemma parts_are_fields (parts : list str) :
  Forall (λ p, "&"%chr ∉ p) parts →
  ∃ fields, render <$> fields = parts ∧ Forall well_formed_field fields.
Proof.
  induction 1 as [|part parts Hpart _ (fields & <- & Hfields)].
  - by exists [].
  - destruct (part_is_field part Hpart) as (f & <- & Hf).
    exists (f :: fields). split; [done|by constructor].
Qed.

(** Every query string is made of well-formed fields. *)
Lemma query_string_fields (qs : str) :
  ∃ fields, query_string fields = qs ∧ Forall well_formed_field fields.
Proof.
  destruct (join_split "&"%chr qs) as [Hjoin Hparts].
  destruct (parts_are_fields _ Hparts) as (fields & Hrender & Hfields).
  exists fields. split; [|done]. unfold query_string. by rewrite Hrender.
Qed.

(** Every raw pair has a decoded form. *)
Lemma decodes_to_total (pairs : list (str * str)) :
  ∃ decoded, Forall2 decodes_to pairs decoded.
Proof.
  induction pairs as [|[name value] pairs [decoded IH]]; [by exists []|].
  destruct (unquote_total (replace_char "+"%chr " "%chr name)) as [name' Hname].
  destruct (unquote_total (replace_char "+"%chr " "%chr value))
    as [value' Hvalue].
  exists ((name', value') :: decoded). by constructor.
Qed.

(** C9: in the query mapping the parser returns, every key present maps to
    a sequence with at least one value. *)
Theorem parse_http_request_no_empty_values
    (lib : stdlib) (request method path : str)
    (params : gmap str (list str)) (key : str) (values : list str) :
  parse_http_request lib request = Returns (method, path, params) →
  params !! key = Some values →
  values ≠ [].
Proof.
  unfold parse_http_request.
  destruct (split_str CRLF request) as [|request_line ?];
    [by intros [= <- <- <-]; rewrite lookup_empty|].
  destruct (split_whitespace request_line) as [|? [|full_path ?]];
    try by intros [= <- <- <-]; rewrite lookup_empty.
  destruct (urlparse lib full_path) as [parsed_url|]; [|done].
  cbn [mbind outcome_bind].
  destruct (parse_qs (query parsed_url)) as [d|] eqn:Hqs; [|done].
  intros [= <- <- <-]. by eapply parse_qs_nonempty_values.
Qed.

(** A field with an empty value gives no key: [b=] leaves [b] absent. *)
Lemma parse_http_request_no_empty_values_witness :
  parse_http_request no_addresses
    (request_with (ascii_lit "GET") (ascii_lit "/") (ascii_lit "a=1&b=")
       (ascii_lit "HTTP/1.1") CRLF)
  = Returns (ascii_lit "GET", ascii_lit "/",
             {[ ascii_lit "a" := [ascii_lit "1"] ]})
  ∧ ({[ ascii_lit "a" := [ascii_lit "1"] ]} : gmap str (list str))
      !! ascii_lit "a" = Some [ascii_lit "1"]
  ∧ [ascii_lit "1"] ≠ [].
Proof.
  assert (parse_http_request no_addresses
            (request_with (ascii_lit "GET") (ascii_lit "/")
               (ascii_lit "a=1&b=") (ascii_lit "HTTP/1.1") CRLF)
          = Returns (ascii_lit "GET", ascii_lit "/",
                     {[ ascii_lit "a" := [ascii_lit "1"] ]})) as Hparse
    by by vm_compute.
  assert (({[ ascii_lit "a" := [ascii_lit "1"] ]} : gmap str (list str))
            !! ascii_lit "a" = Some [ascii_lit "1"]) as Hlookup
    by by vm_compute.
  split; [exact Hparse|]. split; [exact Hlookup|].
  exact (parse_http_request_no_empty_values _ _ _ _ _ _ _ Hparse Hlookup).
Defined.

(** ** What the parser can raise *)

Lemma only_ValueError_Returns {A} (a : A) : only_ValueError (Returns a).
Proof. by intros e. Qed.

Lemma only_ValueError_Raises {A} : only_ValueError (A := A) (Raises ValueError).
Proof. by intros e [= <-]. Qed.

Lemma only_ValueError_bind {A B} (x : outcome A) (f : A → outcome B) :
  only_ValueError x → (∀ a, only_ValueError (f a)) →
  only_ValueError (x ≫= f).
Proof.
  intros Hx Hf e. destruct x as [a|e']; simpl; [apply Hf|].
  intros [= ->]. by apply Hx.
Qed.

Lemma only_ValueError_unpack2 {A} (parts : list A) :
  only_ValueError (unpack2 parts).
Proof. intros e. by destruct parts as [|? [|? [|? ?]]]; intros [= <-]. Qed.

Create HintDb raises discriminated.
#[local] Hint Resolve only_ValueError_Returns only_ValueError_Raises
  only_ValueError_unpack2 : raises.

Ltac only_ValueError_step :=
  match goal with
  | |- only_ValueError (_ ≫= _) => apply only_ValueError_bind; [|intros ?]
  | |- only_ValueError (if ?b then _ else _) => destruct b
  | |- only_ValueError (match ?x with (_, _) => _ end) => destruct x
  | |- only_ValueError (match ?x with Some _ => _ | None => _ end) =>
      destruct x
  | |- only_ValueError
         (match ?x with IPv4Address => _ | IPv6Address => _ end) =>
      destruct x
  | |- only_ValueError _ => solve [auto with raises]
  end.

Section raises.
Variable lib : stdlib.

Lemma _checknetloc_only_ValueError (netloc : str) :
  only_ValueError (_checknetloc lib netloc).
Proof. unfold _checknetloc. repeat only_ValueError_step. Qed.

Lemma _check_bracketed_netloc_only_ValueError (netloc : str) :
  only_ValueError (_check_bracketed_netloc lib netloc).
Proof.
  unfold _check_bracketed_netloc, _check_bracketed_host.
  repeat only_ValueError_step.
Qed.

#[local] Hint Resolve _checknetloc_only_ValueError
  _check_bracketed_netloc_only_ValueError : raises.

Lemma urlsplit_only_ValueError (url : str) :
  only_ValueError (urlsplit lib url).
Proof. unfold urlsplit. repeat only_ValueError_step. Qed.

Lemma slice_from_suffix (s : str) (i : Z) : slice_from s i `suffix_of` s.
Proof. unfold slice_from. apply suffix_drop. Qed.

Lemma urlparse_Raises (url : str) (e : exn) :
  urlparse lib url = Raises e → urlsplit lib url = Raises e.
Proof.
  unfold urlparse. destruct (urlsplit lib url) as [r|]; simpl.
  - destruct (_ && _); [destruct (_splitparams _)|]; done.
  - by intros [= ->].
Qed.
End raises.

Lemma lstrip_suffix {A} `{EqDecision A} (chars s : list A) :
  lstrip chars s `suffix_of` s.
Proof.
  induction s as [|c s IH]; simpl; [done|].
  case_bool_decide; [by apply suffix_cons_r|done].
Qed.

(** On a token the cleaning only strips leading control characters. *)
Lemma cleaned_token (t : str) : no_whitespace t → cleaned t `suffix_of` t.
Proof.
  intros Hws. unfold cleaned.
  pose proof (lstrip_suffix _WHATWG_C0_CONTROL_OR_SPACE t) as [k Hk].
  assert (no_whitespace (lstrip _WHATWG_C0_CONTROL_OR_SPACE t)) as Hws'.
  { rewrite Hk in Hws. by apply no_whitespace_app in Hws as [_ ?]. }
  cbn [foldl _UNSAFE_URL_BYTES_TO_REMOVE].
  rewrite (remove_char_absent 9%N), (remove_char_absent 13%N),
    (remove_char_absent 10%N) by by apply no_whitespace_absent.
  by exists k.
Qed.

Section find_facts.
Context {A : Type} `{EqDecision A}.
Implicit Types (c : A) (s a b : list A).

Lemma find_cut c s :
  (0 ≤ find c s)%Z →
  ∃ a b, s = a ++ c :: b ∧ c ∉ a ∧ find c s = Z.of_nat (length a).
Proof.
  induction s as [|x s IH]; simpl; [lia|].
  case_decide as Hx.
  - subst x. intros _. exists [], s. repeat split; [apply not_elem_of_nil].
  - destruct (Z.ltb_spec (find c s) 0) as [Hneg|Hpos]; [lia|]. intros _.
    destruct (IH Hpos) as (a & b & -> & Ha & Hfind).
    exists (x :: a), b. rewrite Hfind. repeat split.
    + rewrite not_elem_of_cons. by split; [congruence|].
    + simpl. lia.
Qed.

Lemma find_negative c s : (find c s < 0)%Z → c ∉ s.
Proof.
  induction s as [|x s IH]; simpl; [intros _; apply not_elem_of_nil|].
  case_decide as Hx; [lia|].
  destruct (Z.ltb_spec (find c s) 0) as [Hneg|Hpos]; [|lia]. intros _.
  rewrite not_elem_of_cons. by split; [congruence|apply IH].
Qed.

Lemma find_from_two c (x y : A) s :
  find_from c (x :: y :: s) 2
  = (if (find c s <? 0)%Z then -1 else find c s + 2)%Z.
Proof.
  unfold find_from. rewrite slice_index_nonneg by done.
  change (Z.to_nat 2) with 2%nat. cbn [length].
  by rewrite Nat.min_l by lia.
Qed.

Lemma forallb_true (f : A → bool) s :
  forallb f s = true ↔ Forall (λ x, f x = true) s.
Proof.
  induction s as [|x s IH]; simpl; [by split; [constructor|]|].
  by rewrite andb_true_iff, IH, Forall_cons.
Qed.

Lemma lstrip_cut (chars : list A) s :
  ∃ k, s = k ++ lstrip chars s ∧ Forall (λ c, c ∈ chars) k.
Proof.
  induction s as [|x s (k & Hk & Hall)]; [by exists []|]. simpl.
  case_bool_decide as Hx.
  - exists (x :: k). split; [simpl; by f_equal|by constructor].
  - by exists [].
Qed.
End find_facts.

(** One step of the search of [_splitnetloc] for the end of the network
    location. *)
Lemma _splitnetloc_step (r seen : str) (delim : Z) (c : N) :
  (∃ d : nat,
     delim = (Z.of_nat d + 2)%Z ∧ (d ≤ length r)%nat
     ∧ (∀ x, x ∈ seen → x ∉ take d r)
     ∧ (d = length r ∨ ∃ x, x ∈ seen ∧ r !! d = Some x)) →
  ∃ d : nat,
    (let wdelim := find_from c ("/"%chr :: "/"%chr :: r) 2 in
     if (0 <=? wdelim)%Z then Z.min delim wdelim else delim)
    = (Z.of_nat d + 2)%Z
    ∧ (d ≤ length r)%nat
    ∧ (∀ x, x ∈ c :: seen → x ∉ take d r)
    ∧ (d = length r ∨ ∃ x, x ∈ c :: seen ∧ r !! d = Some x).
Proof.
  intros (d & -> & Hd & Hseen & Hend). cbv zeta. rewrite find_from_two.
  destruct (Z.ltb_spec (find c r) 0) as [Hneg|Hpos].
  - exists d. cbn. split; [done|]. split; [done|]. split.
    + intros x [->|Hx]%elem_of_cons; [|by apply Hseen].
      intros Hin. apply (find_negative c r Hneg). by eapply subseteq_take.
    + destruct Hend as [->|(x & Hx & Hr)]; [by left|].
      right. exists x. split; [by apply elem_of_cons; right|done].
  - destruct (find_cut c r Hpos) as (a & b & -> & Ha & Hfind).
    rewrite Hfind.
    rewrite (proj2 (Z.leb_le 0 _)) by lia.
    destruct (Nat.le_gt_cases d (length a)) as [Hle|Hgt].
    + exists d. split; [lia|]. split; [done|]. split.
      * intros x [->|Hx]%elem_of_cons; [|by apply Hseen].
        rewrite take_app_le by done.
        intros Hin. apply Ha. by eapply subseteq_take.
      * destruct Hend as [->|(x & Hx & Hr)]; [by left|].
        right. exists x. split; [by apply elem_of_cons; right|done].
    + exists (length a). split; [lia|]. split; [lia|]. split.
      * intros x [->|Hx]%elem_of_cons.
        -- by rewrite take_app_length.
        -- intros Hin. apply (Hseen x Hx).
           rewrite take_app_length in Hin.
           rewrite take_app_ge by lia. apply elem_of_app. by left.
      * right. exists c. split; [by apply elem_of_cons; left|].
        by rewrite list_lookup_middle.
Qed.

(** [_splitnetloc] cuts the text after [//] at its first [/], [?] or
    [#]. *)
Lemma _splitnetloc_cut (r : str) :
  ∃ netloc l2,
    _splitnetloc ("/"%chr :: "/"%chr :: r) 2 = (netloc, l2)
    ∧ r = netloc ++ l2
    ∧ (∀ c, c ∈ ascii_lit "/?#" → c ∉ netloc)
    ∧ (l2 = [] ∨ ∃ c, c ∈ ascii_lit "/?#" ∧ head l2 = Some c).
Proof.
  unfold _splitnetloc.
  change (ascii_lit "/?#") with ["/"%chr; "?"%chr; "#"%chr].
  cbn [foldl].
  assert (∃ d : nat,
            Z.of_nat (length ("/"%chr :: "/"%chr :: r)) = (Z.of_nat d + 2)%Z
            ∧ (d ≤ length r)%nat
            ∧ (∀ x, x ∈ ([] : str) → x ∉ take d r)
            ∧ (d = length r ∨ ∃ x, x ∈ ([] : str) ∧ r !! d = Some x))
    as H0.
  { exists (length r). cbn [length]. split; [lia|]. split; [done|].
    split; [by intros x ?%elem_of_nil|by left]. }
  apply (_splitnetloc_step r [] _ "/"%chr) in H0.
  apply (_splitnetloc_step r _ _ "?"%chr) in H0.
  apply (_splitnetloc_step r _ _ "#"%chr) in H0.
  cbv zeta in H0. destruct H0 as (d & -> & Hd & Hseen & Hend).
  exists (take d r), (drop d r).
  split; [|split; [by rewrite take_drop|split]].
  - unfold slice, slice_from. rewrite !slice_index_nonneg by lia.
    cbn [length]. rewrite !Nat.min_l by lia.
    replace (Z.to_nat (Z.of_nat d + 2)) with (S (S d)) by lia.
    by change (Z.to_nat 2) with 2%nat.
  - intros c Hc. apply Hseen. set_solver.
  - destruct Hend as [->|(x & Hx & Hr)]; [left; by rewrite drop_all|].
    right. exists x. split; [set_solver|].
    by rewrite head_lookup, lookup_drop, Nat.add_0_r.
Qed.

Section raises_netloc.
Variable lib : stdlib.

(** [urlsplit] raises only on a network location that holds a bracket or
    a character that is not ASCII. *)
Lemma urlsplit_Raises_netloc (url : str) (e : exn) :
  urlsplit lib url = Raises e →
  ∃ netloc,
    network_location (cleaned url) netloc
    ∧ ("["%chr ∈ netloc ∨ "]"%chr ∈ netloc
       ∨ ¬ Forall (λ c, isascii c = true) netloc).
Proof.
  unfold urlsplit. fold (cleaned url).
  match goal with
  | |- context [if ?c then (lower ?s, ?u) else ([], ?v)] =>
      assert (∃ scheme url2 l1,
                (if c then (lower s, u) else ([], v)) = (scheme, url2)
                ∧ cleaned url = l1 ++ url2 ∧ "/"%chr ∉ l1)
        as (scheme & url2 & l1 & -> & Hl1 & Hslash)
  end.
  { match goal with |- context [if ?c then _ else _] =>
      destruct c eqn:Hscheme end.
    - apply andb_true_iff in Hscheme as [Hscheme Hchars].
      apply andb_true_iff in Hscheme as [Hfound _].
      apply Z.ltb_lt in Hfound.
      destruct (find_cut ":"%chr (cleaned url)) as (a & b & Hcut & _ & Hfind);
        [lia|].
      rewrite Hfind in Hchars |- *. rewrite Hcut in Hchars |- *.
      rewrite slice_to_nonneg in Hchars by lia.
      rewrite Nat2Z.id, take_app_length in Hchars.
      exists (lower a), b, (a ++ [":"%chr]).
      split; [|split].
      + f_equal.
        * rewrite slice_to_nonneg by lia.
          by rewrite Nat2Z.id, take_app_length.
        * unfold slice_from. rewrite slice_index_nonneg by lia.
          rewrite Nat.min_l by (rewrite length_app; simpl; lia).
          replace (Z.to_nat (Z.of_nat (length a) + 1)) with (S (length a))
            by lia.
          change (":"%chr :: b) with ([":"%chr] ++ b).
          rewrite (assoc_L (++)). apply drop_app_length'.
          rewrite length_app. simpl. lia.
      + by rewrite <- (assoc_L (++)).
      + rewrite not_elem_of_app. split; [|by rewrite list_elem_of_singleton].
        intros Hin. apply forallb_true in Hchars.
        rewrite Forall_forall in Hchars. specialize (Hchars _ Hin).
        revert Hchars. by vm_compute.
    - exists [], (cleaned url), []. split; [done|].
      split; [done|apply not_elem_of_nil]. }
  case_bool_decide as Hnetloc.
  - rewrite slice_to_nonneg in Hnetloc by done.
    change (Z.to_nat 2) with 2%nat in Hnetloc.
    change (ascii_lit "//") with ["/"%chr; "/"%chr] in Hnetloc.
    assert (∃ r, url2 = "/"%chr :: "/"%chr :: r) as [r ->].
    { destruct url2 as [|x [|y r]]; try done.
      injection Hnetloc as -> ->. by exists r. }
    destruct (_splitnetloc_cut r) as (netloc & l2 & -> & -> & Hfree & Hend).
    intros Hraises. exists netloc. split.
    { exists l1, l2. by rewrite Hl1. }
    revert Hraises.
    destruct (contains "["%chr netloc) eqn:Hopen;
      [left; by apply contains_true|].
    destruct (contains "]"%chr netloc) eqn:Hclose;
      [right; left; by apply contains_true|].
    cbn [andb orb negb mbind outcome_bind].
    intros Hraises. right. right. intros Hascii.
    revert Hraises. unfold _checknetloc.
    rewrite (proj2 (forallb_true _ _)), orb_true_r by done.
    destruct (contains "#"%chr l2) eqn:Hfragment.
    + apply contains_true, split_once_present in Hfragment as (a & b & ->).
      cbn [unpack2 mbind outcome_bind].
      destruct (contains "?"%chr a) eqn:Hquery; [|done].
      apply contains_true, split_once_present in Hquery as (a' & b' & ->).
      done.
    + cbn [mbind outcome_bind].
      destruct (contains "?"%chr l2) eqn:Hquery; [|done].
      apply contains_true, split_once_present in Hquery as (a' & b' & ->).
      done.
  - cbn [mbind outcome_bind].
    destruct (contains "#"%chr url2) eqn:Hfragment.
    + apply contains_true, split_once_present in Hfragment
        as (a & b & ->).
      cbn [unpack2 mbind outcome_bind].
      destruct (contains "?"%chr a) eqn:Hquery; [|done].
      apply contains_true, split_once_present in Hquery as (a' & b' & ->).
      done.
    + cbn [mbind outcome_bind].
      destruct (contains "?"%chr url2) eqn:Hquery; [|done].
      apply contains_true, split_once_present in Hquery as (a' & b' & ->).
      done.
Qed.
End raises_netloc.
(** On a token the cleaning strips leading control characters, none of
    which is a slash. *)
Lemma cleaned_token_cut (t : str) :
  no_whitespace t → ∃ k, t = k ++ cleaned t ∧ "/"%chr ∉ k.
Proof.
  intros Hws. unfold cleaned.
  destruct (lstrip_cut _WHATWG_C0_CONTROL_OR_SPACE t) as (k & Hk & Hall).
  assert (no_whitespace (lstrip _WHATWG_C0_CONTROL_OR_SPACE t)) as Hws'.
  { rewrite Hk in Hws. by apply no_whitespace_app in Hws as [_ ?]. }
  cbn [foldl _UNSAFE_URL_BYTES_TO_REMOVE].
  rewrite (remove_char_absent 9%N), (remove_char_absent 13%N),
    (remove_char_absent 10%N) by by apply no_whitespace_absent.
  exists k. split; [done|]. intros Hin.
  rewrite Forall_forall in Hall. specialize (Hall _ Hin).
  revert Hall. by_evaluation.
Qed.

(** C6, as the code has it: for every input string the parser returns, or
    raises [ValueError]; it raises only when the request line has a second
    token, the first slash of that token is doubled, and the network
    location that follows, up to the next [/], [?] or [#], holds a bracket
    or a character that is not ASCII: the cases in which [urlsplit] checks
    the network location.  Targets such as [/a//b] and [http://host/p] are
    parsed. *)
Theorem parse_http_request_returns_or_ValueError
    (lib : stdlib) (request : str) :
  (∃ method path params,
     parse_http_request lib request = Returns (method, path, params))
  ∨ (parse_http_request lib request = Raises ValueError
     ∧ ∃ method target rest netloc,
         split_whitespace (request_line request) = method :: target :: rest
         ∧ network_location target netloc
         ∧ ("["%chr ∈ netloc ∨ "]"%chr ∈ netloc
            ∨ ¬ Forall (λ c, isascii c = true) netloc)).
Proof.
  unfold parse_http_request, request_line.
  destruct (split_str CRLF request) as [|line ?]; [left; by eexists _, _, _|].
  cbn [hd].
  pose proof (split_whitespace_tokens line) as Htokens.
  destruct (split_whitespace line) as [|method [|target rest]];
    try (left; by eexists _, _, _).
  destruct (urlparse lib target) as [parsed_url|e] eqn:Hparse.
  - left. cbn [mbind outcome_bind].
    destruct (parse_qs_total (query parsed_url)) as [d ->].
    by eexists _, _, _.
  - right. apply urlparse_Raises in Hparse.
    pose proof (urlsplit_only_ValueError lib target e Hparse) as ->.
    split; [done|].
    apply urlsplit_Raises_netloc
      in Hparse as (netloc & (l1 & l2 & Hclean & Hl1 & Hfree & Hend) & Hwhy).
    apply Forall_cons in Htokens as [_ Htokens].
    apply Forall_cons in Htokens as [[_ Hws] _].
    destruct (cleaned_token_cut target Hws) as (k & Hk & Hslash).
    exists method, target, rest, netloc. split; [done|]. split; [|done].
    exists (k ++ l1), l2. split; [|split; [|done]].
    + rewrite Hk at 1. rewrite Hclean. by rewrite <- (assoc_L (++)).
    + rewrite not_elem_of_app. by split.
Qed.

(** Two slashes in a row that are not the first slash of the target, or
    that open a network location of ASCII letters, are parsed, whatever
    the library functions answer. *)
Example parse_http_request_inner_slashes (lib : stdlib) :
  parse_http_request lib (ascii_lit "GET /a//b?x=1 HTTP/1.1" ++ CRLF)
  = Returns (ascii_lit "GET", ascii_lit "/a//b",
             {[ ascii_lit "x" := [ascii_lit "1"] ]}).
Proof. by vm_compute. Qed.

Example parse_http_request_absolute_target (lib : stdlib) :
  parse_http_request lib (ascii_lit "GET http://host/p?x=1 HTTP/1.1" ++ CRLF)
  = Returns (ascii_lit "GET", ascii_lit "/p",
             {[ ascii_lit "x" := [ascii_lit "1"] ]}).
Proof. by vm_compute. Qed.

(** C6 as stated fails for a target with an unbalanced bracket in its
    network location: [urlsplit] raises [ValueError] ("Invalid IPv6 URL")
    and the parser lets it through; this holds whatever the library
    functions answer. *)
Lemma parse_http_request_raises :
  parse_http_request no_addresses
    (ascii_lit "GET //[ HTTP/1.1" ++ CRLF ++ CRLF)
  = Raises ValueError.
Proof. by vm_compute. Qed.

Lemma parse_http_request_raises_any_library (lib : stdlib) :
  parse_http_request lib (ascii_lit "GET //[ HTTP/1.1" ++ CRLF ++ CRLF)
  = Raises ValueError.
Proof. by vm_compute. Qed.

(** ** handle_client *)

Lemma create_bad_request_response :
  create_http_response 400 (ascii_lit "Bad Request") bad_request_body
  = Returns bad_request_response.
Proof. by vm_compute. Qed.

Lemma create_internal_error_response :
  create_http_response 500 (ascii_lit "Internal Server Error")
    internal_error_body
  = Returns internal_error_response.
Proof. by vm_compute. Qed.

Lemma create_index_response :
  create_http_response 200 (ascii_lit "OK") get_index_page
  = Returns index_response.
Proof. by vm_compute. Qed.

Lemma decode_strict_Raises (data : bytes) (e : exn) :
  decode strict data = Raises e → e = UnicodeDecodeError.
Proof.
  unfold decode. generalize (Byte.to_N <$> data) 0%nat. clear data.
  intros s. induction s as [|ch s IH]; intros skip; simpl; [done|].
  destruct skip as [|k]; [|apply IH].
  destruct (utf8_next ch s) as [[c|] n]; [|by intros [= <-]].
  destruct (utf8_decode_from strict (pred n) s) eqn:Hrest; [done|].
  simpl. intros [= <-]. by eapply IH.
Qed.

(** *** The parts of a run *)

Lemma handle_client_unfold (env : environment) (client_socket : socket)
    (address : str * Z) :
  handle_client env client_socket address
  = try_finally
      (try_except (request_block env client_socket address)
                  (except_clauses env client_socket address))
      (finally_clause env client_socket address).
Proof. reflexivity. Qed.

Lemma try_except_Returns {A} (body : io A) (handlers : exn → option (io A))
    (t t' : list event) (a : A) :
  body t = (Returns a, t') → try_except body handlers t = (Returns a, t').
Proof. intros Hbody. unfold try_except. by rewrite Hbody. Qed.

(** Whatever the guarded block and the [except] clauses did, the [finally]
    clause adds the [close] to their trace, and nothing else. *)
Lemma finally_clause_trace {A} (env : environment) (client_socket : socket)
    (address : str * Z) (body : io A) (t : list event) :
  (try_finally body (finally_clause env client_socket address) t).2
  = (body t).2 ++ [Close].
Proof.
  unfold try_finally, finally_clause, try_except, mbind, io_bind, close, pure,
    except_Exception.
  destruct (body t) as [r t']. simpl.
  destruct (close_result client_socket) as [[]|e].
  - destruct (print _ _ _) as [[]|e]; [done|]. by destruct (is_Exception e).
  - by destruct (is_Exception e).
Qed.

(** An exception of class [Exception] that leaves the handler left the
    [except] clauses: the [finally] clause lets none of its own out. *)
Lemma finally_clause_outcome {A} (env : environment) (client_socket : socket)
    (address : str * Z) (body : io A) (t : list event) (e : exn) :
  (try_finally body (finally_clause env client_socket address) t).1
  = Raises e →
  is_Exception e = true →
  (body t).1 = Raises e.
Proof.
  unfold try_finally, finally_clause, try_except, mbind, io_bind, close, pure,
    except_Exception.
  destruct (body t) as [r t']. simpl.
  destruct (close_result client_socket) as [[]|e2].
  - destruct (print _ _ _) as [[]|e3]; [done|].
    destruct (is_Exception e3) eqn:He3; [done|].
    simpl. intros [= <-]. congruence.
  - destruct (is_Exception e2) eqn:He2; [done|].
    simpl. intros [= <-]. congruence.
Qed.

(** What the [except] clauses do with an exception of the guarded block:
    the response they write after their [print]. *)
Lemma except_clauses_trace (env : environment) (client_socket : socket)
    (address : str * Z) (body : io unit) (t t' : list event) (e : exn) :
  body t = (Raises e, t') →
  (try_except body (except_clauses env client_socket address) t).2
  = t' ++ recovery_of env address e.
Proof.
  intros Hbody. unfold try_except. rewrite Hbody.
  unfold except_clauses, recovery_of, failure_print, mbind, io_bind, pure,
    sendall, try_except, except_Exception.
  cbv zeta.
  rewrite create_bad_request_response, create_internal_error_response.
  destruct e; cbn [is_Exception error_response from_option];
    rewrite ?app_nil_r; try done;
    destruct (print _ _ _) as [[]|e1]; rewrite ?app_nil_r; try done;
    by repeat (case_match; simplify_eq/=).
Qed.

(** What comes out of the [except] clauses when the guarded block raised
    [e]: an exception of class [Exception] only out of the [print] of a
    clause, or out of the write of the 400 response. *)
Lemma except_clauses_outcome (env : environment) (client_socket : socket)
    (address : str * Z) (body : io unit) (t t' : list event) (e e' : exn) :
  body t = (Raises e, t') →
  (try_except body (except_clauses env client_socket address) t).1
  = Raises e' →
  is_Exception e' = true →
  is_Exception e = true
  ∧ (failure_print env address e = Raises e'
     ∨ (e = UnicodeDecodeError
        ∧ failure_print env address e = Returns ()
        ∧ sendall_result client_socket (sendall_calls t')
            bad_request_response
          = Raises e')).
Proof.
  intros Hbody. unfold try_except. rewrite Hbody.
  unfold except_clauses, failure_print, mbind, io_bind, pure, sendall,
    try_except, except_Exception.
  cbv zeta.
  rewrite create_bad_request_response, create_internal_error_response.
  destruct e; cbn [is_Exception];
    try (simpl; by intros [= <-]);
    (destruct (print _ _ _) as [[]|e1];
     [|simpl; intros [= <-] _; split; [done|by left]]);
    repeat (case_match; simplify_eq/=); try done;
    intros [= <-] ?; first [congruence | split; [done|right; by repeat split]].
Qed.


(** The guarded block of a request that is logged, up to the [dispatch]:
    what follows is the outcome of [rest]. *)
Lemma request_block_logged (env : environment) (client_socket : socket)
    (address : str * Z) (data : bytes) (request : str) :
  recv_result client_socket = Returns data →
  data ≠ [] →
  decode strict data = Returns request →
  request_logged env address request →
  request_block env client_socket address []
  = ('(method, path, params) ←
       pure (parse_http_request (env_lib env) request);
     '(status_code, status_text, response_body) ←
       pure (dispatch env path params);
     response ←
       pure (create_http_response status_code status_text response_body);
     sendall client_socket response;;
     pure (print (env_console env) 547 (answered_text address)))
      [Recv BUFFER_SIZE].
Proof.
  intros Hrecv Hdata Hdecode (H493 & H502 & H503 & H504 & H505).
  unfold request_block. cbv zeta.
  unfold mbind at 1, io_bind at 1, pure at 1. rewrite H493.
  unfold mbind at 1, io_bind at 1, recv. cbn [app]. rewrite Hrecv.
  rewrite bool_decide_eq_false_2 by done.
  unfold mbind at 1, io_bind at 1, pure at 1. rewrite Hdecode.
  unfold mbind at 1, io_bind at 1, pure at 1. rewrite H502.
  unfold mbind at 1, io_bind at 1, pure at 1. rewrite H503.
  unfold mbind at 1, io_bind at 1, pure at 1. rewrite H504.
  unfold mbind at 1, io_bind at 1, pure at 1. by rewrite H505.
Qed.

(** A request that is logged, parsed and dispatched, and whose response is
    built: the block writes the response and prints. *)
Lemma request_block_answers (env : environment) (client_socket : socket)
    (address : str * Z) (data : bytes)
    (request method path : str) (params : gmap str (list str))
    (status_code : Z) (status_text body : str) (response : bytes) :
  recv_result client_socket = Returns data →
  data ≠ [] →
  decode strict data = Returns request →
  request_logged env address request →
  parse_http_request (env_lib env) request = Returns (method, path, params) →
  dispatch env path params = Returns (status_code, status_text, body) →
  create_http_response status_code status_text body = Returns response →
  request_block env client_socket address []
  = (sendall_result client_socket 0 response;;
     print (env_console env) 547 (answered_text address),
     [Recv BUFFER_SIZE; Sendall response]).
Proof.
  intros Hrecv Hdata Hdecode Hlogged Hparse Hdispatch Hcreate.
  rewrite (request_block_logged _ _ _ _ _ Hrecv Hdata Hdecode Hlogged).
  unfold mbind, io_bind, pure, sendall.
  rewrite Hparse, Hdispatch, Hcreate. cbn [app].
  change (sendall_calls [Recv BUFFER_SIZE]) with 0%nat.
  unfold outcome_bind. by destruct (sendall_result client_socket 0 response).
Qed.

(** The handler answers a request with the response the dispatch leads to;
    when the write and the [print] after it succeed, only the [close]
    follows. *)
Lemma handle_client_writes
    (env : environment) (client_socket : socket) (address : str * Z)
    (data : bytes) (request method path : str)
    (params : gmap str (list str))
    (status_code : Z) (status_text body : str) (response : bytes) :
  recv_result client_socket = Returns data →
  data ≠ [] →
  decode strict data = Returns request →
  request_logged env address request →
  parse_http_request (env_lib env) request = Returns (method, path, params) →
  dispatch env path params = Returns (status_code, status_text, body) →
  create_http_response status_code status_text body = Returns response →
  ∃ recovery,
    (handle_client env client_socket address []).2
    = [Recv BUFFER_SIZE; Sendall response] ++ recovery ++ [Close]
    ∧ (sendall_result client_socket 0 response = Returns () →
       answer_logged env address →
       recovery = []).
Proof.
  intros Hrecv Hdata Hdecode Hlogged Hparse Hdispatch Hcreate.
  pose proof (request_block_answers _ _ _ _ _ _ _ _ _ _ _ _
                Hrecv Hdata Hdecode Hlogged Hparse Hdispatch Hcreate)
    as Hblock.
  rewrite handle_client_unfold, finally_clause_trace.
  destruct (sendall_result client_socket 0 response;;
            print (env_console env) 547 (answered_text address))
    as [[]|e] eqn:Hend.
  - exists []. by rewrite (try_except_Returns _ _ _ _ _ Hblock).
  - rewrite (except_clauses_trace _ _ _ _ _ _ _ Hblock).
    eexists. split; [by rewrite <- (assoc_L (++))|].
    intros Hsend Hlog. unfold answer_logged in Hlog.
    by rewrite Hsend, Hlog in Hend.
Qed.

(** The handler answers an exception of the guarded block with the
    response of the matching [except] clause. *)
Lemma handle_client_recovers
    (env : environment) (client_socket : socket) (address : str * Z)
    (e : exn) (t : list event) :
  request_block env client_socket address [] = (Raises e, t) →
  (handle_client env client_socket address []).2
  = t ++ recovery_of env address e ++ [Close].
Proof.
  intros Hblock. rewrite handle_client_unfold, finally_clause_trace.
  by rewrite (except_clauses_trace _ _ _ _ _ _ _ Hblock), <- (assoc_L (++)).
Qed.

(** *** The claims about the handler *)

(** C8: when the one [recv] returns no bytes, the handler calls [sendall]
    not at all and closes the socket: its calls on the socket are the
    [recv] and the [close].  This holds of every run in which the [recv]
    takes place, and it takes place whenever the [print] before it
    returns. *)
Theorem handle_client_nothing_received
    (env : environment) (client_socket : socket) (address : str * Z) :
  recv_result client_socket = Returns [] →
  (Recv BUFFER_SIZE ∈ (handle_client env client_socket address []).2 →
   (handle_client env client_socket address []).2 = [Recv BUFFER_SIZE; Close])
  ∧ (print (env_console env) 493 (connected_text address) = Returns () →
     (handle_client env client_socket address []).2
     = [Recv BUFFER_SIZE; Close]).
Proof.
  intros Hrecv.
  assert (print (env_console env) 493 (connected_text address) = Returns () →
          (handle_client env client_socket address []).2
          = [Recv BUFFER_SIZE; Close]) as Hread.
  { intros Hprint. rewrite handle_client_unfold, finally_clause_trace.
    rewrite (try_except_Returns _ _ _ [Recv BUFFER_SIZE] ()); [done|].
    unfold request_block, mbind, io_bind, pure, recv. cbv zeta. cbn [app].
    rewrite Hprint, Hrecv. by rewrite bool_decide_eq_true_2 by done. }
  split; [|done].
  destruct (print (env_console env) 493 (connected_text address))
    as [[]|e] eqn:Hprint; [by intros _; apply Hread|].
  rewrite (handle_client_recovers env client_socket address e []).
  - intros Hin. exfalso. revert Hin. unfold recovery_of.
    destruct (failure_print env address e), (error_response e);
      cbn [from_option app];
      rewrite ?elem_of_cons, ?elem_of_nil; naive_solver.
  - unfold request_block, mbind, io_bind, pure. cbv zeta.
    by rewrite Hprint.
Qed.

Lemma handle_client_nothing_received_witness :
  (handle_client no_services (socket_with []) local_client []).2
  = [Recv BUFFER_SIZE; Close].
Proof.
  refine (proj1 (handle_client_nothing_received no_services (socket_with [])
                   local_client _) _).
  - reflexivity.
  - vm_compute. apply elem_of_cons. by left.
Defined.

(** Without a [recv] the handler can write: on a console that refuses the
    first log line only, the peer that sent nothing gets the 500
    response. *)
Example handle_client_nothing_read :
  handle_client
    (no_services_on
       {| print_result := λ line _,
            if (line =? 493)%N then Raises OSError else Returns ();
          exception_text := λ _, [] |})
    (socket_with []) local_client []
  = (Returns (), [Sendall internal_error_response; Close]).
Proof. by vm_compute. Qed.

(** C7, as the code has it: when the bytes received are not valid UTF-8
    and the [print] statements on the way return (the one before the
    [recv] and the one of the [except UnicodeDecodeError] clause), the
    handler sends the 400 Bad Request response with its fixed body and
    then closes the socket. *)
Theorem handle_client_undecodable
    (env : environment) (client_socket : socket) (address : str * Z)
    (data : bytes) :
  recv_result client_socket = Returns data →
  decode strict data = Raises UnicodeDecodeError →
  print (env_console env) 493 (connected_text address) = Returns () →
  print (env_console env) 550 (undecodable_text address) = Returns () →
  (handle_client env client_socket address []).2
  = [Recv BUFFER_SIZE; Sendall bad_request_response; Close].
Proof.
  intros Hrecv Hdecode H493 H550.
  rewrite (handle_client_recovers env client_socket address
             UnicodeDecodeError [Recv BUFFER_SIZE]).
  - unfold recovery_of, failure_print. by rewrite H550.
  - unfold request_block, mbind, io_bind, pure, recv. cbv zeta. cbn [app].
    rewrite H493, Hrecv.
    rewrite bool_decide_eq_false_2 by by intros ->.
    by rewrite Hdecode.
Qed.

Lemma handle_client_undecodable_witness :
  (handle_client no_services (socket_with [Byte.x47; Byte.xff])
     local_client []).2
  = [Recv BUFFER_SIZE; Sendall bad_request_response; Close].
Proof.
  by apply (handle_client_undecodable no_services
              (socket_with [Byte.x47; Byte.xff]) local_client
              [Byte.x47; Byte.xff]).
Defined.

(** C7 as stated fails when the console breaks: the [print] that opens the
    [except UnicodeDecodeError] clause raises, no response is written, and
    the exception leaves the handler once the socket is closed. *)
Lemma handle_client_undecodable_unanswered :
  handle_client (no_services_on broken_console)
    (socket_with [Byte.x47; Byte.xff]) local_client []
  = (Raises OSError, [Recv BUFFER_SIZE; Close]).
Proof. by vm_compute. Qed.

Lemma never_closes_mret {A} (a : A) : never_closes (mret a).
Proof.
  intros t. exists []. unfold mret, io_ret. simpl.
  split; [by rewrite app_nil_r|apply not_elem_of_nil].
Qed.

Lemma never_closes_pure {A} (x : outcome A) : never_closes (pure x).
Proof.
  intros t. exists []. unfold pure. simpl.
  split; [by rewrite app_nil_r|apply not_elem_of_nil].
Qed.

Lemma never_closes_recv (client_socket : socket) (bufsize : N) :
  never_closes (recv client_socket bufsize).
Proof.
  intros t. exists [Recv bufsize]. split; [done|].
  by rewrite list_elem_of_singleton.
Qed.

Lemma never_closes_sendall (client_socket : socket) (data : bytes) :
  never_closes (sendall client_socket data).
Proof.
  intros t. exists [Sendall data]. split; [done|].
  by rewrite list_elem_of_singleton.
Qed.

Lemma never_closes_bind {A B} (m : io A) (f : A → io B) :
  never_closes m → (∀ a, never_closes (f a)) → never_closes (m ≫= f).
Proof.
  intros Hm Hf t. unfold mbind, io_bind.
  destruct (Hm t) as (added & Ht & Hadded).
  destruct (m t) as [[a|e] t']; simpl in Ht; subst t'.
  - destruct (Hf a (t ++ added)) as (added' & -> & Hadded').
    exists (added ++ added'). rewrite (assoc_L (++)). split; [done|].
    rewrite not_elem_of_app. done.
  - by exists added.
Qed.

Lemma never_closes_try_except {A} (body : io A)
    (handlers : exn → option (io A)) :
  never_closes body →
  (∀ e handler, handlers e = Some handler → never_closes handler) →
  never_closes (try_except body handlers).
Proof.
  intros Hbody Hhandlers t. unfold try_except.
  destruct (Hbody t) as (added & Ht & Hadded).
  destruct (body t) as [[a|e] t']; simpl in Ht; subst t'.
  - by exists added.
  - destruct (handlers e) as [handler|] eqn:Hhandler; [|by exists added].
    destruct (Hhandlers e handler Hhandler (t ++ added))
      as (added' & -> & Hadded').
    exists (added ++ added'). rewrite (assoc_L (++)). split; [done|].
    rewrite not_elem_of_app. done.
Qed.

Lemma never_closes_except_Exception {A} (handler : io A) (e : exn)
    (chosen : io A) :
  never_closes handler → except_Exception handler e = Some chosen →
  never_closes chosen.
Proof.
  unfold except_Exception. destruct (is_Exception e); [|done].
  by intros ? [= <-].
Qed.

(** The steps of a block, one after the other. *)
Ltac never_closes_steps :=
  repeat first
    [ apply never_closes_mret
    | apply never_closes_pure
    | apply never_closes_recv
    | apply never_closes_sendall
    | apply never_closes_bind; [|intros ?]
    | match goal with
      | |- never_closes (if ?b then _ else _) => destruct b
      | |- never_closes (let '(_, _) := ?x in _) => destruct x
      end ].

(** The [finally] clause of [handle_client] adds one [close] to whatever
    the guarded block did. *)
Lemma try_finally_close {A} (env : environment) (client_socket : socket)
    (address : str * Z) (body : io A) (t : list event) :
  never_closes body →
  ∃ added,
    (try_finally body (finally_clause env client_socket address) t).2
    = t ++ added ++ [Close]
    ∧ Close ∉ added.
Proof.
  intros Hbody. destruct (Hbody t) as (added & Ht & Hadded).
  exists added. split; [|done].
  by rewrite finally_clause_trace, Ht, <- (assoc_L (++)).
Qed.

(** C2: whatever the socket, the console and the surroundings do, the
    handler calls [close] on the client socket exactly once, as its last
    call. *)
Theorem handle_client_closes_once
    (env : environment) (client_socket : socket) (address : str * Z) :
  ∃ before,
    (handle_client env client_socket address []).2 = before ++ [Close]
    ∧ Close ∉ before.
Proof.
  rewrite handle_client_unfold.
  apply (try_finally_close env client_socket address _ []).
  apply never_closes_try_except.
  - unfold request_block. cbv zeta. never_closes_steps.
  - intros e handler.
    assert (never_closes
              (pure (print (env_console env) 560
                       (failure_text (env_console env) address e));;
               error_response ←
                 pure (create_http_response 500
                         (ascii_lit "Internal Server Error")
                         internal_error_body);
               try_except (sendall client_socket error_response)
                          (except_Exception (mret ()))))
      as Hon_Exception.
    { apply never_closes_bind; [apply never_closes_pure|]. intros _.
      apply never_closes_bind; [apply never_closes_pure|].
      intros error_response.
      apply never_closes_try_except; [apply never_closes_sendall|].
      intros e' handler'. apply never_closes_except_Exception.
      apply never_closes_mret. }
    unfold except_clauses. cbv zeta.
    destruct e; try by apply never_closes_except_Exception.
    intros [= <-]. never_closes_steps.
Qed.

(** A socket that delivers [data] and on which every write fails. *)
Example handle_client_closes_once_writes_fail :
  handle_client no_services
    {| recv_result := Returns (bytes_lit "GET /movie?title=x HTTP/1.1");
       sendall_result := λ _ _, Raises OSError;
       close_result := Returns () |} local_client []
  = (Returns (), [Recv BUFFER_SIZE; Sendall internal_error_response; Close]).
Proof. by vm_compute. Qed.

(** A console that is broken: the handler writes nothing and closes. *)
Example handle_client_closes_once_console_broken :
  handle_client (no_services_on broken_console)
    (socket_with (bytes_lit "GET / HTTP/1.1")) local_client []
  = (Raises OSError, [Recv BUFFER_SIZE; Close]).
Proof. by vm_compute. Qed.





(** When the console cannot take the text of the request, the answer is
    the 500 response: here a request line of one token, in Japanese, on a
    console without these letters. *)
Example handle_client_malformed_request_line_not_logged :
  (handle_client (no_services_on cyrillic_console)
     (socket_with (encoded (lit "日本") ++ CRLF_bytes ++ CRLF_bytes))
     local_client []).2
  = [Recv BUFFER_SIZE; Sendall internal_error_response; Close].
Proof. by vm_compute. Qed.

Lemma split_str_from_token (t s : str) :
  CR ∉ t →
  split_str CRLF (t ++ s)
  = (t ++ hd [] (split_str CRLF s)) :: tl (split_str CRLF s).
Proof.
  unfold split_str, CRLF. induction t as [|x t IH]; simpl.
  - intros _. pose proof (split_str_nonempty [CR; LF] s 0) as Hne.
    by destruct (split_str_from [CR; LF] 0 s).
  - rewrite not_elem_of_cons. intros [Hx Ht].
    rewrite bool_decide_eq_false_2.
    + by rewrite IH.
    + intros [k Hk]. simplify_eq/=.
Qed.

(** Two requests that differ in the method token only get the same path
    and the same query mapping from the parser. *)
Lemma parse_http_request_method_token
    (lib : stdlib) (method1 method2 : str) (c : N) (rest : str) :
  token method1 → token method2 → isspace c = true →
  (λ r, (r.1.2, r.2)) <$> parse_http_request lib (method1 ++ c :: rest)
  = (λ r, (r.1.2, r.2)) <$> parse_http_request lib (method2 ++ c :: rest).
Proof.
  intros H1 H2 Hc.
  assert (∀ method, token method →
            (λ r : str * str * gmap str (list str), (r.1.2, r.2))
              <$> parse_http_request lib (method ++ c :: rest)
            = (λ r, (r.1.2, r.2))
                <$> parse_http_request lib (["A"%chr] ++ c :: rest)) as Hany.
  { intros method [Hne Hws]. unfold parse_http_request.
    rewrite !split_str_from_token;
      [|by apply no_whitespace_absent; [|repeat constructor]
       |by apply no_whitespace_absent].
    destruct (hd [] (split_str CRLF (c :: rest))) as [|c' line] eqn:Hline.
    - rewrite !app_nil_r. rewrite !split_whitespace_last;
        [done|by split; [|repeat constructor]|by split].
    - assert (c' = c) as ->.
      { unfold split_str, CRLF in Hline. cbn [split_str_from] in Hline.
        case_bool_decide; [done|]. simpl in Hline. by simplify_eq. }
      rewrite !split_whitespace_token;
        [|by split; [|repeat constructor]|done|by split|done].
      destruct (split_whitespace line) as [|full_path ?]; [done|].
      destruct (urlparse lib full_path) as [parsed_url|]; [|done].
      cbn [mbind outcome_bind].
      by destruct (parse_qs (query parsed_url)). }
  by rewrite (Hany method1), (Hany method2).
Qed.



(** In particular two requests that differ in the method token only are
    answered alike, also when the parser raises or returns the sentinel. *)
Lemma handle_client_method_token
    (env : environment) (on_sendall : nat → bytes → outcome unit)
    (on_close : outcome unit) (address : str * Z) (data1 data2 : bytes)
    (method1 method2 : str) (c : N) (rest : str) :
  token method1 → token method2 → isspace c = true →
  decode strict data1 = Returns (method1 ++ c :: rest) →
  decode strict data2 = Returns (method2 ++ c :: rest) →
  print (env_console env) 504 (Returns (method1 ++ c :: rest))
  = print (env_console env) 504 (Returns (method2 ++ c :: rest)) →
  handle_client env
    {| recv_result := Returns data1; sendall_result := on_sendall;
       close_result := on_close |} address []
  = handle_client env
      {| recv_result := Returns data2; sendall_result := on_sendall;
         close_result := on_close |} address [].
Proof.
  intros H1 H2 Hc Hdecode1 Hdecode2 Hprint.
  assert (data1 ≠ []) as Hdata1.
  { intros ->. injection Hdecode1. by destruct method1. }
  assert (data2 ≠ []) as Hdata2.
  { intros ->. injection Hdecode2. by destruct method2. }
  pose proof (parse_http_request_method_token (env_lib env)
                method1 method2 c rest H1 H2 Hc) as Hparse.
  unfold handle_client, try_finally, try_except, mbind, io_bind, recv, pure.
  cbv zeta. cbn [recv_result].
  rewrite !bool_decide_eq_false_2 by done.
  rewrite Hdecode1, Hdecode2, Hprint.
  destruct (parse_http_request (env_lib env) (method1 ++ c :: rest))
    as [[[m1 p1] q1]|e1],
    (parse_http_request (env_lib env) (method2 ++ c :: rest))
    as [[[m2 p2] q2]|e2]; simpl in Hparse; by simplify_eq.
Qed.


(** * Further properties

    ** The codec, both ways *)

(** Turns the comparisons of the hypotheses into propositions. *)
Ltac bool_to_prop :=
  repeat match goal with
  | H : (_ <? _)%N = true |- _ => apply N.ltb_lt in H
  | H : (_ <? _)%N = false |- _ => apply N.ltb_ge in H
  | H : (_ <=? _)%N = true |- _ => apply N.leb_le in H
  | H : (_ <=? _)%N = false |- _ => apply N.leb_gt in H
  | H : (_ =? _)%N = true |- _ => apply N.eqb_eq in H
  | H : (_ =? _)%N = false |- _ => apply N.eqb_neq in H
  | H : negb _ = true |- _ => apply negb_true_iff in H
  | H : negb _ = false |- _ => apply negb_false_iff in H
  | H : _ && _ = true |- _ => apply andb_true_iff in H as [? ?]
  | H : _ || _ = false |- _ => apply orb_false_iff in H as [? ?]
  | H : _ && _ = false |- _ => apply andb_false_iff in H as [?|?]
  | H : _ || _ = true |- _ => apply orb_true_iff in H as [?|?]
  end.

(** Settles the comparisons of the goal, where arithmetic decides them. *)
Ltac decide_comparisons :=
  repeat (match goal with
          | |- context [(?a <? ?b)%N] => destruct (N.ltb_spec a b); try lia
          | |- context [(?a <=? ?b)%N] => destruct (N.leb_spec a b); try lia
          | |- context [(?a =? ?b)%N] => destruct (N.eqb_spec a b); try lia
          end; cbn [negb andb orb]).

Section codec_facts.
Local Open Scope N_scope.

Lemma utf8_next_Some (ch : N) (r : list N) (c : N) (n : nat) :
  utf8_next ch r = (Some c, n) → ¬ is_surrogate c ∧ is_code_point c.
Proof.
  unfold utf8_next, is_continuation_byte, is_surrogate, is_code_point.
  intros H. repeat case_match; simplify_eq; bool_to_prop;
    repeat match goal with
           | H : (if ?b then _ else _) = _ |- _ => destruct b eqn:?
           end;
    bool_to_prop; rewrite ?N.shiftl_mul_pow2;
    change (2 ^ 6) with 64; change (2 ^ 12) with 4096;
    change (2 ^ 18) with 262144; lia.
Qed.

Lemma decode_code_points (errors : error_handler) (skip : nat) (s : list N)
    (r : str) :
  utf8_decode_from errors skip s = Returns r →
  Forall (λ c, ¬ is_surrogate c ∧ is_code_point c) r.
Proof.
  revert skip r. induction s as [|ch s IH]; intros skip r; simpl.
  { intros [= <-]. constructor. }
  destruct skip as [|k]; [|apply IH].
  destruct (utf8_next ch s) as [[c|] n] eqn:Hnext.
  - intros (r' & Hr' & ->)%fmap_Returns. constructor; [|by eapply IH].
    by eapply utf8_next_Some.
  - destruct errors; [done|].
    intros (r' & Hr' & ->)%fmap_Returns. constructor; [|by eapply IH].
    unfold is_surrogate, is_code_point. lia.
Qed.

Lemma to_N_byte_of_N (n : N) : n < 256 → Byte.to_N (byte_of_N n) = n.
Proof.
  intros Hn. unfold byte_of_N.
  destruct (Byte.of_N n) as [b|] eqn:Hb; simpl.
  - by apply Byte.to_of_N.
  - apply Byte.of_N_None_iff in Hb. lia.
Qed.

(** The quotients and remainders behind the bytes of a code point. *)
Lemma utf8_bits (c : N) :
  ∃ q6 q12 q18 a0 a6 a12,
    N.shiftr c 6 = q6 ∧ N.shiftr c 12 = q12 ∧ N.shiftr c 18 = q18
    ∧ N.land c 0x3F = a0 ∧ N.land q6 0x3F = a6 ∧ N.land q12 0x3F = a12
    ∧ c = 64 * q6 + a0 ∧ q6 = 64 * q12 + a6 ∧ q12 = 64 * q18 + a12
    ∧ a0 < 64 ∧ a6 < 64 ∧ a12 < 64.
Proof.
  exists (c / 64), (c / 4096), (c / 262144), (c mod 64), ((c / 64) mod 64),
    ((c / 4096) mod 64).
  rewrite !N.shiftr_div_pow2.
  change 0x3F with (N.ones 6). rewrite !N.land_ones.
  change (2 ^ 6) with 64. change (2 ^ 12) with (64 * 64).
  change (2 ^ 18) with (64 * 64 * 64). change 4096 with (64 * 64).
  change 262144 with (64 * 64 * 64).
  rewrite <- !N.Div0.div_div.
  repeat split; try (apply N.mod_lt; done); apply N.div_mod; done.
Qed.


Lemma utf8_decode_encoded_char (errors : error_handler) (c : N) (bs : bytes)
    (rest : list N) :
  is_code_point c → utf8_encode_char c = Some bs →
  utf8_decode_from errors 0 ((Byte.to_N <$> bs) ++ rest)
  = cons c <$> utf8_decode_from errors 0 rest.
Proof.
  unfold is_code_point, utf8_encode_char. intros Hc.
  destruct (utf8_bits c)
    as (q6 & q12 & q18 & a0 & a6 & a12 & -> & -> & -> & -> & -> & ->
        & E0 & E6 & E12 & B0 & B6 & B12).
  intros Hbs. repeat case_match; try done; injection Hbs as <-; bool_to_prop.
  all: rewrite ?fmap_cons, ?fmap_nil; cbn [app].
  all: rewrite !to_N_byte_of_N by lia.
  all: cbn [utf8_decode_from]; unfold utf8_next, is_continuation_byte.
  all: decide_comparisons.
  all: rewrite ?N.shiftl_mul_pow2; change (2 ^ 6) with 64;
    change (2 ^ 12) with 4096; change (2 ^ 18) with 262144.
  all: cbn [pred utf8_decode_from].
  all: do 2 f_equal; lia.
Qed.

(** Decoding undoes encoding. *)
Lemma decode_encode (errors : error_handler) (s : str) (b : bytes) :
  Forall is_code_point s → encode s = Returns b →
  decode errors b = Returns s.
Proof.
  unfold decode. intros Hs. revert b.
  induction Hs as [|c s Hc Hs IH]; intros b; simpl.
  { by intros [= <-]. }
  destruct (utf8_encode_char c) as [bs|] eqn:Hbs; [|done].
  intros (b' & Hb' & ->)%fmap_Returns.
  rewrite fmap_app, (utf8_decode_encoded_char errors c bs) by done.
  by rewrite (IH b').
Qed.
End codec_facts.

(** ** Pieces of the request text *)

Section substring.
Context {A : Type} `{EqDecision A}.
Implicit Types (p s t : list A).

Lemma substring_refl s : substring s s.
Proof. exists [], []. by rewrite app_nil_r. Qed.

Lemma substring_nil s : substring [] s.
Proof. by exists [], s. Qed.

Lemma substring_trans p s t : substring p s → substring s t → substring p t.
Proof.
  intros (b1 & a1 & ->) (b2 & a2 & ->).
  exists (b2 ++ b1), (a1 ++ a2). by rewrite <- !(assoc_L (++)).
Qed.

Lemma substring_prefix p s : p `prefix_of` s → substring p s.
Proof. intros [k ->]. by exists [], k. Qed.

Lemma substring_suffix p s : p `suffix_of` s → substring p s.
Proof. intros [k ->]. exists k, []. by rewrite app_nil_r. Qed.

Lemma substring_take n s : substring (take n s) s.
Proof. apply substring_prefix, prefix_take. Qed.

Lemma substring_drop n s : substring (drop n s) s.
Proof. apply substring_suffix, suffix_drop. Qed.

Lemma substring_slice_to s i : substring (slice_to s i) s.
Proof. apply substring_take. Qed.

Lemma substring_slice_from s i : substring (slice_from s i) s.
Proof. apply substring_drop. Qed.

Lemma substring_slice s i j : substring (slice s i j) s.
Proof.
  unfold slice. eapply substring_trans; [apply substring_drop|].
  apply substring_take.
Qed.

Lemma substring_cons_r p x s : substring p s → substring p (x :: s).
Proof. intros (b & a & ->). by exists (x :: b), a. Qed.

Lemma substring_app_l p s1 s2 : substring p s1 → substring p (s1 ++ s2).
Proof.
  intros (b & a & ->). exists b, (a ++ s2). by rewrite <- !(assoc_L (++)).
Qed.

Lemma substring_app_r p s1 s2 : substring p s2 → substring p (s1 ++ s2).
Proof.
  intros (b & a & ->). exists (s1 ++ b), a. by rewrite <- !(assoc_L (++)).
Qed.

Lemma substring_Forall (P : A → Prop) p s :
  substring p s → Forall P s → Forall P p.
Proof.
  intros (b & a & ->). rewrite !Forall_app. by intros (_ & ? & _).
Qed.

Lemma substring_elem_of x p s : substring p s → x ∈ p → x ∈ s.
Proof. intros (b & a & ->) Hx. rewrite !elem_of_app. auto. Qed.

Lemma substring_lstrip chars s : substring (lstrip chars s) s.
Proof. apply substring_suffix, lstrip_suffix. Qed.

(** The first part of [s.split(sep)] is a prefix of [s]. *)
Lemma split_str_hd_prefix (sep s : list A) :
  hd [] (split_str sep s) `prefix_of` s.
Proof.
  unfold split_str. induction s as [|x s IH]; simpl; [done|].
  case_bool_decide; simpl; [apply prefix_nil|].
  by apply prefix_cons.
Qed.
End substring.

(** Each part of [s.split()] is a piece of [s]; the first one is a prefix
    of [s] when [s] does not start with whitespace. *)
Lemma split_whitespace_pieces (s : str) :
  Forall (λ t, substring t s) (split_whitespace s)
  ∧ (from_option isspace true (head s) = false →
     hd [] (split_whitespace s) `prefix_of` s).
Proof.
  induction s as [|c s [IH IHhd]]; [by split; [constructor|]|].
  cbn [split_whitespace head from_option]. destruct (isspace c) eqn:Hc.
  { split; [|done].
    eapply Forall_impl; [exact IH|]. intros t. apply substring_cons_r. }
  destruct s as [|c' s]; [by split; [repeat constructor; apply substring_refl|]|].
  cbn [head from_option] in IHhd.
  destruct (isspace c') eqn:Hc'.
  { split; [|intros _; by exists (c' :: s)].
    constructor; [by exists [], (c' :: s)|].
    eapply Forall_impl; [exact IH|]. intros t. apply substring_cons_r. }
  specialize (IHhd eq_refl).
  destruct (split_whitespace (c' :: s)) as [|t ts] eqn:Hts; cbn [hd tl] in *.
  - split; [|intros _; by exists (c' :: s)].
    repeat constructor. by exists [], (c' :: s).
  - apply Forall_cons in IH as [Ht Hts'].
    split; [|intros _; by apply prefix_cons].
    constructor.
    + by apply substring_prefix, prefix_cons.
    + eapply Forall_impl; [exact Hts'|]. intros t'. apply substring_cons_r.
Qed.

Lemma split_once_cut {A} `{EqDecision A} (c : A) (s : list A) :
  c ∈ s → ∃ a b, split c (Some 1%nat) s = [a; b] ∧ s = a ++ c :: b ∧ c ∉ a.
Proof.
  intros (a & b & -> & Ha)%list_elem_of_split_l.
  exists a, b. by rewrite split_once.
Qed.


Section urlsplit_pieces.
Variable lib : stdlib.

Lemma urlsplit_pieces (url : str) (r : SplitResult) :
  no_whitespace url → urlsplit lib url = Returns r →
  cut_at_marks url (split_path r) (split_query r).
Proof.
  intros Hws. unfold urlsplit. fold (cleaned url).
  pose proof (substring_suffix _ _ (cleaned_token url Hws)) as Hclean.
  match goal with
  | |- context [if ?c then (lower ?s, ?u) else ([], ?v)] =>
      assert (∃ scheme url2,
                (if c then (lower s, u) else ([], v)) = (scheme, url2)
                ∧ substring url2 url)
        as (scheme & url2 & -> & Hurl2)
  end.
  { destruct (_ && _); eexists _, _; (split; [done|]); [|done].
    eapply substring_trans; [apply substring_slice_from|done]. }
  match goal with
  | |- @mbind _ _ _ _ _ ?m = _ → _ =>
      destruct m as [[netloc url3]|] eqn:Hnetloc; [|done];
      assert (substring url3 url) as Hurl3
  end.
  { revert Hnetloc. case_bool_decide; [|by intros [= <- <-]].
    unfold _splitnetloc.
    destruct (_ || _); [done|].
    destruct (_ && _); [destruct (_check_bracketed_netloc lib _)|];
      cbn [mbind outcome_bind]; try done;
      intros [= <- <-];
      (eapply substring_trans; [apply substring_slice_from|done]). }
  clear Hnetloc. cbn [mbind outcome_bind].
  assert (∃ url4 fragment,
            (if contains "#"%chr url3
             then unpack2 (split "#"%chr (Some 1%nat) url3)
             else Returns (url3, [])) = Returns (url4, fragment)
            ∧ substring url4 url ∧ "#"%chr ∉ url4)
    as (url4 & fragment & -> & Hurl4 & Hfragment).
  { destruct (contains "#"%chr url3) eqn:Hc.
    - apply contains_true, split_once_cut in Hc as (a & b & -> & -> & Ha).
      exists a, b. split; [done|]. split; [|done].
      eapply substring_trans; [|exact Hurl3]. by apply substring_prefix, prefix_app_r.
    - apply contains_false in Hc. by exists url3, []. }
  cbn [mbind outcome_bind].
  assert (∃ url5 query,
            (if contains "?"%chr url4
             then unpack2 (split "?"%chr (Some 1%nat) url4)
             else Returns (url4, [])) = Returns (url5, query)
            ∧ substring url5 url4 ∧ substring query url4 ∧ "?"%chr ∉ url5)
    as (url5 & query & -> & Hurl5 & Hquery & Hmark).
  { destruct (contains "?"%chr url4) eqn:Hc.
    - apply contains_true, split_once_cut in Hc as (a & b & -> & -> & Ha).
      exists a, b. split; [done|]. split; [by apply substring_prefix, prefix_app_r|].
      split; [|done]. apply substring_app_r, substring_cons_r, substring_refl.
    - apply contains_false in Hc. exists url4, [].
      split; [done|]. split; [apply substring_refl|].
      split; [apply substring_nil|done]. }
  cbn [mbind outcome_bind].
  destruct (_checknetloc lib netloc); [|done]. intros [= <-]. simpl.
  repeat split.
  - by eapply substring_trans.
  - by eapply substring_trans.
  - intros Hin. apply Hfragment.
    eapply substring_elem_of; [exact Hurl5|exact Hin].
  - done.
  - intros Hin. apply Hfragment.
    eapply substring_elem_of; [exact Hquery|exact Hin].
Qed.

Lemma _splitparams_prefix (url : str) : (_splitparams url).1 `prefix_of` url.
Proof.
  unfold _splitparams. repeat case_match; simpl; try done;
    apply prefix_take.
Qed.

Lemma urlparse_pieces (url : str) (r : ParseResult) :
  no_whitespace url → urlparse lib url = Returns r →
  cut_at_marks url (path r) (query r).
Proof.
  intros Hws. unfold urlparse.
  destruct (urlsplit lib url) as [sr|] eqn:Hsplit; [|done].
  apply urlsplit_pieces in Hsplit as (Hpath & Hquery & H1 & H2 & H3); [|done].
  cbn [mbind outcome_bind].
  assert (∀ p, p `prefix_of` split_path sr →
               cut_at_marks url p (split_query sr)) as Hcut.
  { intros p Hp%substring_prefix. repeat split; try done.
    - by eapply substring_trans.
    - intros Hin. apply H1. eapply substring_elem_of; [exact Hp|exact Hin].
    - intros Hin. apply H2. eapply substring_elem_of; [exact Hp|exact Hin]. }
  destruct (_ && _).
  - pose proof (_splitparams_prefix (split_path sr)) as Hp.
    destruct (_splitparams (split_path sr)) as [p ps].
    intros [= <-]. by apply Hcut.
  - intros [= <-]. by apply Hcut.
Qed.
End urlsplit_pieces.

Lemma parse_http_request_inv
    (lib : stdlib) (request method route : str)
    (params : gmap str (list str)) :
  parse_http_request lib request = Returns (method, route, params) →
  ((length (split_whitespace (request_line request)) < 2)%nat
   ∧ method = [] ∧ route = [] ∧ params = ∅)
  ∨ ∃ target rest parsed_url,
      split_whitespace (request_line request) = method :: target :: rest
      ∧ urlparse lib target = Returns parsed_url
      ∧ route = path parsed_url
      ∧ parse_qs (query parsed_url) = Returns params.
Proof.
  unfold parse_http_request, request_line.
  destruct (split_str CRLF request) as [|line ?];
    [intros [= <- <- <-]; left; simpl; repeat split; try done; lia|].
  cbn [hd].
  destruct (split_whitespace line) as [|m [|target rest]];
    try (intros [= <- <- <-]; left; simpl; repeat split; try done; lia).
  destruct (urlparse lib target) as [parsed_url|] eqn:Hparse; [|done].
  cbn [mbind outcome_bind].
  destruct (parse_qs (query parsed_url)) eqn:Hqs; [|done].
  intros [= <- <- <-]. right. by eexists _, _, _.
Qed.

(** The path the parser returns is a piece of the request text. *)
Lemma parse_http_request_path_piece
    (lib : stdlib) (request method path : str)
    (params : gmap str (list str)) :
  parse_http_request lib request = Returns (method, path, params) →
  substring path request.
Proof.
  intros [(_ & _ & -> & _)
         |(target & rest & parsed_url & Htokens & Hurl & -> & _)
         ]%parse_http_request_inv; [apply substring_nil|].
  pose proof (split_whitespace_tokens (request_line request)) as Htok.
  pose proof (proj1 (split_whitespace_pieces (request_line request))) as Hp.
  rewrite Htokens in Htok, Hp.
  apply Forall_cons in Htok as [_ Htok].
  apply Forall_cons in Htok as [[_ Hws] _].
  apply Forall_cons in Hp as [_ Hp]. apply Forall_cons in Hp as [Htarget _].
  apply urlparse_pieces in Hurl as (Hpath & _); [|done].
  eapply substring_trans; [exact Hpath|].
  eapply substring_trans; [exact Htarget|].
  apply substring_prefix, split_str_hd_prefix.
Qed.

(** ** The runs of handle_client *)


(** X2: an exception of class [Exception] leaves
    the handler only out of an [except] clause: out of the [print] that
    opens the clause, or out of the write of the 400 response, which the
    [except UnicodeDecodeError] clause does not guard (the
    [except Exception] clause guards its own).  The socket is closed before
    the exception leaves. *)
Theorem handle_client_escapes
    (env : environment) (client_socket : socket) (address : str * Z)
    (e : exn) (t : list event) :
  handle_client env client_socket address [] = (Raises e, t) →
  is_Exception e = true →
  ∃ cause before,
    is_Exception cause = true
    ∧ ((failure_print env address cause = Raises e
        ∧ t = before ++ [Close])
       ∨ (cause = UnicodeDecodeError
          ∧ failure_print env address cause = Returns ()
          ∧ t = before ++ [Sendall bad_request_response; Close]
          ∧ sendall_result client_socket (sendall_calls before)
              bad_request_response
            = Raises e)).
Proof.
  intros Hrun He.
  assert ((handle_client env client_socket address []).2 = t) as Htrace
    by by rewrite Hrun.
  assert ((handle_client env client_socket address []).1 = Raises e) as Hout
    by by rewrite Hrun.
  rewrite handle_client_unfold in Htrace, Hout.
  rewrite finally_clause_trace in Htrace.
  apply finally_clause_outcome in Hout; [|done].
  assert (∃ cause t',
            request_block env client_socket address [] = (Raises cause, t'))
    as (cause & t' & Hblock).
  { destruct (request_block env client_socket address [])
      as [[[]|cause] t'] eqn:Hblock; [|by eexists _, _].
    by rewrite (try_except_Returns _ _ _ _ _ Hblock) in Hout. }
  destruct (except_clauses_outcome _ _ _ _ _ _ _ _ Hblock Hout He)
    as [Hcause [Hprint|(-> & Hprint & Hsend)]].
  - exists cause, t'. split; [done|]. left. split; [done|].
    rewrite (except_clauses_trace _ _ _ _ _ _ _ Hblock) in Htrace.
    unfold recovery_of in Htrace. rewrite Hprint in Htrace.
    by rewrite app_nil_r in Htrace.
  - exists UnicodeDecodeError, t'. split; [done|]. right.
    rewrite (except_clauses_trace _ _ _ _ _ _ _ Hblock) in Htrace.
    unfold recovery_of in Htrace. rewrite Hprint in Htrace.
    cbn [error_response from_option] in Htrace.
    repeat split; try done. by rewrite <- Htrace, <- (assoc_L (++)).
Qed.

(** Undecodable bytes on a socket whose writes fail. *)
Lemma handle_client_escapes_witness :
  ∃ cause before,
    is_Exception cause = true
    ∧ ((failure_print no_services local_client cause = Raises OSError
        ∧ [Recv BUFFER_SIZE; Sendall bad_request_response; Close]
          = before ++ [Close])
       ∨ (cause = UnicodeDecodeError
          ∧ failure_print no_services local_client cause = Returns ()
          ∧ [Recv BUFFER_SIZE; Sendall bad_request_response; Close]
            = before ++ [Sendall bad_request_response; Close]
          ∧ sendall_result
              {| recv_result := Returns [Byte.xff];
                 sendall_result := λ _ _, Raises OSError;
                 close_result := Returns () |}
              (sendall_calls before) bad_request_response
            = Raises OSError)).
Proof.
  apply (handle_client_escapes no_services
           {| recv_result := Returns [Byte.xff];
              sendall_result := λ _ _, Raises OSError;
              close_result := Returns () |} local_client).
  - by vm_compute.
  - reflexivity.
Defined.

(** ** Responses *)

Lemma encoded_ascii_lit (s : string) :
  ascii_bytes (bytes_lit s) → encoded (ascii_lit s) = bytes_lit s.
Proof.
  intros Hs. unfold encoded, ascii_lit. by rewrite encode_ascii.
Qed.

(** The response built from text that UTF-8 can encode. *)
Lemma create_http_response_encoded
    (status_code : Z) (status_text body : str) :
  within_str_digits status_code →
  encodable status_text →
  encodable body →
  create_http_response status_code status_text body
  = Returns (wire_format status_code (encoded status_text) (encoded body)).
Proof.
  intros Hcode Htext Hbody.
  by apply create_http_response_Returns_wire_format;
    [|apply encoded_Returns..].
Qed.

Lemma within_str_digits_200 : within_str_digits 200.
Proof. by vm_compute. Qed.

Lemma within_str_digits_404 : within_str_digits 404.
Proof. by vm_compute. Qed.

Lemma decode_strict_no_surrogate (data : bytes) (request : str) :
  decode strict data = Returns request →
  Forall (λ c, ¬ is_surrogate c) request.
Proof.
  intros Hdecode%decode_code_points.
  eapply Forall_impl; [exact Hdecode|]. by intros c [? _].
Qed.

(** ** Routes *)

Lemma dispatch_unknown (env : environment) (path : str)
    (params : gmap str (list str)) :
  path ∉ routes →
  dispatch env path params
  = Returns (404%Z, ascii_lit "Not Found", not_found_body path).
Proof.
  unfold routes. rewrite !not_elem_of_cons.
  intros (H1 & H2 & H3 & H4 & H5 & _). unfold dispatch.
  by rewrite !bool_decide_eq_false_2 by done.
Qed.

(** The text around the path in the 404 page holds no surrogate. *)
Lemma not_found_body_no_surrogate (path : str) :
  Forall (λ c, ¬ is_surrogate c) path →
  Forall (λ c, ¬ is_surrogate c) (not_found_body path).
Proof.
  intros Hpath. unfold not_found_body.
  rewrite !Forall_app. repeat split; [|done|];
    apply encode_Returns_iff; eexists; vm_compute; reflexivity.
Qed.

Lemma received_nothing_parsed (lib : stdlib) (data : bytes) (request : str)
    (method path : str) (params : gmap str (list str)) :
  decode strict data = Returns request →
  parse_http_request lib request = Returns (method, path, params) →
  path ≠ [] → data ≠ [].
Proof.
  intros Hdecode Hparse Hpath ->. injection Hdecode as <-.
  by injection Hparse as <- <- <-.
Qed.

(** X3: a decodable request whose path is none
    of [/], the empty path, [/movies], [/exchange] and [/movie] is
    answered, once the log lines about it are printed, 404 Not Found, with
    the page that quotes the path as it was sent (the path is not
    escaped).  The page can always be encoded, the path being a piece of
    text that was decoded.  When the write and the [print] after it
    succeed, only the [close] follows. *)
Theorem handle_client_unknown_route
    (env : environment) (client_socket : socket) (address : str * Z)
    (data : bytes) (request method path : str)
    (params : gmap str (list str)) :
  recv_result client_socket = Returns data →
  decode strict data = Returns request →
  request_logged env address request →
  parse_http_request (env_lib env) request = Returns (method, path, params) →
  path ∉ routes →
  ∃ recovery,
    (handle_client env client_socket address []).2
    = [Recv BUFFER_SIZE; Sendall (not_found_response path)]
      ++ recovery ++ [Close]
    ∧ (sendall_result client_socket 0 (not_found_response path) = Returns () →
       answer_logged env address →
       recovery = []).
Proof.
  intros Hrecv Hdecode Hlogged Hparse Hroute.
  eapply handle_client_writes; try done.
  - eapply received_nothing_parsed; [done..|].
    intros ->. apply Hroute. unfold routes. set_solver.
  - by apply dispatch_unknown.
  - rewrite create_http_response_encoded.
    + done.
    + apply within_str_digits_404.
    + apply encode_Returns_iff. by eexists.
    + apply not_found_body_no_surrogate.
      apply parse_http_request_path_piece in Hparse as Hpath.
      eapply substring_Forall; [exact Hpath|].
      by eapply decode_strict_no_surrogate.
Qed.

Lemma handle_client_unknown_route_witness :
  ∃ recovery,
    (handle_client no_services
       (socket_with (bytes_lit "GET /<b>?x=1 HTTP/1.1" ++ CRLF_bytes))
       local_client []).2
    = [Recv BUFFER_SIZE; Sendall (not_found_response (ascii_lit "/<b>"))]
      ++ recovery ++ [Close]
    ∧ (sendall_result
         (socket_with (bytes_lit "GET /<b>?x=1 HTTP/1.1" ++ CRLF_bytes))
         0 (not_found_response (ascii_lit "/<b>")) = Returns () →
       answer_logged no_services local_client →
       recovery = []).
Proof.
  apply (handle_client_unknown_route no_services
           (socket_with (bytes_lit "GET /<b>?x=1 HTTP/1.1" ++ CRLF_bytes))
           local_client
           (bytes_lit "GET /<b>?x=1 HTTP/1.1" ++ CRLF_bytes)
           (ascii_lit "GET /<b>?x=1 HTTP/1.1" ++ CRLF)
           (ascii_lit "GET") (ascii_lit "/<b>")
           {[ ascii_lit "x" := [ascii_lit "1"] ]}).
  - reflexivity.
  - reflexivity.
  - by repeat split.
  - by vm_compute.
  - by_evaluation.
Defined.

Lemma parse_http_request_Raises (lib : stdlib) (request : str) (e : exn) :
  parse_http_request lib request = Raises e → e = ValueError.
Proof.
  unfold parse_http_request.
  destruct (split_str CRLF request) as [|line ?]; [done|].
  destruct (split_whitespace line) as [|method [|target rest]]; try done.
  destruct (urlparse lib target) as [parsed_url|e'] eqn:Hparse.
  - cbn [mbind outcome_bind].
    by destruct (parse_qs_total (query parsed_url)) as [d ->].
  - intros [= <-]. apply urlparse_Raises in Hparse.
    by apply urlsplit_only_ValueError in Hparse.
Qed.

(** The guarded block of a request that is logged stops where the parser,
    the dispatch or the builder of the response raises. *)
Lemma request_block_raises
    (env : environment) (client_socket : socket) (address : str * Z)
    (data : bytes) (request : str) (e : exn) :
  recv_result client_socket = Returns data →
  data ≠ [] →
  decode strict data = Returns request →
  request_logged env address request →
  ('(method, path, params) ← parse_http_request (env_lib env) request;
   '(status_code, status_text, response_body) ← dispatch env path params;
   create_http_response status_code status_text response_body)
  = Raises e →
  request_block env client_socket address [] = (Raises e, [Recv BUFFER_SIZE]).
Proof.
  intros Hrecv Hdata Hdecode Hlogged Hraises.
  rewrite (request_block_logged _ _ _ _ _ Hrecv Hdata Hdecode Hlogged).
  unfold mbind, io_bind, pure. unfold mbind, outcome_bind in Hraises.
  destruct (parse_http_request _ _) as [[[method path] params]|e1];
    [|by injection Hraises as ->].
  destruct (dispatch _ _ _) as [[[status_code status_text] body]|e2];
    [|by injection Hraises as ->].
  by rewrite Hraises.
Qed.

(** X4: when the parser raises on a
    decodable request (a [ValueError] of [urlsplit]) that is logged, the
    handler writes no page; when the [print] of its [except Exception]
    clause returns, it writes the 500 response and closes, whether or not
    that write succeeds. *)
Theorem handle_client_unparsable_target
    (env : environment) (client_socket : socket) (address : str * Z)
    (data : bytes) (request : str) (e : exn) :
  recv_result client_socket = Returns data →
  decode strict data = Returns request →
  request_logged env address request →
  parse_http_request (env_lib env) request = Raises e →
  failure_print env address e = Returns () →
  (handle_client env client_socket address []).2
  = [Recv BUFFER_SIZE; Sendall internal_error_response; Close].
Proof.
  intros Hrecv Hdecode Hlogged Hparse Hprint.
  pose proof (parse_http_request_Raises _ _ _ Hparse) as ->.
  rewrite (handle_client_recovers env client_socket address ValueError
             [Recv BUFFER_SIZE]).
  - unfold recovery_of. by rewrite Hprint.
  - eapply request_block_raises; try done.
    + intros ->. injection Hdecode as <-. done.
    + by rewrite Hparse.
Qed.

Lemma handle_client_unparsable_target_witness :
  (handle_client no_services
     (socket_with (bytes_lit "GET //[ HTTP/1.1" ++ CRLF_bytes))
     local_client []).2
  = [Recv BUFFER_SIZE; Sendall internal_error_response; Close].
Proof.
  apply (handle_client_unparsable_target no_services
           (socket_with (bytes_lit "GET //[ HTTP/1.1" ++ CRLF_bytes))
           local_client
           (bytes_lit "GET //[ HTTP/1.1" ++ CRLF_bytes)
           (ascii_lit "GET //[ HTTP/1.1" ++ CRLF) ValueError).
  - reflexivity.
  - reflexivity.
  - by repeat split.
  - by vm_compute.
  - reflexivity.
Defined.

Lemma create_search_response :
  create_http_response 200 (ascii_lit "OK") get_search_movies
  = Returns search_response.
Proof. by vm_compute. Qed.

(** X5: a request whose path is [/] is
    answered, once the log lines about it are printed, 200 OK with the
    index page, one whose path is [/movies] 200 OK with the search page,
    whatever the method, the query and the rest of the request.  When the
    write and the [print] after it succeed, only the [close] follows. *)
Theorem handle_client_static_pages
    (env : environment) (client_socket : socket) (address : str * Z)
    (data : bytes) (request method path : str)
    (params : gmap str (list str)) :
  recv_result client_socket = Returns data →
  data ≠ [] →
  decode strict data = Returns request →
  request_logged env address request →
  parse_http_request (env_lib env) request = Returns (method, path, params) →
  (path = ascii_lit "/" →
   ∃ recovery,
     (handle_client env client_socket address []).2
     = [Recv BUFFER_SIZE; Sendall index_response] ++ recovery ++ [Close]
     ∧ (sendall_result client_socket 0 index_response = Returns () →
        answer_logged env address →
        recovery = []))
  ∧ (path = ascii_lit "/movies" →
     ∃ recovery,
       (handle_client env client_socket address []).2
       = [Recv BUFFER_SIZE; Sendall search_response] ++ recovery ++ [Close]
       ∧ (sendall_result client_socket 0 search_response = Returns () →
          answer_logged env address →
          recovery = [])).
Proof.
  intros Hrecv Hdata Hdecode Hlogged Hparse. split; intros ->.
  - exact (handle_client_writes env client_socket address data request
             method _ params _ _ _ index_response Hrecv Hdata Hdecode
             Hlogged Hparse eq_refl create_index_response).
  - exact (handle_client_writes env client_socket address data request
             method _ params _ _ _ search_response Hrecv Hdata Hdecode
             Hlogged Hparse eq_refl create_search_response).
Qed.

Lemma handle_client_static_pages_witness :
  ∃ recovery,
    (handle_client no_services
       (socket_with (bytes_lit "POST /movies?q=1 HTTP/1.0" ++ CRLF_bytes))
       local_client []).2
    = [Recv BUFFER_SIZE; Sendall search_response] ++ recovery ++ [Close]
    ∧ (sendall_result
         (socket_with (bytes_lit "POST /movies?q=1 HTTP/1.0" ++ CRLF_bytes))
         0 search_response = Returns () →
       answer_logged no_services local_client →
       recovery = []).
Proof.
  refine (proj2 (handle_client_static_pages no_services
           (socket_with (bytes_lit "POST /movies?q=1 HTTP/1.0" ++ CRLF_bytes))
           local_client
           (bytes_lit "POST /movies?q=1 HTTP/1.0" ++ CRLF_bytes)
           (ascii_lit "POST /movies?q=1 HTTP/1.0" ++ CRLF)
           (ascii_lit "POST") (ascii_lit "/movies")
           {[ ascii_lit "q" := [ascii_lit "1"] ]} _ _ _ _ _) _).
  - reflexivity.
  - discriminate.
  - reflexivity.
  - by repeat split.
  - by vm_compute.
  - reflexivity.
Defined.

(** ** The response, read back *)

Lemma code_point_of_byte (bs : bytes) : Forall is_code_point (Byte.to_N <$> bs).
Proof.
  apply Forall_fmap, Forall_forall. intros b _. simpl. unfold is_code_point.
  pose proof (Byte.to_N_bounded b). lia.
Qed.

Lemma create_http_response_text
    (status_code : Z) (status_text body : str) (response : bytes) :
  create_http_response status_code status_text body = Returns response →
  encode (response_text status_code status_text body) = Returns response.
Proof.
  unfold create_http_response, response_text, encoded.
  destruct (str_of_int_cases status_code) as [[_ ->]|[_ ->]]; [|done].
  cbn [mbind outcome_bind].
  destruct (encode body) as [body_bytes|] eqn:Hbody; [|done].
  cbn [mbind outcome_bind].
  match goal with
  | |- encode ?h ≫= _ = _ → _ =>
      destruct (encode h) as [head_bytes|] eqn:Hhead; [|done]
  end.
  cbn [mbind outcome_bind]. intros [= <-].
  rewrite <- (encode_app_Returns _ _ _ _ Hhead Hbody).
  f_equal. by rewrite <- !(assoc_L (++)).
Qed.

(** X9: the bytes of a response are valid
    UTF-8, as its header says: decoded, they give back the status line, the
    header lines, the blank line and the body as they were put in. *)
Theorem create_http_response_decodes
    (status_code : Z) (status_text body : str) (response : bytes) :
  Forall is_code_point status_text →
  Forall is_code_point body →
  create_http_response status_code status_text body = Returns response →
  decode strict response
  = Returns (response_text status_code status_text body).
Proof.
  intros Htext Hbody Hcreate%create_http_response_text.
  apply decode_encode; [|done].
  unfold response_text, decimal, ascii_lit, CRLF.
  rewrite !Forall_app.
  repeat split; try done; try apply code_point_of_byte;
    by repeat constructor.
Qed.

Lemma create_http_response_decodes_witness :
  decode strict
    (bytes_lit "HTTP/1.1 404 Not Found" ++ CRLF_bytes
     ++ bytes_lit "Content-Type: text/html; charset=utf-8" ++ CRLF_bytes
     ++ bytes_lit "Content-Length: 3" ++ CRLF_bytes
     ++ bytes_lit "Connection: close" ++ CRLF_bytes ++ CRLF_bytes
     ++ bytes_lit "Жa")
  = Returns (response_text 404 (ascii_lit "Not Found") (lit "Жa")).
Proof.
  apply (create_http_response_decodes 404 (ascii_lit "Not Found")
           (lit "Жa")).
  - by_evaluation.
  - by_evaluation.
  - reflexivity.
Defined.

Lemma byte_of_N_x0d (n : N) : byte_of_N n = Byte.x0d → n = CR.
Proof.
  unfold byte_of_N. destruct (Byte.of_N n) as [b|] eqn:Hb; simpl; [|done].
  intros ->. by apply Byte.to_of_N in Hb.
Qed.

Section carriage_return.
Local Open Scope N_scope.

Lemma utf8_encode_char_x0d (c : N) (bs : bytes) :
  utf8_encode_char c = Some bs → Byte.x0d ∈ bs → c = CR.
Proof.
  unfold utf8_encode_char.
  destruct (utf8_bits c)
    as (q6 & q12 & q18 & a0 & a6 & a12 & -> & -> & -> & -> & -> & ->
        & E0 & E6 & E12 & B0 & B6 & B12).
  intros Hbs Hin. repeat case_match; try done; injection Hbs as <-;
    bool_to_prop.
  all: repeat (apply elem_of_cons in Hin as [Hin|Hin];
               [symmetry in Hin; apply byte_of_N_x0d in Hin;
                unfold CR in *; lia|]).
  all: by apply elem_of_nil in Hin.
Qed.

Lemma encode_x0d (s : str) (b : bytes) :
  encode s = Returns b → CR ∉ s → Byte.x0d ∉ b.
Proof.
  revert b. induction s as [|c s IH]; intros b; simpl.
  { intros [= <-] _. apply not_elem_of_nil. }
  destruct (utf8_encode_char c) as [bs|] eqn:Hbs; [|done].
  intros (b' & Hb' & ->)%fmap_Returns [Hc Hs]%not_elem_of_cons.
  rewrite not_elem_of_app. split; [|by apply IH].
  intros Hin. apply Hc. symmetry. by eapply utf8_encode_char_x0d.
Qed.

Lemma string_of_uint_x0d (d : Decimal.uint) :
  Forall (λ b, b ≠ Byte.x0d)
    (String.list_byte_of_string (NilEmpty.string_of_uint d)).
Proof.
  induction d; simpl; try (constructor; [done|done]).
  constructor.
Qed.

Lemma decimal_bytes_x0d (n : Z) : Byte.x0d ∉ decimal_bytes n.
Proof.
  assert (Forall (λ b, b ≠ Byte.x0d) (decimal_bytes n)) as Hall.
  { unfold decimal_bytes, NilZero.string_of_int, NilZero.string_of_uint.
    destruct (Z.to_int n) as [d|d]; simpl.
    - destruct d; try apply (string_of_uint_x0d (_ d));
        repeat (constructor; [done|]); constructor.
    - constructor; [done|].
      destruct d; try apply (string_of_uint_x0d (_ d));
        repeat (constructor; [done|]); constructor. }
  intros Hin. rewrite Forall_forall in Hall. by apply (Hall _ Hin).
Qed.

Lemma create_http_response_lines_of
    (status_code : Z) (text_bytes body_bytes : bytes) :
  Byte.x0d ∉ text_bytes →
  split_str CRLF_bytes (wire_format status_code text_bytes body_bytes)
  = response_head status_code text_bytes body_bytes
    ++ [] :: split_str CRLF_bytes body_bytes.
Proof.
  intros Htext. unfold wire_format, response_head, CRLF_bytes.
  set (l1 := bytes_lit "HTTP/1.1 " ++ decimal_bytes status_code
             ++ bytes_lit " " ++ text_bytes).
  set (l3 := bytes_lit "Content-Length: "
             ++ decimal_bytes (Z.of_nat (length body_bytes))).
  replace (bytes_lit "HTTP/1.1 " ++ decimal_bytes status_code
           ++ bytes_lit " " ++ text_bytes ++ [Byte.x0d; Byte.x0a]
           ++ bytes_lit "Content-Type: text/html; charset=utf-8"
           ++ [Byte.x0d; Byte.x0a]
           ++ bytes_lit "Content-Length: "
           ++ decimal_bytes (Z.of_nat (length body_bytes))
           ++ [Byte.x0d; Byte.x0a]
           ++ bytes_lit "Connection: close" ++ [Byte.x0d; Byte.x0a]
           ++ [Byte.x0d; Byte.x0a] ++ body_bytes)
    with (l1 ++ Byte.x0d :: [Byte.x0a]
          ++ (bytes_lit "Content-Type: text/html; charset=utf-8"
              ++ Byte.x0d :: [Byte.x0a]
              ++ (l3 ++ Byte.x0d :: [Byte.x0a]
                  ++ (bytes_lit "Connection: close"
                      ++ Byte.x0d :: [Byte.x0a]
                      ++ ([] ++ Byte.x0d :: [Byte.x0a] ++ body_bytes)))))
    by (subst l1 l3; by rewrite <- !(assoc_L (++))).
  assert (Byte.x0d ∉ l1) as H1.
  { subst l1. rewrite !not_elem_of_app.
    repeat split; [by_evaluation|apply decimal_bytes_x0d|by_evaluation|done]. }
  assert (Byte.x0d ∉ l3) as H3.
  { subst l3. rewrite !not_elem_of_app.
    split; [by_evaluation|apply decimal_bytes_x0d]. }
  rewrite !(split_str_first Byte.x0d [Byte.x0a]);
    first [done | by_evaluation | apply not_elem_of_nil].
Qed.

End carriage_return.

(** A response that is built has the wire format of its encoded parts. *)
Lemma create_http_response_Returns
    (status_code : Z) (status_text body : str) (response : bytes) :
  create_http_response status_code status_text body = Returns response →
  encode status_text = Returns (encoded status_text)
  ∧ encode body = Returns (encoded body)
  ∧ response
    = wire_format status_code (encoded status_text) (encoded body).
Proof.
  intros Hcreate.
  pose proof (create_http_response_text _ _ _ _ Hcreate) as Htext.
  assert (within_str_digits status_code) as Hcode.
  { destruct (str_of_int_cases status_code) as [[Hcode _]|[_ Hraises]];
      [done|].
    unfold create_http_response in Hcreate. by rewrite Hraises in Hcreate. }
  assert (Forall (λ c, ¬ is_surrogate c) status_text
          ∧ Forall (λ c, ¬ is_surrogate c) body) as [Ht Hb].
  { assert (Forall (λ c, ¬ is_surrogate c)
              (response_text status_code status_text body)) as Hall
      by (apply encode_Returns_iff; by eexists).
    unfold response_text in Hall. rewrite !Forall_app in Hall.
    split; apply Hall. }
  rewrite create_http_response_encoded in Hcreate by done.
  injection Hcreate as <-. by rewrite !encoded_Returns.
Qed.

(** X10: cut at its line ends, a response built
    with a status text without carriage return is the status line, the
    three header lines [Content-Type], [Content-Length] (the number of
    bytes of the body) and [Connection], one empty line, and then the
    lines of the body: a body or a status code cannot add or end a header
    line. *)
Theorem create_http_response_lines
    (status_code : Z) (status_text body : str) (response : bytes) :
  CR ∉ status_text →
  create_http_response status_code status_text body = Returns response →
  split_str CRLF_bytes response
  = response_head status_code (encoded status_text) (encoded body)
    ++ [] :: split_str CRLF_bytes (encoded body).
Proof.
  intros Htext (Ht & _ & ->)%create_http_response_Returns.
  apply create_http_response_lines_of. by eapply encode_x0d.
Qed.

Lemma create_http_response_lines_witness :
  split_str CRLF_bytes
    (bytes_lit "HTTP/1.1 200 OK" ++ CRLF_bytes
     ++ bytes_lit "Content-Type: text/html; charset=utf-8" ++ CRLF_bytes
     ++ bytes_lit "Content-Length: 6" ++ CRLF_bytes
     ++ bytes_lit "Connection: close" ++ CRLF_bytes ++ CRLF_bytes
     ++ bytes_lit "a" ++ CRLF_bytes ++ CRLF_bytes ++ bytes_lit "b")
  = [bytes_lit "HTTP/1.1 200 OK";
     bytes_lit "Content-Type: text/html; charset=utf-8";
     bytes_lit "Content-Length: 6";
     bytes_lit "Connection: close";
     [];
     bytes_lit "a"; []; bytes_lit "b"].
Proof.
  apply (create_http_response_lines 200 (ascii_lit "OK")
           (ascii_lit "a" ++ CRLF ++ CRLF ++ ascii_lit "b")).
  - by_evaluation.
  - reflexivity.
Defined.

(** ** What the parser returns *)

(** X11: the method and the path the parser
    returns are contiguous pieces of the request text, so neither is
    decoded, unescaped or normalised; they hold no whitespace, and the path
    holds no [?] and no [#]. *)
Theorem parse_http_request_verbatim
    (lib : stdlib) (request method path : str)
    (params : gmap str (list str)) :
  parse_http_request lib request = Returns (method, path, params) →
  substring method request ∧ substring path request
  ∧ no_whitespace method ∧ no_whitespace path
  ∧ ("?"%chr ∉ path) ∧ ("#"%chr ∉ path).
Proof.
  unfold parse_http_request.
  pose proof (split_str_hd_prefix CRLF request) as Hline%substring_prefix.
  assert (∀ s : str, substring [] s ∧ substring [] s
            ∧ no_whitespace [] ∧ no_whitespace []
            ∧ ("?"%chr ∉ []) ∧ ("#"%chr ∉ [])) as Hsentinel.
  { intros s. repeat split; try apply substring_nil; try constructor;
      apply not_elem_of_nil. }
  destruct (split_str CRLF request) as [|line ?];
    [by intros [= <- <- <-]|].
  cbn [hd] in Hline.
  pose proof (split_whitespace_tokens line) as Htokens.
  pose proof (proj1 (split_whitespace_pieces line)) as Hpieces.
  destruct (split_whitespace line) as [|m [|full_path ?]];
    try by intros [= <- <- <-].
  apply Forall_cons in Htokens as [[_ Hm] Htokens].
  apply Forall_cons in Htokens as [[_ Ht] _].
  apply Forall_cons in Hpieces as [Hpm Hpieces].
  apply Forall_cons in Hpieces as [Hpt _].
  destruct (urlparse lib full_path) as [parsed_url|] eqn:Hparse; [|done].
  apply urlparse_pieces in Hparse as (Hpath & _ & H1 & H2 & _); [|done].
  cbn [mbind outcome_bind].
  destruct (parse_qs (query parsed_url)); [|done].
  intros [= <- <- <-].
  repeat split; try done.
  - by eapply substring_trans.
  - eapply substring_trans; [exact Hpath|]. by eapply substring_trans.
  - by eapply substring_Forall.
Qed.

Lemma parse_http_request_verbatim_witness :
  parse_http_request no_addresses
    (ascii_lit "GET /a%20b/../c?x=1#top HTTP/1.1" ++ CRLF)
  = Returns (ascii_lit "GET", ascii_lit "/a%20b/../c",
             {[ ascii_lit "x" := [ascii_lit "1"] ]})
  ∧ substring (ascii_lit "GET")
      (ascii_lit "GET /a%20b/../c?x=1#top HTTP/1.1" ++ CRLF)
  ∧ substring (ascii_lit "/a%20b/../c")
      (ascii_lit "GET /a%20b/../c?x=1#top HTTP/1.1" ++ CRLF)
  ∧ no_whitespace (ascii_lit "GET") ∧ no_whitespace (ascii_lit "/a%20b/../c")
  ∧ ("?"%chr ∉ ascii_lit "/a%20b/../c") ∧ ("#"%chr ∉ ascii_lit "/a%20b/../c").
Proof.
  assert (parse_http_request no_addresses
            (ascii_lit "GET /a%20b/../c?x=1#top HTTP/1.1" ++ CRLF)
          = Returns (ascii_lit "GET", ascii_lit "/a%20b/../c",
                     {[ ascii_lit "x" := [ascii_lit "1"] ]})) as Hparse
    by by vm_compute.
  split; [exact Hparse|].
  exact (parse_http_request_verbatim _ _ _ _ _ Hparse).
Defined.

(** X12: the parser returns the sentinel (empty
    method, empty path, empty mapping) when the request line has fewer than
    two tokens; otherwise the method is the first token, which is not
    empty.  So an empty method tells the sentinel from a parsed request; an
    empty path does not (the target [?a=1] has one). *)
Theorem parse_http_request_sentinel
    (lib : stdlib) (request method path : str)
    (params : gmap str (list str)) :
  parse_http_request lib request = Returns (method, path, params) →
  ((length (split_whitespace (request_line request)) < 2)%nat
   ∧ method = [] ∧ path = [] ∧ params = ∅)
  ∨ ((2 ≤ length (split_whitespace (request_line request)))%nat
     ∧ token method
     ∧ head (split_whitespace (request_line request)) = Some method).
Proof.
  unfold parse_http_request, request_line.
  destruct (split_str CRLF request) as [|line ?];
    [intros [= <- <- <-]; left; simpl; repeat split; try done; lia|].
  cbn [hd].
  pose proof (split_whitespace_tokens line) as Htokens.
  destruct (split_whitespace line) as [|m [|target rest]];
    try (intros [= <- <- <-]; left; simpl; repeat split; try done; lia).
  apply Forall_cons in Htokens as [Hm _].
  destruct (urlparse lib target) as [parsed_url|]; [|done].
  cbn [mbind outcome_bind].
  destruct (parse_qs (query parsed_url)); [|done].
  intros [= <- <- <-]. right. simpl. split; [lia|done].
Qed.

Lemma parse_http_request_sentinel_witness :
  ((length (split_whitespace
              (request_line (ascii_lit "GET ?a=1 HTTP/1.1" ++ CRLF))) < 2)%nat
   ∧ ascii_lit "GET" = [] ∧ (@nil N) = []
   ∧ ({[ ascii_lit "a" := [ascii_lit "1"] ]} : gmap str (list str)) = ∅)
  ∨ ((2 ≤ length (split_whitespace
                    (request_line (ascii_lit "GET ?a=1 HTTP/1.1" ++ CRLF))))%nat
     ∧ token (ascii_lit "GET")
     ∧ head (split_whitespace
               (request_line (ascii_lit "GET ?a=1 HTTP/1.1" ++ CRLF)))
       = Some (ascii_lit "GET")).
Proof.
  apply (parse_http_request_sentinel no_addresses
           (ascii_lit "GET ?a=1 HTTP/1.1" ++ CRLF) (ascii_lit "GET") []
           {[ ascii_lit "a" := [ascii_lit "1"] ]}).
  by vm_compute.
Defined.

Lemma split_str_hd_idem {A} `{EqDecision A} (sep s : list A) :
  hd [] (split_str sep (hd [] (split_str sep s))) = hd [] (split_str sep s).
Proof.
  unfold split_str. induction s as [|x s IH]; [done|].
  cbn [split_str_from]. case_bool_decide as Hsep; [done|].
  pose proof (split_str_hd_prefix sep s) as Hprefix.
  unfold split_str in Hprefix. cbn [hd].
  cbn [split_str_from]. rewrite bool_decide_eq_false_2.
  - cbn [hd]. by rewrite IH.
  - intros Hsep'. apply Hsep. etrans; [exact Hsep'|]. by apply prefix_cons.
Qed.

(** X13: only the first line of a request is
    looked at: the parser returns for a request what it returns for its
    request line alone, so header lines and a body never change the
    result, nor add to what it can raise. *)
Theorem parse_http_request_first_line (lib : stdlib) (request : str) :
  parse_http_request lib request
  = parse_http_request lib (request_line request).
Proof.
  unfold parse_http_request, request_line.
  pose proof (split_str_hd_idem CRLF request) as Hidem.
  destruct (split_str CRLF request) as [|line ?] eqn:Hsplit;
    [by apply split_str_nonempty in Hsplit|].
  cbn [hd] in *.
  destruct (split_str CRLF line) as [|line' ?] eqn:Hsplit';
    [by apply split_str_nonempty in Hsplit'|].
  cbn [hd] in Hidem. by subst line'.
Qed.

(** ** The content handlers, seen from [handle_client] *)


Lemma dispatch_content_handler (env : environment) (path : str)
    (params : gmap str (list str))
    (handler : gmap str (list str) → outcome str) :
  content_handler env path = Some handler →
  dispatch env path params
  = response_body ← handler params;
    Returns (200%Z, ascii_lit "OK", response_body).
Proof.
  unfold content_handler, dispatch.
  repeat case_bool_decide; subst; try done; by intros [= <-].
Qed.

Lemma content_handler_path (env : environment) (path : str)
    (handler : gmap str (list str) → outcome str) :
  content_handler env path = Some handler → path ≠ [].
Proof. unfold content_handler. by repeat case_bool_decide; subst. Qed.

(** X6: the page a content handler returns for
    a request for [/exchange] or [/movie], once the log lines about the
    request are printed, is sent as it is with status 200 OK, whatever it
    says: the handler does not look into it.  When the write and the
    [print] after it succeed, only the [close] follows. *)
Theorem handle_client_content_page
    (env : environment) (client_socket : socket) (address : str * Z)
    (data : bytes) (request method path : str)
    (params : gmap str (list str))
    (handler : gmap str (list str) → outcome str) (body : str) :
  recv_result client_socket = Returns data →
  decode strict data = Returns request →
  request_logged env address request →
  parse_http_request (env_lib env) request = Returns (method, path, params) →
  content_handler env path = Some handler →
  handler params = Returns body →
  Forall (λ c, ¬ is_surrogate c) body →
  ∃ recovery,
    (handle_client env client_socket address []).2
    = [Recv BUFFER_SIZE;
       Sendall (wire_format 200 (bytes_lit "OK") (encoded body))]
      ++ recovery ++ [Close]
    ∧ (sendall_result client_socket 0
         (wire_format 200 (bytes_lit "OK") (encoded body)) = Returns () →
       answer_logged env address →
       recovery = []).
Proof.
  intros Hrecv Hdecode Hlogged Hparse Hhandler Hbody Hencodable.
  eapply handle_client_writes; try done.
  - eapply received_nothing_parsed; [done..|].
    by eapply content_handler_path.
  - rewrite (dispatch_content_handler _ _ _ _ Hhandler), Hbody. done.
  - rewrite create_http_response_encoded;
      [done|apply within_str_digits_200| |done].
    apply encode_Returns_iff. by eexists.
Qed.

Lemma handle_client_content_page_witness :
  ∃ recovery,
    (handle_client
       {| env_lib := no_addresses;
          handle_exchange_request := λ _, Returns (lit "<p>курс</p>");
          handle_movie_request := λ _, Raises OSError;
          env_console := quiet_console |}
       (socket_with (bytes_lit "GET /exchange HTTP/1.1" ++ CRLF_bytes))
       local_client []).2
    = [Recv BUFFER_SIZE;
       Sendall (wire_format 200 (bytes_lit "OK")
                  (encoded (lit "<p>курс</p>")))]
      ++ recovery ++ [Close]
    ∧ (sendall_result
         (socket_with (bytes_lit "GET /exchange HTTP/1.1" ++ CRLF_bytes))
         0 (wire_format 200 (bytes_lit "OK") (encoded (lit "<p>курс</p>")))
       = Returns () →
       answer_logged
         {| env_lib := no_addresses;
            handle_exchange_request := λ _, Returns (lit "<p>курс</p>");
            handle_movie_request := λ _, Raises OSError;
            env_console := quiet_console |}
         local_client →
       recovery = []).
Proof.
  apply (handle_client_content_page
           {| env_lib := no_addresses;
              handle_exchange_request := λ _, Returns (lit "<p>курс</p>");
              handle_movie_request := λ _, Raises OSError;
              env_console := quiet_console |}
           (socket_with (bytes_lit "GET /exchange HTTP/1.1" ++ CRLF_bytes))
           local_client
           (bytes_lit "GET /exchange HTTP/1.1" ++ CRLF_bytes)
           (ascii_lit "GET /exchange HTTP/1.1" ++ CRLF)
           (ascii_lit "GET") (ascii_lit "/exchange") ∅
           (λ _, Returns (lit "<p>курс</p>"))).
  - reflexivity.
  - reflexivity.
  - by repeat split.
  - by vm_compute.
  - reflexivity.
  - reflexivity.
  - apply encode_Returns_iff. eexists. vm_compute. reflexivity.
Defined.

(** X7: when the content handler of a
    logged request for [/exchange] or [/movie] raises, the handler writes no
    page.  The [except] clause that catches the exception prints first:
    when that [print] returns, the handler answers with the response of the
    clause (400 for a [UnicodeDecodeError], 500 for another exception of
    class [Exception]); it writes nothing when the [print] raises, or when
    no clause catches the exception.  Then it closes. *)
Theorem handle_client_content_failure
    (env : environment) (client_socket : socket) (address : str * Z)
    (data : bytes) (request method path : str)
    (params : gmap str (list str))
    (handler : gmap str (list str) → outcome str) (e : exn) :
  recv_result client_socket = Returns data →
  decode strict data = Returns request →
  request_logged env address request →
  parse_http_request (env_lib env) request = Returns (method, path, params) →
  content_handler env path = Some handler →
  handler params = Raises e →
  ∃ recovery,
    (handle_client env client_socket address []).2
    = [Recv BUFFER_SIZE] ++ recovery ++ [Close]
    ∧ (failure_print env address e = Returns () →
       recovery = from_option (λ response, [Sendall response]) []
                    (error_response e))
    ∧ (∀ e', failure_print env address e = Raises e' → recovery = []).
Proof.
  intros Hrecv Hdecode Hlogged Hparse Hhandler Hfail.
  exists (recovery_of env address e). split.
  - apply handle_client_recovers.
    eapply request_block_raises; try done.
    + eapply received_nothing_parsed; [done..|].
      by eapply content_handler_path.
    + rewrite Hparse. cbn [mbind outcome_bind].
      by rewrite (dispatch_content_handler _ _ _ _ Hhandler), Hfail.
  - unfold recovery_of. split.
    + by intros ->.
    + by intros e' ->.
Qed.

Lemma handle_client_content_failure_witness :
  ∃ recovery,
    (handle_client no_services
       (socket_with (bytes_lit "GET /exchange HTTP/1.1" ++ CRLF_bytes))
       local_client []).2
    = [Recv BUFFER_SIZE] ++ recovery ++ [Close]
    ∧ (failure_print no_services local_client OSError = Returns () →
       recovery = from_option (λ response, [Sendall response]) []
                    (error_response OSError))
    ∧ (∀ e', failure_print no_services local_client OSError = Raises e' →
             recovery = []).
Proof.
  apply (handle_client_content_failure no_services
           (socket_with (bytes_lit "GET /exchange HTTP/1.1" ++ CRLF_bytes))
           local_client
           (bytes_lit "GET /exchange HTTP/1.1" ++ CRLF_bytes)
           (ascii_lit "GET /exchange HTTP/1.1" ++ CRLF)
           (ascii_lit "GET") (ascii_lit "/exchange") ∅
           (handle_exchange_request no_services) OSError).
  - reflexivity.
  - reflexivity.
  - by repeat split.
  - by vm_compute.
  - reflexivity.
  - reflexivity.
Defined.

(** A body with a surrogate stops [create_http_response] where it encodes
    the body to count its bytes. *)
Lemma create_http_response_surrogate
    (status_code : Z) (status_text body : str) :
  within_str_digits status_code →
  Exists is_surrogate body →
  create_http_response status_code status_text body
  = Raises UnicodeEncodeError.
Proof.
  intros Hcode Hbody. unfold create_http_response.
  rewrite (str_of_int_Returns _ Hcode). cbn [mbind outcome_bind].
  destruct (encode body) as [body_bytes|e] eqn:Hencode.
  - assert (Forall (λ c, ¬ is_surrogate c) body) as Hall
      by (apply encode_Returns_iff; by eexists).
    apply Exists_exists in Hbody as (c & Hc & Hs).
    rewrite Forall_forall in Hall. by destruct (Hall c Hc).
  - by rewrite (encode_Raises _ _ Hencode).
Qed.

(** X8: when the page a content handler
    returns for a logged request holds a lone surrogate (a remote service
    can put one in the text it answers), no response can be built from it:
    [create_http_response] raises [UnicodeEncodeError], and the handler,
    when the [print] of its [except Exception] clause returns, answers 500
    Internal Server Error instead. *)
Theorem handle_client_content_unencodable
    (env : environment) (client_socket : socket) (address : str * Z)
    (data : bytes) (request method path : str)
    (params : gmap str (list str))
    (handler : gmap str (list str) → outcome str) (body : str) :
  recv_result client_socket = Returns data →
  decode strict data = Returns request →
  request_logged env address request →
  parse_http_request (env_lib env) request = Returns (method, path, params) →
  content_handler env path = Some handler →
  handler params = Returns body →
  Exists is_surrogate body →
  failure_print env address UnicodeEncodeError = Returns () →
  (handle_client env client_socket address []).2
  = [Recv BUFFER_SIZE; Sendall internal_error_response; Close].
Proof.
  intros Hrecv Hdecode Hlogged Hparse Hhandler Hbody Hsurrogate Hprint.
  rewrite (handle_client_recovers env client_socket address
             UnicodeEncodeError [Recv BUFFER_SIZE]).
  - unfold recovery_of. by rewrite Hprint.
  - eapply request_block_raises; try done.
    + eapply received_nothing_parsed; [done..|].
      by eapply content_handler_path.
    + rewrite Hparse. cbn [mbind outcome_bind].
      rewrite (dispatch_content_handler _ _ _ _ Hhandler), Hbody.
      cbn [mbind outcome_bind].
      by rewrite create_http_response_surrogate;
        [|apply within_str_digits_200|].
Qed.

Lemma handle_client_content_unencodable_witness :
  (handle_client
     {| env_lib := no_addresses;
        handle_exchange_request := λ _, Raises OSError;
        handle_movie_request := λ _, Returns [0xD83D%N];
        env_console := quiet_console |}
     (socket_with (bytes_lit "GET /movie?title=x HTTP/1.1" ++ CRLF_bytes))
     local_client []).2
  = [Recv BUFFER_SIZE; Sendall internal_error_response; Close].
Proof.
  apply (handle_client_content_unencodable
           {| env_lib := no_addresses;
              handle_exchange_request := λ _, Raises OSError;
              handle_movie_request := λ _, Returns [0xD83D%N];
              env_console := quiet_console |}
           (socket_with
              (bytes_lit "GET /movie?title=x HTTP/1.1" ++ CRLF_bytes))
           local_client
           (bytes_lit "GET /movie?title=x HTTP/1.1" ++ CRLF_bytes)
           (ascii_lit "GET /movie?title=x HTTP/1.1" ++ CRLF)
           (ascii_lit "GET") (ascii_lit "/movie")
           {[ ascii_lit "title" := [ascii_lit "x"] ]}
           (λ _, Returns [0xD83D%N]) [0xD83D%N]).
  - reflexivity.
  - reflexivity.
  - by repeat split.
  - by vm_compute.
  - reflexivity.
  - reflexivity.
  - apply Exists_cons_hd. unfold is_surrogate. lia.
  - reflexivity.
Defined.
(** * The content handlers and main *)

(** ** quote and unquote *)

Lemma lstrip_nil {A} `{EqDecision A} (chars s : list A) :
  lstrip chars s = [] ↔ Forall (λ c, c ∈ chars) s.
Proof.
  induction s as [|c s IH]; simpl; [by split; [constructor|]|].
  case_bool_decide as Hc.
  - rewrite IH, Forall_cons. by split; [|intros [_ ?]].
  - split; [done|]. by intros [? _]%Forall_cons.
Qed.

Lemma rstrip_nil {A} `{EqDecision A} (chars s : list A) :
  rstrip chars s = [] ↔ Forall (λ c, c ∈ chars) s.
Proof.
  unfold rstrip. rewrite <- (reverse_involutive []) at 1.
  rewrite (inj_iff reverse), reverse_nil, lstrip_nil.
  by rewrite Forall_reverse.
Qed.

Lemma decode_ascii (errors : error_handler) (bs : bytes) :
  ascii_bytes bs → decode errors bs = Returns (Byte.to_N <$> bs).
Proof.
  intros Hbs. apply decode_encode; [apply code_point_of_byte|].
  by apply encode_ascii.
Qed.

Lemma hex_digit_byte (b : Byte.byte) :
  _hextobyte [byte_of_N (hex_digit (Byte.to_N b / 16));
              byte_of_N (hex_digit (Byte.to_N b mod 16))] = Some b
  ∧ byte_of_N (hex_digit (Byte.to_N b / 16)) ≠ "%"%byte
  ∧ byte_of_N (hex_digit (Byte.to_N b mod 16)) ≠ "%"%byte.
Proof. by destruct b. Qed.

Lemma split_cons_other {A} `{EqDecision A} (c x : A) (s : list A) :
  x ≠ c →
  split c None (x :: s)
  = (x :: hd [] (split c None s)) :: tl (split c None s).
Proof.
  intros Hx. cbn [split].
  by rewrite bool_decide_eq_false_2 by (intros [? _]; congruence).
Qed.

Lemma split_cons_sep {A} `{EqDecision A} (c : A) (s : list A) :
  split c None (c :: s) = [] :: split c None s.
Proof. cbn [split]. by rewrite bool_decide_eq_true_2 by done. Qed.

Lemma slice_from_two {A} (x y : A) (s : list A) :
  slice_from (x :: y :: s) 2 = s.
Proof.
  unfold slice_from. rewrite slice_index_nonneg by done.
  change (Z.to_nat 2) with 2%nat. cbn [length].
  by rewrite Nat.min_l by lia.
Qed.

Lemma unescaped_quoted_bytes (safe bs : bytes) :
  "%"%byte ∉ safe →
  unescaped (split "%"%byte None (quoted_bytes safe bs)) = bs.
Proof.
  intros Hsafe. unfold quoted_bytes.
  induction bs as [|b bs IH]; [done|].
  rewrite fmap_cons, concat_cons.
  pose proof
    (split_nonempty "%"%byte None
       (concat ((λ b, if bool_decide (b ∈ _ALWAYS_SAFE_BYTES ++ safe)
                      then [b]
                      else ["%"%byte;
                            byte_of_N (hex_digit (Byte.to_N b / 16));
                            byte_of_N (hex_digit (Byte.to_N b mod 16))])
                  <$> bs))) as Hne.
  revert IH Hne.
  generalize
    (concat ((λ b, if bool_decide (b ∈ _ALWAYS_SAFE_BYTES ++ safe)
                   then [b]
                   else ["%"%byte;
                         byte_of_N (hex_digit (Byte.to_N b / 16));
                         byte_of_N (hex_digit (Byte.to_N b mod 16))])
               <$> bs)).
  intros rest IH Hne.
  destruct (split "%"%byte None rest) as [|p ps] eqn:Hsplit; [done|].
  unfold unescaped in IH. cbn [hd tl] in IH.
  destruct (hex_digit_byte b) as (Hhex & Hh & Hl).
  case_bool_decide as Hb.
  - cbn [app]. rewrite split_cons_other, Hsplit.
    + unfold unescaped. cbn [hd tl app]. by rewrite IH.
    + intros ->. apply elem_of_app in Hb as [Hb|Hb]; [|done].
      revert Hb. apply (bool_decide_unpack _). by vm_compute.
  - cbn [app]. rewrite split_cons_sep.
    rewrite split_cons_other by done.
    rewrite split_cons_other by done. rewrite Hsplit.
    unfold unescaped. cbn [hd tl app fmap list_fmap concat].
    rewrite slice_to_nonneg by done.
    change (Z.to_nat 2) with 2%nat. cbn [take]. rewrite take_0, Hhex.
    rewrite slice_from_two. cbn [app]. by rewrite IH.
Qed.

Lemma encode_quoted (safe bs : bytes) :
  ascii_bytes safe →
  encode (concat (_Quoter safe <$> bs)) = Returns (quoted_bytes safe bs).
Proof.
  intros Hsafe. unfold quoted_bytes.
  induction bs as [|b bs IH]; [done|].
  rewrite !fmap_cons, !concat_cons, encode_app, IH.
  unfold _Quoter. case_bool_decide as Hb.
  - assert ((Byte.to_N b < 0x80)%N) as Hascii.
    { apply elem_of_app in Hb as [Hb|Hb].
      - revert Hb. generalize b. apply Forall_forall.
        apply (bool_decide_unpack _). by vm_compute.
      - unfold ascii_bytes in Hsafe. rewrite Forall_forall in Hsafe. auto. }
    cbn [encode]. unfold utf8_encode_char.
    apply N.ltb_lt in Hascii. rewrite Hascii. simpl.
    by rewrite byte_of_to_N.
  - by destruct b.
Qed.

Lemma _asciire_split_ascii (s : str) :
  s ≠ [] → Forall (λ c, isascii c = true) s →
  _asciire_split s = [[]; s; []].
Proof.
  intros Hne Hs. induction Hs as [|c s Hc Hs IH]; [done|].
  cbn [_asciire_split]. rewrite Hc.
  destruct s as [|c' s]; [done|]. by rewrite IH.
Qed.

Lemma quoted_ascii (safe bs : bytes) :
  ascii_bytes safe →
  Forall (λ c, isascii c = true) (concat (_Quoter safe <$> bs)).
Proof.
  intros Hsafe. induction bs as [|b bs IH]; [constructor|].
  rewrite fmap_cons, concat_cons, Forall_app. split; [|done].
  unfold _Quoter. case_bool_decide as Hb.
  - repeat constructor. unfold isascii. apply N.ltb_lt.
    apply elem_of_app in Hb as [Hb|Hb].
    + revert Hb. generalize b. apply Forall_forall.
      apply (bool_decide_unpack _). by vm_compute.
    + unfold ascii_bytes in Hsafe. rewrite Forall_forall in Hsafe. auto.
  - destruct b; by repeat constructor.
Qed.

Lemma quoted_percent (safe bs : bytes) :
  ¬ Forall (λ b, b ∈ _ALWAYS_SAFE_BYTES ++ safe) bs →
  "%"%chr ∈ concat (_Quoter safe <$> bs).
Proof.
  induction bs as [|b bs IH]; [by intros []|].
  intros Hbs. rewrite fmap_cons, concat_cons, elem_of_app.
  unfold _Quoter at 1. case_bool_decide as Hb.
  - right. apply IH. intros Hall. apply Hbs. by constructor.
  - left. apply elem_of_cons. by left.
Qed.

Lemma quoted_alphabet (bs : bytes) :
  Forall (λ c, c ∈ quoted_characters) (concat (_Quoter ["/"%byte] <$> bs)).
Proof.
  induction bs as [|b bs IH]; [constructor|].
  rewrite fmap_cons, concat_cons, Forall_app. split; [|done].
  clear. destruct b; apply (bool_decide_unpack _); by vm_compute.
Qed.

Lemma encode_nil (s : str) : encode s = Returns [] → s = [].
Proof.
  destruct s as [|c s]; [done|]. simpl.
  destruct (utf8_encode_char c) as [bs|] eqn:Hbs; [|done].
  intros (b & _ & Hnil)%fmap_Returns. symmetry in Hnil.
  apply app_eq_nil in Hnil as [-> _].
  unfold utf8_encode_char in Hbs. by repeat case_match.
Qed.

Lemma to_N_inj (a b : Byte.byte) : Byte.to_N a = Byte.to_N b → a = b.
Proof. intros Hab. by rewrite <- (byte_of_to_N a), Hab, byte_of_to_N. Qed.

Lemma always_safe_ascii :
  Forall (λ b, (Byte.to_N b < 0x80)%N ∧ b ≠ "%"%byte
               ∧ Byte.to_N b ∈ quoted_characters)
    (_ALWAYS_SAFE_BYTES ++ ["/"%byte]).
Proof. apply (bool_decide_unpack _). by vm_compute. Qed.

Lemma unquote_to_bytes_quoted (bs : bytes) :
  "%"%chr ∈ concat (_Quoter ["/"%byte] <$> bs) →
  unquote_to_bytes (concat (_Quoter ["/"%byte] <$> bs)) = Returns bs.
Proof.
  intros Hpercent. unfold unquote_to_bytes.
  rewrite bool_decide_eq_false_2
    by (intros Hnil; rewrite Hnil in Hpercent;
        by apply elem_of_nil in Hpercent).
  rewrite encode_quoted by by repeat constructor.
  cbn [mbind outcome_bind].
  pose proof (unescaped_quoted_bytes ["/"%byte] bs) as Hun.
  assert ("%"%byte ∈ quoted_bytes ["/"%byte] bs) as Hin.
  { clear Hun. revert Hpercent. unfold quoted_bytes.
    induction bs as [|b bs IH]; [by intros ?%elem_of_nil|].
    rewrite !fmap_cons, !concat_cons, !elem_of_app.
    intros [Hb|Hbs]; [left|right; by apply IH].
    revert Hb. unfold _Quoter.
    case_bool_decide; [|intros _; apply elem_of_cons; by left].
    rewrite list_elem_of_singleton. intros Hb.
    assert (b = "%"%byte) as -> by by apply to_N_inj.
    apply elem_of_cons. by left. }
  destruct (split_present _ _ Hin) as (a & b & rs & Hsplit).
  rewrite Hsplit in Hun |- *. cbn [length].
  rewrite bool_decide_eq_false_2 by done.
  f_equal. apply Hun. by_evaluation.
Qed.

(** X14: [quote], which [handle_movie_request] applies to
    the title before it puts it in the URL of the film service, loses
    nothing: [unquote] gives the title back.  The quoted title is made of
    ASCII letters, digits and the characters [_.-~/%] only, so it holds no
    [&], [=], [#], [?] or blank that would change the URL around it. *)
Theorem quote_unquote (s q : str) :
  Forall is_code_point s → quote s = Returns q →
  unquote q = Returns s ∧ Forall (λ c, c ∈ quoted_characters) q.
Proof.
  intros Hs. unfold quote. case_bool_decide as Hempty.
  { intros [= <-]. subst s. by split; [|constructor]. }
  destruct (encode s) as [bs|] eqn:Hencode; [|done].
  cbn [mbind outcome_bind]. unfold quote_from_bytes.
  case_bool_decide as Hbs; [subst bs; by apply encode_nil in Hencode|].
  pose proof always_safe_ascii as Hsafe. rewrite Forall_forall in Hsafe.
  case_bool_decide as Hstrip.
  - apply rstrip_nil in Hstrip. rewrite Forall_forall in Hstrip.
    assert (ascii_bytes bs) as Hascii.
    { apply Forall_forall. intros b Hb. by apply Hsafe, Hstrip. }
    rewrite (decode_encode strict s bs) by done. intros [= <-].
    pose proof (decode_encode strict s bs Hs Hencode) as Hdecode.
    rewrite decode_ascii in Hdecode by done. injection Hdecode as <-.
    split.
    + unfold unquote. rewrite (proj2 (contains_false _ _)); [done|].
      intros (b & Hb & Hin)%list_elem_of_fmap.
      destruct (Hsafe b (Hstrip b Hin)) as (_ & Hne & _). apply Hne.
      by apply to_N_inj.
    + apply Forall_fmap, Forall_forall. intros b Hb. by apply Hsafe, Hstrip.
  - intros [= <-]. split; [|apply quoted_alphabet].
    assert ("%"%chr ∈ concat (_Quoter ["/"%byte] <$> bs)) as Hpercent.
    { apply quoted_percent. by rewrite <- rstrip_nil. }
    unfold unquote. rewrite (proj2 (contains_true _ _)) by done.
    cbn [negb]. rewrite _asciire_split_ascii; last first.
    { apply quoted_ascii. by repeat constructor. }
    { intros Hnil. rewrite Hnil in Hpercent.
      by apply elem_of_nil in Hpercent. }
    cbn [tl hd unquote_bits]. rewrite unquote_to_bytes_quoted by done.
    cbn [mbind outcome_bind].
    rewrite (decode_encode replace s bs) by done.
    cbn [mbind outcome_bind app]. by rewrite !app_nil_r.
Qed.

Lemma quote_unquote_witness :
  unquote (ascii_lit "%D0%81%D0%B6%201/2") = Returns (lit "Ёж 1/2")
  ∧ Forall (λ c, c ∈ quoted_characters) (ascii_lit "%D0%81%D0%B6%201/2").
Proof.
  apply (quote_unquote (lit "Ёж 1/2") (ascii_lit "%D0%81%D0%B6%201/2")).
  - by_evaluation.
  - by vm_compute.
Defined.

(** ** Form decoding *)

Lemma hexadecimal_hex_value (c v : N) :
  hexadecimal c v →
  hex_value (Byte.to_N (byte_of_N c)) = Some v
  ∧ isascii c = true ∧ c ≠ "%"%chr ∧ c ≠ "+"%chr
  ∧ byte_of_N c ≠ "%"%byte.
Proof.
  intros [H|H]; assert (v = N.of_nat (N.to_nat v)) as -> by lia;
    revert H; generalize (N.to_nat v); intros n H;
    do 16 (destruct n as [|n]; [injection H as <-; by vm_compute|]); done.
Qed.

Lemma encode_ascii_str (s : str) :
  Forall (λ c, isascii c = true) s → encode s = Returns (byte_of_N <$> s).
Proof.
  induction 1 as [|c s Hc _ IH]; [done|].
  cbn [encode]. unfold utf8_encode_char. unfold isascii in Hc.
  by rewrite Hc, IH.
Qed.

Lemma replace_char_app {A} `{EqDecision A} (c d : A) (s1 s2 : list A) :
  replace_char c d (s1 ++ s2) = replace_char c d s1 ++ replace_char c d s2.
Proof. unfold replace_char. by rewrite fmap_app. Qed.

(** What [unquote_to_bytes] makes of a form-encoded text, once its [+]
    signs have become spaces, are the bytes that were written. *)
Lemma form_encoded_unescaped (bs : bytes) (pieces : list str) :
  Forall2 form_encoded_byte bs pieces →
  Forall (λ c, isascii c = true)
    (replace_char "+"%chr " "%chr (concat pieces))
  ∧ unescaped
      (split "%"%byte None
         (byte_of_N <$> replace_char "+"%chr " "%chr (concat pieces)))
    = bs
  ∧ ("%"%chr ∉ replace_char "+"%chr " "%chr (concat pieces) →
     replace_char "+"%chr " "%chr (concat pieces) = Byte.to_N <$> bs).
Proof.
  induction 1 as [|b piece bs pieces Hb _ (Hascii & IH & Hplain)];
    [repeat split; by try constructor|].
  rewrite concat_cons, replace_char_app, fmap_app.
  pose proof
    (split_nonempty "%"%byte None
       (byte_of_N <$> replace_char "+"%chr " "%chr (concat pieces)))
    as Hne.
  revert Hascii IH Hplain Hne.
  generalize (replace_char "+"%chr " "%chr (concat pieces)).
  intros rest Hascii IH Hplain Hne.
  destruct (split "%"%byte None (byte_of_N <$> rest)) as [|p ps] eqn:Hsplit;
    [done|].
  unfold unescaped in IH. cbn [hd tl] in IH.
  destruct Hb as [b X Y HX HY| |b Hb Hpercent Hplus].
  - destruct (hexadecimal_hex_value _ _ HX) as (HvX & HaX & HpX & HsX & HbX).
    destruct (hexadecimal_hex_value _ _ HY) as (HvY & HaY & HpY & HsY & HbY).
    assert (replace_char "+"%chr " "%chr ["%"%chr; X; Y] = ["%"%chr; X; Y])
      as ->.
    { unfold replace_char. cbn [fmap list_fmap].
      by rewrite !decide_False by done. }
    split; [by repeat constructor|]. split.
    + cbn [fmap list_fmap app].
      change (byte_of_N "%"%chr) with "%"%byte.
      rewrite split_cons_sep.
      rewrite split_cons_other by done.
      rewrite split_cons_other by done.
      change (list_fmap N Byte.byte byte_of_N rest) with (byte_of_N <$> rest).
      rewrite Hsplit.
      unfold unescaped. cbn [hd tl app fmap list_fmap concat].
      rewrite slice_to_nonneg by done.
      change (Z.to_nat 2) with 2%nat. cbn [take]. rewrite take_0.
      cbn [_hextobyte]. rewrite HvX, HvY. cbn [mbind option_bind].
      rewrite slice_from_two. cbn [app].
      rewrite <- N.div_mod' , byte_of_to_N. by rewrite IH.
    + intros Hno. exfalso. apply Hno. apply elem_of_app. left.
      apply elem_of_cons. by left.
  - change (replace_char "+"%chr " "%chr ["+"%chr]) with [" "%chr].
    split; [by repeat constructor|]. split.
    + cbn [fmap list_fmap app].
      change (byte_of_N " "%chr) with " "%byte.
      rewrite split_cons_other by done.
      change (list_fmap N Byte.byte byte_of_N rest) with (byte_of_N <$> rest).
      rewrite Hsplit. unfold unescaped. cbn [hd tl app]. by rewrite IH.
    + intros Hno. rewrite not_elem_of_app in Hno. destruct Hno as [_ Hno].
      by rewrite (Hplain Hno).
  - assert (replace_char "+"%chr " "%chr [Byte.to_N b] = [Byte.to_N b]) as ->.
    { unfold replace_char. cbn [fmap list_fmap].
      rewrite decide_False; [done|].
      intros Heq. apply Hplus. by apply to_N_inj. }
    split.
    { constructor; [|done]. unfold isascii. by apply N.ltb_lt. }
    split.
    + cbn [fmap list_fmap app]. rewrite byte_of_to_N.
      rewrite split_cons_other by done.
      change (list_fmap N Byte.byte byte_of_N rest) with (byte_of_N <$> rest).
      rewrite Hsplit. unfold unescaped. cbn [hd tl app]. by rewrite IH.
    + intros Hno. rewrite not_elem_of_app in Hno. destruct Hno as [_ Hno].
      by rewrite (Hplain Hno).
Qed.

(** The decoding of the parser gives back every text from each of its
    form encodings. *)
Lemma form_decode_encoding (raw s : str) :
  form_encoding raw s → form_decode raw = Returns s.
Proof.
  intros (Hs & bs & pieces & Hencode & Hpieces & ->).
  destruct (form_encoded_unescaped _ _ Hpieces) as (Hascii & Hbytes & Hplain).
  unfold form_decode, unquote.
  revert Hascii Hbytes Hplain.
  generalize (replace_char "+"%chr " "%chr (concat pieces)).
  intros text Hascii Hbytes Hplain.
  destruct (contains "%"%chr text) eqn:Hpercent; cbn [negb].
  - apply contains_true in Hpercent.
    assert (text ≠ []) as Hne.
    { intros ->. by apply elem_of_nil in Hpercent. }
    rewrite _asciire_split_ascii by done.
    cbn [tl hd unquote_bits]. unfold unquote_to_bytes.
    rewrite bool_decide_eq_false_2 by done.
    rewrite encode_ascii_str by done. cbn [mbind outcome_bind].
    assert ("%"%byte ∈ byte_of_N <$> text) as Hin.
    { apply list_elem_of_fmap. by exists "%"%chr. }
    destruct (split_present _ _ Hin) as (a & b & rs & Hsplit).
    unfold unescaped in Hbytes. rewrite Hsplit in Hbytes |- *.
    cbn [length]. rewrite bool_decide_eq_false_2 by done.
    rewrite Hbytes. cbn [mbind outcome_bind].
    rewrite (decode_encode replace s bs) by done.
    cbn [mbind outcome_bind app]. by rewrite !app_nil_r.
  - apply contains_false in Hpercent. rewrite (Hplain Hpercent). f_equal.
    assert (ascii_bytes bs) as Hbs.
    { rewrite (Hplain Hpercent) in Hascii. unfold ascii_bytes.
      rewrite Forall_fmap in Hascii.
      eapply Forall_impl; [exact Hascii|]. intros b Hb. simpl in Hb.
      unfold isascii in Hb. by apply N.ltb_lt. }
    pose proof (decode_encode strict s bs Hs Hencode) as Hdecode.
    rewrite decode_ascii in Hdecode by done. by injection Hdecode.
Qed.

(** C5, as the code has it.  The decoding of a name or a value is form
    decoding: it gives back every text from each of its form encodings,
    that is from its UTF-8 bytes written as [%XY] in hexadecimal digits of
    either case, as [+] for a space, or as themselves.  And for every query
    string: it is read as fields separated by [&] alone (a [;] is an
    ordinary character of a name or a value); a field [name=value] with a
    value is kept, and its name and its value are decoded; the values of a
    repeated key accumulate in the order of the fields, and a key with no
    kept field is absent.  Every query string is made of such fields
    ([query_string_fields]). *)
Theorem parse_http_request_query_fields
    (lib : stdlib) (fields : list query_field) (decoded : list (str * str))
    (key rest : str) :
  (∀ raw s, form_encoding raw s → form_decode raw = Returns s)
  ∧ (Forall well_formed_field fields →
     Forall2 decodes_to (kept_pairs fields) decoded →
     no_whitespace (query_string fields) →
     "#"%chr ∉ query_string fields →
     ∃ params,
       parse_http_request lib
         (request_with (ascii_lit "GET") (ascii_lit "/")
            (query_string fields) (ascii_lit "HTTP/1.1") rest)
       = Returns (ascii_lit "GET", ascii_lit "/", params)
       ∧ params !! key
         = match values_of key decoded with
           | [] => None
           | values => Some values
           end).
Proof.
  split; [exact form_decode_encoding|].
  intros Hfields Hdec Hws Hfragment.
  exists (foldl parse_qs_add ∅ decoded). split.
  - rewrite parse_http_request_plain_target.
    + by rewrite (parse_qs_query_string fields decoded).
    + split; by_evaluation.
    + by_evaluation.
    + done.
    + split; by_evaluation.
    + split; try done; by_evaluation.
  - by rewrite foldl_parse_qs_add_lookup, lookup_empty.
Qed.

(** The query [q=%D0%81+1&q=%32&r=3] yields the values [Ё 1] and [2] for
    [q], in that order. *)
Lemma parse_http_request_query_fields_witness :
  ∃ params,
    parse_http_request no_addresses
      (request_with (ascii_lit "GET") (ascii_lit "/")
         (ascii_lit "q=%D0%81+1&q=%32&r=3") (ascii_lit "HTTP/1.1") CRLF)
    = Returns (ascii_lit "GET", ascii_lit "/", params)
    ∧ params !! ascii_lit "q" = Some [lit "Ё 1"; ascii_lit "2"].
Proof.
  refine (proj2 (parse_http_request_query_fields no_addresses
           [Kept (ascii_lit "q") (ascii_lit "%D0%81+1");
            Kept (ascii_lit "q") (ascii_lit "%32");
            Kept (ascii_lit "r") (ascii_lit "3")]
           [(ascii_lit "q", lit "Ё 1"); (ascii_lit "q", ascii_lit "2");
            (ascii_lit "r", ascii_lit "3")]
           (ascii_lit "q") CRLF) _ _ _ _).
  - repeat constructor; by_evaluation.
  - repeat constructor.
  - by_evaluation.
  - by_evaluation.
Defined.

(** The example of the specification: the query [a=1&a=2] yields the
    values 1, 2 for [a], in that order. *)
Example parse_http_request_repeated_key :
  parse_http_request no_addresses
    (request_with (ascii_lit "GET") (ascii_lit "/") (ascii_lit "a=1&a=2")
       (ascii_lit "HTTP/1.1") CRLF)
  = Returns (ascii_lit "GET", ascii_lit "/",
             {[ ascii_lit "a" := [ascii_lit "1"; ascii_lit "2"] ]}).
Proof. by vm_compute. Qed.

(** [%d0%96+%41] is a form encoding of [Ж A], with digits of either case
    and an escaped letter. *)
Example form_encoding_escapes :
  form_encoding (ascii_lit "%d0%96+%41") (lit "Ж A").
Proof.
  split; [by_evaluation|].
  exists [Byte.xd0; Byte.x96; " "%byte; "A"%byte],
    [ascii_lit "%d0"; ascii_lit "%96"; ascii_lit "+"; ascii_lit "%41"].
  split; [by vm_compute|]. split; [|done].
  repeat constructor; by vm_compute.
Qed.

(** Escapes, a [;] inside a value, and dropped fields ([c] without [=],
    [d=] without a value, the empty field). *)
Example parse_http_request_query_fields_mixed :
  parse_http_request no_addresses
    (request_with (ascii_lit "GET") (ascii_lit "/")
       (ascii_lit "k=%D0%96+1;x&c&d=&&k=2") (ascii_lit "HTTP/1.1") CRLF)
  = Returns (ascii_lit "GET", ascii_lit "/",
             {[ ascii_lit "k" := [lit "Ж 1;x"; ascii_lit "2"] ]}).
Proof. by vm_compute. Qed.

(** C5 as stated fails for [;]: it does not separate fields, and the
    query [a=1;a=2] yields the single value [1;a=2] for [a]. *)
Lemma parse_http_request_semicolon_not_separator :
  parse_http_request no_addresses
    (request_with (ascii_lit "GET") (ascii_lit "/") (ascii_lit "a=1;a=2")
       (ascii_lit "HTTP/1.1") CRLF)
  = Returns (ascii_lit "GET", ascii_lit "/",
             {[ ascii_lit "a" := [ascii_lit "1;a=2"] ]}).
Proof. by vm_compute. Qed.

(** What form decoding makes of text that is no form encoding: an escape
    that is not two hexadecimal digits stays as it is, and bytes that are
    not UTF-8 become U+FFFD. *)
Example form_decode_malformed :
  form_decode (ascii_lit "%zz%FF") = Returns (ascii_lit "%zz" ++ [0xFFFD%N]).
Proof. by vm_compute. Qed.

(** ** The parameters of a parsed request hold no surrogate *)

Lemma _asciire_split_Forall (P : N → Prop) (s : str) :
  Forall P s → Forall (Forall P) (_asciire_split s).
Proof.
  induction 1 as [|c s Hc Hs IH]; [by repeat constructor|].
  cbn [_asciire_split]. destruct (isascii c).
  - destruct (_asciire_split s) as [|[|x first] [|run bits]];
      repeat (apply Forall_cons in IH as [? IH]);
      repeat (constructor; try done).
  - destruct (_asciire_split s) as [|first bits]; simpl.
    + by repeat constructor.
    + apply Forall_cons in IH as [? IH]. by repeat constructor.
Qed.

Lemma unquote_bits_no_surrogate (bits : list str) (r : str) :
  Forall encodable bits → unquote_bits bits = Returns r → encodable r.
Proof.
  remember (length bits) as n eqn:Hn. revert bits r Hn.
  induction n as [n IH] using lt_wf_ind. intros bits r -> Hbits.
  destruct bits as [|run [|piece bits]]; cbn [unquote_bits].
  - intros [= <-]. constructor.
  - done.
  - destruct (unquote_to_bytes run) as [b|]; [|done].
    cbn [mbind outcome_bind].
    destruct (decode replace b) as [d|] eqn:Hd; [|done].
    cbn [mbind outcome_bind].
    destruct (unquote_bits bits) as [r'|] eqn:Hr'; [|done].
    intros [= <-].
    apply Forall_cons in Hbits as [_ Hbits].
    apply Forall_cons in Hbits as [Hpiece Hbits].
    unfold encodable. rewrite !Forall_app. repeat split.
    + apply decode_code_points in Hd.
      eapply Forall_impl; [exact Hd|]. by intros c [? _].
    + done.
    + eapply (IH (length bits)); [simpl; lia|done..].
Qed.

Lemma unquote_no_surrogate (s r : str) :
  encodable s → unquote s = Returns r → encodable r.
Proof.
  intros Hs. unfold unquote. destruct (negb _); [by intros [= <-]|].
  pose proof (_asciire_split_Forall _ s Hs) as Hbits.
  destruct (_asciire_split s) as [|first bits]; cbn [hd tl].
  - intros [= <-]. constructor.
  - apply Forall_cons in Hbits as [Hfirst Hbits].
    destruct (unquote_bits bits) as [r'|] eqn:Hr'; [|done].
    intros [= <-]. apply Forall_app. split; [done|].
    by eapply unquote_bits_no_surrogate.
Qed.

Lemma replace_char_encodable (c d : N) (s : str) :
  ¬ is_surrogate d → encodable s → encodable (replace_char c d s).
Proof.
  intros Hd Hs. unfold replace_char. apply Forall_fmap.
  eapply Forall_impl; [exact Hs|]. intros x Hx. simpl. by case_decide.
Qed.

Lemma split_Forall {A} `{EqDecision A}
    (P : A → Prop) (c : A) m (s : list A) :
  Forall P s → Forall (Forall P) (split c m s).
Proof.
  intros Hs. revert m. induction Hs as [|x s Hx Hs IH]; intros m;
    [by repeat constructor|].
  cbn [split]. case_bool_decide.
  - constructor; [constructor|apply IH].
  - specialize (IH m). destruct (split c m s) as [|p ps]; simpl.
    + by repeat constructor.
    + apply Forall_cons in IH as [? ?]. by repeat constructor.
Qed.

Lemma parse_qsl_field_encodable (name_value : str) (pair : str * str) :
  encodable name_value → parse_qsl_field name_value = Returns (Some pair) →
  encodable pair.1 ∧ encodable pair.2.
Proof.
  intros Hnv. unfold parse_qsl_field. case_bool_decide; [done|].
  pose proof (split_Forall _ "="%chr (Some 1%nat) name_value Hnv) as Hparts.
  destruct (split "="%chr (Some 1%nat) name_value) as [|n [|v [|? ?]]];
    try done.
  apply Forall_cons in Hparts as [Hn Hparts].
  apply Forall_cons in Hparts as [Hv _].
  case_bool_decide; [|done].
  destruct (unquote (replace_char _ _ n)) as [name|] eqn:Hname; [|done].
  cbn [mbind outcome_bind].
  destruct (unquote (replace_char _ _ v)) as [value|] eqn:Hvalue; [|done].
  intros [= <-]. simpl.
  assert (¬ is_surrogate " "%chr) as Hspace by (unfold is_surrogate; lia).
  split.
  - eapply unquote_no_surrogate; [|exact Hname].
    by apply replace_char_encodable.
  - eapply unquote_no_surrogate; [|exact Hvalue].
    by apply replace_char_encodable.
Qed.

Lemma parse_qsl_fields_encodable
    (query_args : list str) (pairs : list (str * str)) :
  Forall encodable query_args → parse_qsl_fields query_args = Returns pairs →
  Forall (λ pair, encodable pair.1 ∧ encodable pair.2) pairs.
Proof.
  intros Hargs. revert pairs.
  induction Hargs as [|f fs Hf Hfs IH]; intros pairs; cbn [parse_qsl_fields].
  { intros [= <-]. constructor. }
  destruct (parse_qsl_field f) as [p|] eqn:Hp; [|done].
  cbn [mbind outcome_bind].
  destruct (parse_qsl_fields fs) as [r|]; [|done].
  intros [= <-]. apply Forall_app. split; [|by apply IH].
  destruct p as [pair|]; [|constructor]. repeat constructor.
  all: by eapply parse_qsl_field_encodable.
Qed.

(** The values of a query that holds no surrogate hold none. *)
Lemma parse_qs_encodable (qs : str) (d : gmap str (list str))
    (key : str) (values : list str) :
  encodable qs → parse_qs qs = Returns d → d !! key = Some values →
  Forall encodable values.
Proof.
  intros Hqs. unfold parse_qs, parse_qsl.
  destruct (parse_qsl_fields _) as [pairs|] eqn:Hpairs; [|done].
  intros [= <-].
  apply parse_qsl_fields_encodable in Hpairs; last first.
  { case_bool_decide; [by apply split_Forall|constructor]. }
  rewrite foldl_parse_qs_add_lookup, lookup_empty.
  assert (Forall encodable (values_of key pairs)) as Hvalues.
  { unfold values_of. apply Forall_fmap.
    apply Forall_forall. intros pair [_ Hin]%list_elem_of_filter.
    rewrite Forall_forall in Hpairs. by apply Hpairs. }
  destruct (values_of key pairs); [done|]. by intros [= <-].
Qed.

Lemma parse_http_request_encodable
    (lib : stdlib) (request method path : str)
    (params : gmap str (list str)) (key : str) (values : list str) :
  encodable request →
  parse_http_request lib request = Returns (method, path, params) →
  params !! key = Some values →
  values ≠ [] ∧ Forall encodable values.
Proof.
  intros Hrequest Hparse Hkey.
  destruct (parse_http_request_inv _ _ _ _ _ Hparse)
    as [(_ & _ & _ & ->)
       |(target & rest & parsed_url & Htokens & Hurl & _ & Hqs)].
  { by rewrite lookup_empty in Hkey. }
  split; [by eapply parse_qs_nonempty_values|].
  eapply parse_qs_encodable; [|exact Hqs|exact Hkey].
  pose proof (split_whitespace_tokens (request_line request)) as Htok.
  pose proof (proj1 (split_whitespace_pieces (request_line request))) as Hp.
  rewrite Htokens in Htok, Hp.
  apply Forall_cons in Htok as [_ Htok].
  apply Forall_cons in Htok as [[_ Hws] _].
  apply Forall_cons in Hp as [_ Hp]. apply Forall_cons in Hp as [Htarget _].
  apply urlparse_pieces in Hurl as (_ & Hquery & _); [|done].
  eapply substring_Forall; [exact Hquery|].
  eapply substring_Forall; [exact Htarget|].
  eapply substring_Forall; [|exact Hrequest].
  apply substring_prefix, split_str_hd_prefix.
Qed.

(** ** Properties of the handlers *)

Lemma format_same (pf1 pf2 : platform) :
  repr pf1 = repr pf2 → format pf1 = format pf2.
Proof. intros Hrepr. unfold format. by rewrite Hrepr. Qed.

Lemma movie_lookup_same (pf1 pf2 : platform) (title : str) :
  same_library pf1 pf2 →
  (∀ encoded_title,
     quote title = Returns encoded_title →
     urlopen_read pf1 (omdb_url encoded_title) TIMEOUT
     = urlopen_read pf2 (omdb_url encoded_title) TIMEOUT) →
  content.movie_lookup pf1 title = content.movie_lookup pf2 title.
Proof.
  intros (Hloads & Hrepr%format_same & _) Hread. unfold content.movie_lookup.
  destruct (quote title) as [encoded_title|e] eqn:Hquote; [|done].
  cbn [raising mbind attempt_bind].
  fold (omdb_url encoded_title). rewrite (Hread encoded_title eq_refl).
  by rewrite Hloads, Hrepr.
Qed.

Lemma exchange_lookup_same (pf1 pf2 : platform) (currency : str) :
  same_library pf1 pf2 →
  urlopen_read pf1 exchange_url TIMEOUT
  = urlopen_read pf2 exchange_url TIMEOUT →
  content.exchange_lookup pf1 currency = content.exchange_lookup pf2 currency.
Proof.
  intros (Hloads & Hrepr%format_same & _ & Hdivide & Hfixed) Hread.
  unfold content.exchange_lookup. cbv zeta. fold exchange_url.
  rewrite Hread, Hloads. unfold truediv, format_fixed.
  by rewrite Hrepr, Hdivide, Hfixed.
Qed.

Lemma upper_same (pf1 pf2 : platform) :
  to_upper_full pf1 = to_upper_full pf2 → upper pf1 = upper pf2.
Proof. intros Hupper. unfold upper. by rewrite Hupper. Qed.

(** X16: what a content handler returns depends
    on the network through one URL only: the fixed URL of the exchange
    service for [handle_exchange_request], whatever the currency, and for
    [handle_movie_request] the URL of the film service that ends in the
    quoted title of the request. *)
Theorem content_handlers_one_url
    (out : console) (pf1 pf2 : platform) (params : gmap str (list str)) :
  same_library pf1 pf2 →
  (urlopen_read pf1 exchange_url TIMEOUT
   = urlopen_read pf2 exchange_url TIMEOUT →
   content.handle_exchange_request out pf1 params
   = content.handle_exchange_request out pf2 params)
  ∧ ((∀ title encoded_title,
        requested_title params = Some title →
        quote title = Returns encoded_title →
        urlopen_read pf1 (omdb_url encoded_title) TIMEOUT
        = urlopen_read pf2 (omdb_url encoded_title) TIMEOUT) →
     content.handle_movie_request out pf1 params
     = content.handle_movie_request out pf2 params).
Proof.
  intros Hsame. split.
  - intros Hread. unfold content.handle_exchange_request.
    pose proof Hsame as (_ & _ & Hupper%upper_same & _).
    rewrite Hupper.
    destruct (first_item _) as [currency|]; [|done].
    cbn [mbind outcome_bind]. cbv zeta.
    by rewrite (exchange_lookup_same pf1 pf2 _ Hsame Hread).
  - intros Hread. unfold content.handle_movie_request.
    unfold requested_title in Hread.
    destruct (default [lit "Неизвестно"] (params !! ascii_lit "title"))
      as [|title rest]; [done|].
    cbn [first_item mbind outcome_bind].
    destruct (_ || _); [done|].
    rewrite (movie_lookup_same pf1 pf2 title); [done..|].
    intros encoded_title. by apply Hread.
Qed.

Lemma content_handlers_one_url_witness :
  content.handle_exchange_request quiet_console offline
    {[ ascii_lit "currency" := [ascii_lit "eur"] ]}
  = content.handle_exchange_request quiet_console other_network
      {[ ascii_lit "currency" := [ascii_lit "eur"] ]}.
Proof.
  apply (content_handlers_one_url quiet_console offline other_network
           {[ ascii_lit "currency" := [ascii_lit "eur"] ]}).
  - by repeat split.
  - reflexivity.
Defined.

(** What the [except] clauses of a content handler let out is what their
    [print] raises. *)
Lemma log_failure_Raises (out : console) (line : N) (prefix : str)
    (cause : raised) (page : str) (e : exn) :
  (content.log_failure out line prefix cause;; Returns page) = Raises e →
  print_result out line (prefix ++ exception_text out cause) = Raises e.
Proof.
  unfold content.log_failure, print, mbind, outcome_bind.
  destruct (print_result out line _) as [[]|e']; by intros [= ->].
Qed.

(** X15: an exception of class [Exception]
    leaves a content handler in two ways only: as the [IndexError] of
    [[0]] on an empty list of values of its parameter, which is raised
    before the [try] block, or out of the [print] that opens one of its
    three [except] clauses.  Whatever else is raised inside the [try] block
    is answered with a page. *)
Theorem content_handlers_raise
    (out : console) (pf : platform) (params : gmap str (list str))
    (e : exn) :
  is_Exception e = true →
  (content.handle_exchange_request out pf params = Raises e →
   (params !! ascii_lit "currency" = Some [] ∧ e = OtherException)
   ∨ ∃ line text,
       line ∈ [158; 175; 191]%N ∧ print_result out line text = Raises e)
  ∧ (content.handle_movie_request out pf params = Raises e →
     (params !! ascii_lit "title" = Some [] ∧ e = OtherException)
     ∨ ∃ line text,
         line ∈ [325; 342; 358]%N ∧ print_result out line text = Raises e).
Proof.
  intros He. split.
  - unfold content.handle_exchange_request.
    destruct (default [ascii_lit "USD"] (params !! ascii_lit "currency"))
      as [|currency rest] eqn:Hvalues; cbn [first_item mbind outcome_bind].
    + intros [= <-]. left. split; [|done].
      by destruct (params !! ascii_lit "currency") as [[|? ?]|].
    + destruct (content.exchange_lookup pf _) as [page|[| | | |e']];
        try done.
      5: destruct (is_Exception e') eqn:He';
           [|intros [= <-]; congruence].
      all: intros Hprint%log_failure_Raises; right;
        eexists _, _; split; [|exact Hprint]; set_solver.
  - unfold content.handle_movie_request.
    destruct (default [lit "Неизвестно"] (params !! ascii_lit "title"))
      as [|title rest] eqn:Hvalues; cbn [first_item mbind outcome_bind].
    + intros [= <-]. left. split; [|done].
      by destruct (params !! ascii_lit "title") as [[|? ?]|].
    + case_match; [done|].
      destruct (content.movie_lookup pf title) as [page|[| | | |e']];
        try done.
      5: destruct (is_Exception e') eqn:He';
           [|intros [= <-]; congruence].
      all: intros Hprint%log_failure_Raises; right;
        eexists _, _; split; [|exact Hprint]; set_solver.
Qed.

(** A request for [/exchange?currency=eur] without a network, on a console
    that cannot be written to: the [print] of the first [except] clause
    raises. *)
Lemma content_handlers_raise_witness :
  (({[ ascii_lit "currency" := [ascii_lit "eur"] ]} : gmap str (list str))
     !! ascii_lit "currency" = Some []
   ∧ OSError = OtherException)
  ∨ ∃ line text,
      line ∈ [158; 175; 191]%N
      ∧ print_result broken_console line text = Raises OSError.
Proof.
  apply (content_handlers_raise broken_console offline
           {[ ascii_lit "currency" := [ascii_lit "eur"] ]} OSError).
  - reflexivity.
  - by vm_compute.
Defined.

(** The empty list of values, which the parser never produces. *)
Example handle_exchange_request_no_value :
  content.handle_exchange_request quiet_console offline
    {[ ascii_lit "currency" := [] ]}
  = Raises OtherException.
Proof. by vm_compute. Qed.

(** X17:
    [handle_exchange_request] never divides by zero, and never divides
    values that are no numbers by means of the division of numbers: what
    it returns is the same whatever such a division would do.  A currency
    listed at the rate [0], [0.0], [-0.0] or [False] is shown at [0]
    roubles. *)
Theorem handle_exchange_request_no_division_by_zero
    (out : console) (pf1 pf2 : platform) (params : gmap str (list str)) :
  same_but_division_by_zero pf1 pf2 →
  content.handle_exchange_request out pf1 params
  = content.handle_exchange_request out pf2 params.
Proof.
  intros (Hread & Hloads & Hrepr%format_same & Hupper%upper_same
          & Hfixed & Hdivide).
  unfold content.handle_exchange_request. rewrite Hupper.
  destruct (first_item _) as [currency|]; [|done].
  cbn [mbind outcome_bind]. cbv zeta.
  assert (content.exchange_lookup pf1 (upper pf2 currency)
          = content.exchange_lookup pf2 (upper pf2 currency)) as ->; [|done].
  generalize (upper pf2 currency). clear currency. intros currency.
  unfold content.exchange_lookup. cbv zeta. rewrite Hread, Hloads, Hrepr.
  destruct (urlopen_read pf2 _ _) as [body|]; [|done].
  cbn [mbind attempt_bind].
  destruct (raising (decode strict body)) as [text|]; [|done].
  cbn [mbind attempt_bind].
  destruct (json_loads pf2 text) as [data|]; [|done].
  cbn [mbind attempt_bind].
  destruct (get data (ascii_lit "rates") _) as [rates|]; [|done].
  cbn [mbind attempt_bind].
  destruct (get data (ascii_lit "date") _) as [date|]; [|done].
  cbn [mbind attempt_bind].
  destruct (contains_str rates currency) as [listed|]; [|done].
  cbn [mbind attempt_bind]. destruct (negb listed); [done|].
  destruct (get rates currency _) as [rate_to_usd|]; [|done].
  cbn [mbind attempt_bind].
  destruct (get rates (ascii_lit "RUB") _) as [rate_rub|]; [|done].
  cbn [mbind attempt_bind].
  assert ((if differs_from_zero rate_to_usd
           then truediv pf1 rate_rub rate_to_usd else Done (JInt 0))
          = (if differs_from_zero rate_to_usd
             then truediv pf2 rate_rub rate_to_usd else Done (JInt 0)))
    as ->.
  { destruct (differs_from_zero rate_to_usd) eqn:Hrate; [|done].
    unfold truediv.
    destruct (is_number rate_rub) eqn:Hrub; [|done].
    destruct (is_number rate_to_usd) eqn:Husd; [|done].
    by apply Hdivide. }
  unfold format_fixed. by rewrite Hfixed.
Qed.

Lemma handle_exchange_request_no_division_by_zero_witness :
  content.handle_exchange_request quiet_console
    (zero_rate (λ _ _, Failed (Builtin OtherException)))
    {[ ascii_lit "currency" := [ascii_lit "eur"] ]}
  = content.handle_exchange_request quiet_console
      (zero_rate (λ _ b, if differs_from_zero b
                         then Failed (Builtin OtherException)
                         else Done (JInt 7)))
      {[ ascii_lit "currency" := [ascii_lit "eur"] ]}.
Proof.
  apply (handle_exchange_request_no_division_by_zero quiet_console
           (zero_rate (λ _ _, Failed (Builtin OtherException)))
           (zero_rate (λ _ b, if differs_from_zero b
                              then Failed (Builtin OtherException)
                              else Done (JInt 7)))).
  repeat split; try reflexivity.
  intros a b _ _ Hb. simpl. by rewrite Hb.
Defined.

(** ** Upper case *)

Lemma upper_ascii (pf : platform) (s : str) :
  Forall (λ c, isascii c = true) s →
  upper pf s = (λ c, if is_ascii_lower c then (c - 0x20)%N else c) <$> s.
Proof.
  induction 1 as [|c s Hc Hs IH]; [done|].
  change (upper pf (c :: s))
    with ((if isascii c
           then [if is_ascii_lower c then (c - 0x20)%N else c]
           else to_upper_full pf c) ++ upper pf s).
  by rewrite Hc, IH.
Qed.

Lemma upper_upper (pf : platform) (s : str) :
  Forall (λ c, isascii c = true) s → upper pf (upper pf s) = upper pf s.
Proof.
  intros Hs. rewrite (upper_ascii pf s Hs). rewrite upper_ascii.
  - rewrite <- list_fmap_compose. apply list_fmap_ext.
    intros i c _. simpl.
    destruct (is_ascii_lower c) eqn:Hc; [|by rewrite Hc].
    unfold is_ascii_lower in *.
    apply andb_true_iff in Hc as [H1%N.leb_le H2%N.leb_le].
    rewrite (proj2 (andb_false_iff _ _)); [done|].
    left. apply N.leb_gt. lia.
  - apply Forall_fmap. eapply Forall_impl; [exact Hs|].
    intros c Hc. simpl. unfold isascii in *. apply N.ltb_lt in Hc.
    apply N.ltb_lt. destruct (is_ascii_lower c); lia.
Qed.

(** X18: [handle_exchange_request]
    reads the first value of [currency] only ([USD] without one) and, for a
    code made of ASCII characters, not its case: the request for [eur]
    gets what the request for [EUR] gets; further values and other
    parameters change nothing. *)
Theorem handle_exchange_request_ignores_case
    (out : console) (pf : platform) (params1 params2 : gmap str (list str))
    (currency : str) :
  Forall (λ c, isascii c = true) currency →
  requested_currency params1 = Some currency →
  requested_currency params2 = Some (upper pf currency) →
  content.handle_exchange_request out pf params1
  = content.handle_exchange_request out pf params2.
Proof.
  intros Hascii H1 H2. unfold content.handle_exchange_request.
  unfold requested_currency in *.
  destruct (default _ (params1 !! ascii_lit "currency")) as [|c1 rest1];
    [done|].
  destruct (default _ (params2 !! ascii_lit "currency")) as [|c2 rest2];
    [done|].
  injection H1 as ->. injection H2 as ->.
  cbn [first_item mbind outcome_bind]. cbv zeta.
  by rewrite upper_upper.
Qed.

Lemma handle_exchange_request_ignores_case_witness :
  content.handle_exchange_request quiet_console offline
    {[ ascii_lit "currency" := [ascii_lit "eur"] ]}
  = content.handle_exchange_request quiet_console offline
      {[ ascii_lit "currency" := [ascii_lit "EUR"; ascii_lit "usd"];
         ascii_lit "base" := [ascii_lit "RUB"] ]}.
Proof.
  apply (handle_exchange_request_ignores_case quiet_console offline _ _
           (ascii_lit "eur")).
  - by_evaluation.
  - by vm_compute.
  - by vm_compute.
Defined.

(** ** The server without a network *)

Lemma offline_uninterrupted : uninterrupted offline.
Proof.
  intros e [(? & ? & [=])|[(? & [=])|[(? & ? & [= <-])
                                      |[(? & ? & [= <-])|(? & [=])]]]];
    done.
Qed.

Lemma offline_unreachable : unreachable offline.
Proof. intros url timeout. by right. Qed.

Lemma offline_server_serves : serves_content offline_server offline.
Proof. done. Qed.

(** ** The content routes, end to end *)

Lemma literal_encodable (s : str) (b : bytes) :
  encode s = Returns b → encodable s.
Proof. intros Hs. apply encode_Returns_iff. by eexists. Qed.

(** The parts of a page: literals, and texts known to be encodable. *)
Ltac encodable_parts :=
  repeat first
    [ apply Forall_nil_2
    | apply Forall_cons_2;
      [ first [ assumption
              | eapply literal_encodable; vm_compute; reflexivity ] | ] ].

Lemma create_page_response (body : str) :
  encodable body →
  create_http_response 200 (ascii_lit "OK") body
  = Returns (page_response body).
Proof.
  intros Hbody.
  rewrite create_http_response_encoded;
    [done|apply within_str_digits_200| |done].
  by eapply literal_encodable.
Qed.

Lemma dispatch_movie (env : environment) (pf : platform)
    (params : gmap str (list str)) :
  serves_content env pf →
  dispatch env (ascii_lit "/movie") params
  = response_body ← content.handle_movie_request (env_console env) pf params;
    Returns (200%Z, ascii_lit "OK", response_body).
Proof. intros [_ Henv]. unfold dispatch. by rewrite <- Henv. Qed.

Lemma dispatch_exchange (env : environment) (pf : platform)
    (params : gmap str (list str)) :
  serves_content env pf →
  dispatch env (ascii_lit "/exchange") params
  = response_body ←
      content.handle_exchange_request (env_console env) pf params;
    Returns (200%Z, ascii_lit "OK", response_body).
Proof. intros [Henv _]. unfold dispatch. by rewrite <- Henv. Qed.

(** X19: a request for [/movie] that
    names no title (no [title] parameter, or an empty one, which the parser
    drops), or whose title is the text [Неизвестно] that stands for a
    missing one, is answered, once the log lines about it are printed, 200
    OK with the page that explains the usage; the film service is not
    asked. *)
Theorem handle_client_movie_without_title
    (env : environment) (pf : platform) (client_socket : socket)
    (address : str * Z) (data : bytes) (request method : str)
    (params : gmap str (list str)) :
  serves_content env pf →
  recv_result client_socket = Returns data →
  decode strict data = Returns request →
  request_logged env address request →
  parse_http_request (env_lib env) request
  = Returns (method, ascii_lit "/movie", params) →
  params !! ascii_lit "title" = None
  ∨ requested_title params = Some (lit "Неизвестно") →
  ∃ recovery,
    (handle_client env client_socket address []).2
    = [Recv BUFFER_SIZE; Sendall (page_response movie_usage_page)]
      ++ recovery ++ [Close]
    ∧ (sendall_result client_socket 0 (page_response movie_usage_page)
       = Returns () →
       answer_logged env address →
       recovery = []).
Proof.
  intros Henv Hrecv Hdecode Hlogged Hparse Htitle.
  eapply handle_client_writes; try done.
  - by eapply received_nothing_parsed.
  - rewrite (dispatch_movie env pf) by done.
    assert (content.handle_movie_request (env_console env) pf params
            = Returns movie_usage_page)
      as ->; [|done].
    unfold content.handle_movie_request, requested_title in *.
    destruct Htitle as [->|Htitle]; [done|].
    destruct (default _ (params !! ascii_lit "title")) as [|title rest];
      [done|].
    injection Htitle as ->. cbn [first_item mbind outcome_bind].
    by rewrite (bool_decide_eq_true_2 (lit "Неизвестно" = lit "Неизвестно")),
      orb_true_r.
  - apply create_page_response. eapply literal_encodable.
    vm_compute. reflexivity.
Qed.

Lemma handle_client_movie_without_title_witness :
  ∃ recovery,
    (handle_client offline_server
       (socket_with (bytes_lit "GET /movie?title= HTTP/1.1" ++ CRLF_bytes))
       local_client []).2
    = [Recv BUFFER_SIZE; Sendall (page_response movie_usage_page)]
      ++ recovery ++ [Close]
    ∧ (sendall_result
         (socket_with (bytes_lit "GET /movie?title= HTTP/1.1" ++ CRLF_bytes))
         0 (page_response movie_usage_page) = Returns () →
       answer_logged offline_server local_client →
       recovery = []).
Proof.
  apply (handle_client_movie_without_title offline_server offline
           (socket_with (bytes_lit "GET /movie?title= HTTP/1.1" ++ CRLF_bytes))
           local_client
           (bytes_lit "GET /movie?title= HTTP/1.1" ++ CRLF_bytes)
           (ascii_lit "GET /movie?title= HTTP/1.1" ++ CRLF)
           (ascii_lit "GET") ∅).
  - exact offline_server_serves.
  - reflexivity.
  - reflexivity.
  - by repeat split.
  - by vm_compute.
  - by left.
Defined.

Lemma quote_Returns (s : str) : encodable s → ∃ q, quote s = Returns q.
Proof.
  intros [bs Hbs]%encode_Returns_iff. unfold quote.
  case_bool_decide; [by eexists|]. rewrite Hbs. cbn [mbind outcome_bind].
  unfold quote_from_bytes. case_bool_decide; [by eexists|].
  case_bool_decide as Hstrip; [|by eexists].
  apply rstrip_nil in Hstrip. rewrite decode_ascii; [by eexists|].
  pose proof always_safe_ascii as Hsafe. rewrite Forall_forall in Hsafe.
  rewrite Forall_forall in Hstrip.
  apply Forall_forall. intros b Hb. by apply Hsafe, Hstrip.
Qed.

Lemma quote_Raises (s : str) (e : exn) :
  quote s = Raises e → is_Exception e = true.
Proof.
  unfold quote. case_bool_decide; [done|].
  destruct (encode s) as [bs|e'] eqn:Hbs; cbn [mbind outcome_bind].
  - unfold quote_from_bytes. repeat case_bool_decide; try done.
    by intros ->%decode_strict_Raises.
  - intros [= <-]. by rewrite (encode_Raises _ _ Hbs).
Qed.

Lemma movie_unreachable_page_encodable (title : str) :
  encodable title → encodable (movie_unreachable_page title).
Proof.
  intros Htitle. unfold movie_unreachable_page. apply Forall_concat.
  encodable_parts.
Qed.

Lemma exchange_unreachable_page_encodable (currency : str) :
  encodable currency → encodable (exchange_unreachable_page currency).
Proof.
  intros Hcurrency. unfold exchange_unreachable_page. apply Forall_concat.
  encodable_parts.
Qed.

(** The first value of a parameter of a parsed request is encodable. *)
Lemma parameter_encodable
    (lib : stdlib) (data : bytes) (request method path : str)
    (params : gmap str (list str)) (key fallback value : str) :
  decode strict data = Returns request →
  parse_http_request lib request = Returns (method, path, params) →
  encodable fallback →
  head (default [fallback] (params !! key)) = Some value →
  encodable value.
Proof.
  intros Hdecode Hparse Hfallback Hvalue.
  destruct (params !! key) as [values|] eqn:Hvalues;
    cbn [default] in Hvalue; [|by injection Hvalue as <-].
  destruct (parse_http_request_encodable _ _ _ _ _ _ _
              (decode_strict_no_surrogate _ _ Hdecode) Hparse Hvalues)
    as [_ Hall].
  destruct values as [|v values]; [done|]. injection Hvalue as ->.
  by apply Forall_cons in Hall as [Hall _].
Qed.

(** X20: when the film service cannot be
    reached, a logged request for a film is answered 200 OK (not with an
    error status) with the page that says so and quotes the title as it was
    decoded from the request, provided the [print] of the handler's
    [except] clause (line 325) returns; that page can always be encoded. *)
Theorem handle_client_movie_unreachable
    (env : environment) (pf : platform) (client_socket : socket)
    (address : str * Z) (data : bytes) (request method title : str)
    (params : gmap str (list str)) :
  serves_content env pf →
  unreachable pf →
  recv_result client_socket = Returns data →
  decode strict data = Returns request →
  request_logged env address request →
  movie_unreachable_logged (env_console env) →
  parse_http_request (env_lib env) request
  = Returns (method, ascii_lit "/movie", params) →
  requested_title params = Some title →
  title ≠ [] →
  title ≠ lit "Неизвестно" →
  ∃ recovery,
    (handle_client env client_socket address []).2
    = [Recv BUFFER_SIZE;
       Sendall (page_response (movie_unreachable_page title))]
      ++ recovery ++ [Close]
    ∧ (sendall_result client_socket 0
         (page_response (movie_unreachable_page title)) = Returns () →
       answer_logged env address →
       recovery = []).
Proof.
  intros Henv Hnet Hrecv Hdecode Hlogged Hprint Hparse Htitle Hne Hsentinel.
  assert (encodable title) as Hencodable.
  { eapply parameter_encodable; [done..| |exact Htitle].
    eapply literal_encodable. vm_compute. reflexivity. }
  eapply handle_client_writes; try done.
  - by eapply received_nothing_parsed.
  - rewrite (dispatch_movie env pf) by done.
    assert (content.handle_movie_request (env_console env) pf params
            = Returns (movie_unreachable_page title)) as ->; [|done].
    unfold content.handle_movie_request, requested_title in *.
    destruct (default _ (params !! ascii_lit "title")) as [|title' rest];
      [done|].
    injection Htitle as ->. cbn [first_item mbind outcome_bind].
    rewrite !bool_decide_eq_false_2 by done. cbn [orb].
    unfold content.movie_lookup.
    destruct (quote_Returns title Hencodable) as [q ->].
    cbn [raising mbind attempt_bind].
    destruct (Hnet (omdb_url q) TIMEOUT) as [Hread|Hread];
      unfold omdb_url in Hread; rewrite Hread; cbn [mbind attempt_bind];
      by rewrite Hprint by auto.
  - by apply create_page_response, movie_unreachable_page_encodable.
Qed.

Lemma handle_client_movie_unreachable_witness :
  ∃ recovery,
    (handle_client offline_server
       (socket_with (bytes_lit "GET /movie?title=Alien HTTP/1.1"
                     ++ CRLF_bytes))
       local_client []).2
    = [Recv BUFFER_SIZE;
       Sendall (page_response (movie_unreachable_page (ascii_lit "Alien")))]
      ++ recovery ++ [Close]
    ∧ (sendall_result
         (socket_with (bytes_lit "GET /movie?title=Alien HTTP/1.1"
                       ++ CRLF_bytes))
         0 (page_response (movie_unreachable_page (ascii_lit "Alien")))
       = Returns () →
       answer_logged offline_server local_client →
       recovery = []).
Proof.
  apply (handle_client_movie_unreachable offline_server offline
           (socket_with (bytes_lit "GET /movie?title=Alien HTTP/1.1"
                         ++ CRLF_bytes))
           local_client
           (bytes_lit "GET /movie?title=Alien HTTP/1.1" ++ CRLF_bytes)
           (ascii_lit "GET /movie?title=Alien HTTP/1.1" ++ CRLF)
           (ascii_lit "GET") (ascii_lit "Alien")
           {[ ascii_lit "title" := [ascii_lit "Alien"] ]}).
  - exact offline_server_serves.
  - exact offline_unreachable.
  - reflexivity.
  - reflexivity.
  - by repeat split.
  - by intros e _.
  - by vm_compute.
  - by vm_compute.
  - done.
  - by_evaluation.
Defined.

(** X21: when the exchange service
    cannot be reached, a logged request for a rate is answered 200 OK with
    the page that says so and names the currency in upper case, provided
    the [print] of the handler's [except] clause (line 158) returns. *)
Theorem handle_client_exchange_unreachable
    (env : environment) (pf : platform) (client_socket : socket)
    (address : str * Z) (data : bytes) (request method currency : str)
    (params : gmap str (list str)) :
  serves_content env pf →
  unreachable pf →
  recv_result client_socket = Returns data →
  decode strict data = Returns request →
  request_logged env address request →
  exchange_unreachable_logged (env_console env) →
  parse_http_request (env_lib env) request
  = Returns (method, ascii_lit "/exchange", params) →
  requested_currency params = Some currency →
  encodable (upper pf currency) →
  ∃ recovery,
    (handle_client env client_socket address []).2
    = [Recv BUFFER_SIZE;
       Sendall (page_response
                  (exchange_unreachable_page (upper pf currency)))]
      ++ recovery ++ [Close]
    ∧ (sendall_result client_socket 0
         (page_response (exchange_unreachable_page (upper pf currency)))
       = Returns () →
       answer_logged env address →
       recovery = []).
Proof.
  intros Henv Hnet Hrecv Hdecode Hlogged Hprint Hparse Hcurrency Hencodable.
  eapply handle_client_writes; try done.
  - by eapply received_nothing_parsed.
  - rewrite (dispatch_exchange env pf) by done.
    assert (content.handle_exchange_request (env_console env) pf params
            = Returns (exchange_unreachable_page (upper pf currency)))
      as ->; [|done].
    unfold content.handle_exchange_request, requested_currency in *.
    destruct (default _ (params !! ascii_lit "currency")) as [|c rest];
      [done|].
    injection Hcurrency as ->. cbn [first_item mbind outcome_bind].
    unfold content.exchange_lookup. cbv zeta.
    destruct (Hnet exchange_url TIMEOUT) as [Hread|Hread];
      unfold exchange_url in Hread; rewrite Hread; cbn [mbind attempt_bind];
      by rewrite Hprint by auto.
  - by apply create_page_response, exchange_unreachable_page_encodable.
Qed.

Lemma handle_client_exchange_unreachable_witness :
  ∃ recovery,
    (handle_client offline_server
       (socket_with (bytes_lit "GET /exchange?currency=eur HTTP/1.1"
                     ++ CRLF_bytes))
       local_client []).2
    = [Recv BUFFER_SIZE;
       Sendall (page_response
                  (exchange_unreachable_page
                     (upper offline (ascii_lit "eur"))))]
      ++ recovery ++ [Close]
    ∧ (sendall_result
         (socket_with (bytes_lit "GET /exchange?currency=eur HTTP/1.1"
                       ++ CRLF_bytes))
         0 (page_response
              (exchange_unreachable_page (upper offline (ascii_lit "eur"))))
       = Returns () →
       answer_logged offline_server local_client →
       recovery = []).
Proof.
  apply (handle_client_exchange_unreachable offline_server offline
           (socket_with (bytes_lit "GET /exchange?currency=eur HTTP/1.1"
                         ++ CRLF_bytes))
           local_client
           (bytes_lit "GET /exchange?currency=eur HTTP/1.1" ++ CRLF_bytes)
           (ascii_lit "GET /exchange?currency=eur HTTP/1.1" ++ CRLF)
           (ascii_lit "GET") (ascii_lit "eur")
           {[ ascii_lit "currency" := [ascii_lit "eur"] ]}).
  - exact offline_server_serves.
  - exact offline_unreachable.
  - reflexivity.
  - reflexivity.
  - by repeat split.
  - by intros e _.
  - by vm_compute.
  - by vm_compute.
  - eapply literal_encodable. vm_compute. reflexivity.
Defined.

(** ** No exception of the handlers escapes an uninterrupted platform *)

Lemma get_Failed (data : json) (key : str) (default_value : json)
    (e : raised) :
  get data key default_value = Failed e → e = Builtin OtherException.
Proof. destruct data; simpl; congruence. Qed.

Lemma contains_str_Failed (container : json) (item : str) (e : raised) :
  contains_str container item = Failed e → e = Builtin OtherException.
Proof. destruct container; simpl; congruence. Qed.

Lemma ordinary_bind {A B} (x : attempt A) (f : A → attempt B) :
  ordinary x → (∀ a, x = Done a → ordinary (f a)) → ordinary (x ≫= f).
Proof.
  intros Hx Hf e. destruct x as [a|e']; cbn [mbind attempt_bind].
  - exact (Hf a eq_refl e).
  - intros [= ->]. by apply Hx.
Qed.

Lemma ordinary_Done {A} (a : A) : ordinary (Done a).
Proof. by intros e. Qed.

Lemma ordinary_get (data : json) (key : str) (default_value : json) :
  ordinary (get data key default_value).
Proof. by intros e [= ->]%get_Failed. Qed.

Lemma ordinary_contains_str (container : json) (item : str) :
  ordinary (contains_str container item).
Proof. by intros e [= ->]%contains_str_Failed. Qed.

Lemma ordinary_decode (data : bytes) : ordinary (raising (decode strict data)).
Proof.
  intros e. destruct (decode strict data) as [text|e'] eqn:Hdecode; [done|].
  intros [= <-]. by rewrite (decode_strict_Raises _ _ Hdecode).
Qed.

Lemma ordinary_quote (s : str) : ordinary (raising (quote s)).
Proof.
  intros e. destruct (quote s) as [q|e'] eqn:Hquote; [done|].
  intros [= <-]. by eapply quote_Raises.
Qed.

Lemma ordinary_str_of_int (n : Z) : ordinary (raising (str_of_int n)).
Proof.
  intros e. by destruct (str_of_int_cases n) as [[_ ->]|[_ ->]]; intros [= <-].
Qed.

Section uninterrupted_platform.
Context (out : console) (Hout : failures_logged out).
Context (pf : platform) (Hpf : uninterrupted pf).

Lemma ordinary_urlopen_read (url : str) (timeout : Z) :
  ordinary (urlopen_read pf url timeout).
Proof using Hpf. intros e He. apply Hpf. left. by exists url, timeout. Qed.

Lemma ordinary_json_loads (text : str) : ordinary (json_loads pf text).
Proof using Hpf. intros e He. apply Hpf. right. left. by exists text. Qed.

Lemma ordinary_truediv (a b : json) : ordinary (truediv pf a b).
Proof using Hpf.
  intros e. unfold truediv. destruct (_ && _); [|by intros [= <-]].
  intros He. apply Hpf. do 2 right. left. by exists a, b.
Qed.

Lemma ordinary_format_fixed (digits : nat) (value : json) :
  ordinary (format_fixed pf digits value).
Proof using Hpf.
  intros e. destruct value; simpl; try (by intros [= <-]);
    intros He; apply Hpf; do 3 right; left; by eexists _, _.
Qed.

Lemma ordinary_format (value : json) : ordinary (format pf value).
Proof using Hpf.
  intros e. destruct value as [| [|] | | | | |]; cbn [format];
    try done; try apply ordinary_str_of_int;
    intros He; apply Hpf; do 4 right; by eexists.
Qed.

(** One step of a [try] block after the other. *)
Ltac ordinary_steps :=
  repeat first
    [ apply ordinary_Done
    | apply ordinary_get
    | apply ordinary_contains_str
    | apply ordinary_decode
    | apply ordinary_quote
    | apply ordinary_urlopen_read
    | apply ordinary_json_loads
    | apply ordinary_truediv
    | apply ordinary_format_fixed
    | apply ordinary_format
    | apply ordinary_bind; [|intros ? _]
    | match goal with |- ordinary (if ?b then _ else _) => destruct b end ].

Lemma movie_lookup_ordinary (title : str) :
  ordinary (content.movie_lookup pf title).
Proof using Hpf. unfold content.movie_lookup. cbv zeta. ordinary_steps. Qed.

Lemma exchange_lookup_ordinary (currency : str) :
  ordinary (content.exchange_lookup pf currency).
Proof using Hpf. unfold content.exchange_lookup. cbv zeta. ordinary_steps. Qed.

Lemma log_failure_Returns (line : N) (prefix : str) (e : raised) :
  line ∈ [158; 175; 191; 325; 342; 358]%N →
  content.log_failure out line prefix e = Returns ().
Proof using Hout. intros Hline. by apply Hout. Qed.

Lemma handle_movie_request_Returns (params : gmap str (list str)) :
  params !! ascii_lit "title" ≠ Some [] →
  ∃ page, content.handle_movie_request out pf params = Returns page.
Proof using Hpf Hout.
  intros Hvalues. unfold content.handle_movie_request.
  destruct (default [lit "Неизвестно"] (params !! ascii_lit "title"))
    as [|title rest] eqn:Hdefault.
  { by destruct (params !! ascii_lit "title") as [[|? ?]|]. }
  cbn [first_item mbind outcome_bind]. case_match; [by eexists|].
  pose proof (movie_lookup_ordinary title) as Hlookup.
  destruct (content.movie_lookup pf title) as [page|[| | | |e]];
    [by eexists|..].
  5: rewrite (Hlookup e eq_refl).
  all: rewrite log_failure_Returns by set_solver; by eexists.
Qed.

Lemma handle_exchange_request_Returns (params : gmap str (list str)) :
  params !! ascii_lit "currency" ≠ Some [] →
  ∃ page, content.handle_exchange_request out pf params = Returns page.
Proof using Hpf Hout.
  intros Hvalues. unfold content.handle_exchange_request.
  destruct (default [ascii_lit "USD"] (params !! ascii_lit "currency"))
    as [|currency rest] eqn:Hdefault.
  { by destruct (params !! ascii_lit "currency") as [[|? ?]|]. }
  cbn [first_item mbind outcome_bind]. cbv zeta.
  pose proof (exchange_lookup_ordinary (upper pf currency)) as Hlookup.
  destruct (content.exchange_lookup pf _) as [page|[| | | |e]];
    [by eexists|..].
  5: rewrite (Hlookup e eq_refl).
  all: rewrite log_failure_Returns by set_solver; by eexists.
Qed.

End uninterrupted_platform.

Lemma create_page_response_cases (body : str) :
  create_http_response 200 (ascii_lit "OK") body
  = Returns (page_response body)
  ∨ create_http_response 200 (ascii_lit "OK") body
    = Raises UnicodeEncodeError.
Proof.
  destruct (encode body) as [body_bytes|e] eqn:Hencode.
  - left. by eapply create_page_response, literal_encodable.
  - right. unfold create_http_response.
    rewrite (str_of_int_Returns _ within_str_digits_200).
    cbn [mbind outcome_bind].
    by rewrite Hencode, (encode_Raises _ _ Hencode).
Qed.

(** A parameter of a parsed request has a value. *)
Lemma parameter_has_value
    (lib : stdlib) (data : bytes) (request method path : str)
    (params : gmap str (list str)) (key : str) :
  decode strict data = Returns request →
  parse_http_request lib request = Returns (method, path, params) →
  params !! key ≠ Some [].
Proof.
  intros Hdecode Hparse Hvalues.
  by destruct (parse_http_request_encodable _ _ _ _ _ _ _
                 (decode_strict_no_surrogate _ _ Hdecode) Hparse Hvalues).
Qed.

(** X22: as long as no exception outside
    [Exception] arrives during a call of the platform and the console takes
    the log lines (those of the request, and whatever the [except] clauses
    of the content handlers and of the handler print), every decodable
    request for [/exchange] or [/movie] is answered, whatever the services
    send back: with 200 OK and a page, or, when the page holds a lone
    surrogate (which a JSON escape can bring in), with the fixed 500
    response.  The [[0]] of the handlers cannot fail on a parsed request,
    whose parameters all have a value. *)
Theorem handle_client_content_answers
    (env : environment) (pf : platform) (client_socket : socket)
    (address : str * Z) (data : bytes) (request method path : str)
    (params : gmap str (list str)) :
  serves_content env pf →
  uninterrupted pf →
  recv_result client_socket = Returns data →
  decode strict data = Returns request →
  request_logged env address request →
  failures_logged (env_console env) →
  failure_print env address UnicodeEncodeError = Returns () →
  parse_http_request (env_lib env) request = Returns (method, path, params) →
  path = ascii_lit "/exchange" ∨ path = ascii_lit "/movie" →
  ∃ response recovery,
    (handle_client env client_socket address []).2
    = [Recv BUFFER_SIZE; Sendall response] ++ recovery ++ [Close]
    ∧ ((∃ page, response = page_response page)
       ∨ response = internal_error_response)
    ∧ (sendall_result client_socket 0 response = Returns () →
       answer_logged env address →
       recovery = []).
Proof.
  intros Henv Hpf Hrecv Hdecode Hlogged Hout Hprint Hparse Hpath.
  assert (data ≠ []) as Hdata.
  { eapply received_nothing_parsed; [done..|]. by destruct Hpath as [->| ->]. }
  assert (∃ page,
            dispatch env path params = Returns (200%Z, ascii_lit "OK", page))
    as [page Hdispatch].
  { destruct Hpath as [->| ->].
    - destruct (handle_exchange_request_Returns _ Hout pf Hpf params)
        as [page Hpage].
      { by eapply parameter_has_value. }
      exists page. by rewrite (dispatch_exchange env pf), Hpage.
    - destruct (handle_movie_request_Returns _ Hout pf Hpf params)
        as [page Hpage].
      { by eapply parameter_has_value. }
      exists page. by rewrite (dispatch_movie env pf), Hpage. }
  destruct (create_page_response_cases page) as [Hcreate|Hcreate].
  - destruct (handle_client_writes _ _ _ _ _ _ _ _ _ _ _ _
                Hrecv Hdata Hdecode Hlogged Hparse Hdispatch Hcreate)
      as (recovery & Htrace & Hsent).
    exists (page_response page), recovery.
    split; [done|]. split; [|done]. left. by exists page.
  - exists internal_error_response, [].
    split; [|by split; [right|]].
    rewrite (handle_client_recovers env client_socket address
               UnicodeEncodeError [Recv BUFFER_SIZE]).
    + unfold recovery_of. by rewrite Hprint.
    + eapply request_block_raises; try done.
      rewrite Hparse. cbn [mbind outcome_bind]. rewrite Hdispatch.
      cbn [mbind outcome_bind]. done.
Qed.

Lemma handle_client_content_answers_witness :
  ∃ response recovery,
    (handle_client offline_server
       (socket_with (bytes_lit "GET /exchange?currency=eur HTTP/1.1"
                     ++ CRLF_bytes))
       local_client []).2
    = [Recv BUFFER_SIZE; Sendall response] ++ recovery ++ [Close]
    ∧ ((∃ page, response = page_response page)
       ∨ response = internal_error_response)
    ∧ (sendall_result
         (socket_with (bytes_lit "GET /exchange?currency=eur HTTP/1.1"
                       ++ CRLF_bytes))
         0 response = Returns () →
       answer_logged offline_server local_client →
       recovery = []).
Proof.
  apply (handle_client_content_answers offline_server offline
           (socket_with (bytes_lit "GET /exchange?currency=eur HTTP/1.1"
                         ++ CRLF_bytes))
           local_client
           (bytes_lit "GET /exchange?currency=eur HTTP/1.1" ++ CRLF_bytes)
           (ascii_lit "GET /exchange?currency=eur HTTP/1.1" ++ CRLF)
           (ascii_lit "GET") (ascii_lit "/exchange")
           {[ ascii_lit "currency" := [ascii_lit "eur"] ]}).
  - exact offline_server_serves.
  - exact offline_uninterrupted.
  - reflexivity.
  - reflexivity.
  - by repeat split.
  - by intros line text _.
  - reflexivity.
  - by vm_compute.
  - by left.
Defined.
(** ** main *)

Lemma serve_running (l : listener) (n k : nat) :
  (∀ i, (i < n)%nat → turn_raises l (k + i) = None) →
  serve l n k = (None, flat_map (turn l) (seq k n)).
Proof.
  revert k. induction n as [|n IH]; intros k Hturns; [done|].
  cbn [serve seq flat_map].
  pose proof (Hturns 0%nat ltac:(lia)) as H0. rewrite Nat.add_0_r in H0.
  unfold turn_raises in H0. unfold turn at 1.
  destruct (accept_result l k) as [s|[client_socket address]]; [done|].
  destruct (start_raises l k); [done|].
  rewrite H0, IH; [done|].
  intros i Hi. replace (S k + i)%nat with (k + S i)%nat by lia.
  apply Hturns. lia.
Qed.

Lemma serve_stops (l : listener) (fuel n k : nat) (s : signal) :
  (∀ i, (i < n)%nat → turn_raises l (k + i) = None) →
  turn_raises l (k + n) = Some s →
  (n < fuel)%nat →
  serve l fuel k = (Some s, flat_map (turn l) (seq k (S n))).
Proof.
  revert fuel k. induction n as [|n IH]; intros fuel k Hturns Hfails Hfuel.
  - destruct fuel as [|fuel]; [lia|]. cbn [serve seq flat_map].
    rewrite Nat.add_0_r in Hfails. unfold turn_raises in Hfails.
    unfold turn.
    destruct (accept_result l k) as [s'|[client_socket address]].
    + by injection Hfails as ->.
    + destruct (start_raises l k); [by injection Hfails as ->|].
      by rewrite Hfails.
  - destruct fuel as [|fuel]; [lia|]. cbn [serve].
    pose proof (Hturns 0%nat ltac:(lia)) as H0. rewrite Nat.add_0_r in H0.
    unfold turn_raises in H0.
    change (seq k (S (S n))) with (k :: seq (S k) (S n)).
    cbn [flat_map]. unfold turn at 1.
    destruct (accept_result l k) as [s'|[client_socket address]]; [done|].
    destruct (start_raises l k); [done|].
    rewrite H0, (IH fuel (S k)); [done| | |lia].
    + intros i Hi. replace (S k + i)%nat with (k + S i)%nat by lia.
      apply Hturns. lia.
    + by replace (S k + n)%nat with (k + S n)%nat by lia.
Qed.

(** X23: once the server socket is set up and
    the three lines that announce the server are printed, [main] serves as
    long as no [accept], no start of a thread and no [print] after one
    raises: after any number of turns of the loop it has not returned, the
    calls made are the four of the set-up ([bind] to [localhost], port
    8888, [listen(5)]) and one [accept] and one thread per connection, in
    order, and the server socket has not been closed. *)
Theorem main_keeps_serving (l : listener) (n : nat) :
  set_up l →
  (∀ k, (k < n)%nat → turn_raises l k = None) →
  main l n = (None, setup_calls ++ turns l n).
Proof.
  intros (Hsocket & Hopt & Hbind & Hlisten & Hprints) Hturns. unfold main.
  rewrite Hsocket, Hopt, Hbind, Hlisten, Hprints.
  by rewrite (serve_running l n 0).
Qed.

Lemma main_keeps_serving_witness :
  main two_connections 2 = (None, setup_calls ++ turns two_connections 2).
Proof.
  apply (main_keeps_serving two_connections 2).
  - by repeat split.
  - intros [|[|k]] Hk; [reflexivity|reflexivity|lia].
Defined.

(** X24: the first exception of an [accept], of the start
    of a thread or of the [print] after it ends the loop: [main] accepts
    nothing more and closes the server socket.  When the [print]
    statements of its [except] and [finally] clauses raise nothing and the
    [close] does not either, it returns when the exception is a
    [KeyboardInterrupt] or of class [Exception], and another one leaves
    [main] after the [close]. *)
Theorem main_stops (l : listener) (fuel n : nat) (s : signal) :
  set_up l →
  (∀ k, (k < n)%nat → turn_raises l k = None) →
  turn_raises l n = Some s →
  (n < fuel)%nat →
  (main l fuel).2 = setup_calls ++ turns l (S n) ++ [Close_server]
  ∧ (close_raises l = None →
     ending_logged l →
     (main l fuel).1
     = Some (if caught s then Returned else Propagated s)).
Proof.
  intros (Hsocket & Hopt & Hbind & Hlisten & Hprints) Hturns Hfails Hfuel.
  unfold main. rewrite Hsocket, Hopt, Hbind, Hlisten, Hprints.
  rewrite (serve_stops l fuel n 0 s) by done.
  split; [done|]. intros Hclose Hlogged. cbn [fst]. f_equal.
  unfold after_finally, after_except, say.
  rewrite Hclose, !Hlogged by set_solver.
  destruct s as [|e]; [done|]. cbn [caught]. destruct (is_Exception e); [|done].
  by rewrite Hlogged by set_solver.
Qed.

Lemma main_stops_witness :
  (main two_connections 5).2
  = setup_calls ++ turns two_connections 3 ++ [Close_server]
  ∧ (close_raises two_connections = None →
     ending_logged two_connections →
     (main two_connections 5).1
     = Some (if caught KeyboardInterrupt then Returned
             else Propagated KeyboardInterrupt)).
Proof.
  apply (main_stops two_connections 5 2 KeyboardInterrupt).
  - by repeat split.
  - intros [|[|k]] Hk; [reflexivity|reflexivity|lia].
  - reflexivity.
  - lia.
Defined.

(** The listener of [two_connections] on a console that is closed when the
    interrupt arrives: the [OSError] of the [print] of the clause
    [except KeyboardInterrupt] leaves [main], after the [close]. *)
Example main_stops_console_closed :
  main
    {| socket_raises := None;
       setsockopt_raises := None;
       bind_raises := None;
       listen_raises := None;
       accept_result := accept_result two_connections;
       start_raises := λ _, None;
       close_raises := None;
       print_raises := λ line _,
         if bool_decide (line = 617%N) then Some (Exn OSError) else None;
       thread_print_raises := λ _ _, None;
       error_text := λ _, [] |} 5
  = (Some (Propagated (Exn OSError)),
     setup_calls ++ turns two_connections 3 ++ [Close_server]).
Proof. reflexivity. Qed.

Lemma serve_never_closes (l : listener) (fuel k : nat) :
  Close_server ∉ (serve l fuel k).2.
Proof.
  revert k. induction fuel as [|fuel IH]; intros k; cbn [serve].
  { apply not_elem_of_nil. }
  destruct (accept_result l k) as [s|[client_socket address]].
  { simpl. by rewrite list_elem_of_singleton. }
  destruct (start_raises l k).
  { simpl. rewrite !not_elem_of_cons. repeat split; try done.
    apply not_elem_of_nil. }
  destruct (announce_thread l k address).
  { simpl. rewrite !not_elem_of_cons. repeat split; try done.
    apply not_elem_of_nil. }
  specialize (IH (S k)). destruct (serve l fuel (S k)) as [r t].
  simpl in *. rewrite !not_elem_of_cons. by repeat split.
Qed.

(** X25: in every run of [main], the server socket is
    closed at most once, and [close] is then the last call: it is closed
    whenever [main] ends after the socket was created and configured, also
    when [bind] or [listen] fails; it is not closed while the loop runs,
    nor when creating or configuring the socket fails, in which case the
    exception leaves [main]. *)
Theorem main_closes_once (l : listener) (fuel : nat) :
  (socket_raises l = None ∧ setsockopt_raises l = None
   ∧ is_Some (main l fuel).1
   ∧ ∃ before,
       (main l fuel).2 = before ++ [Close_server]
       ∧ (Close_server ∉ before))
  ∨ ((Close_server ∉ (main l fuel).2)
     ∧ ((main l fuel).1 = None
        ∨ ∃ s, (main l fuel).1 = Some (Propagated s)
               ∧ (socket_raises l = Some s
                  ∨ (socket_raises l = None
                     ∧ setsockopt_raises l = Some s)))).
Proof.
  unfold main.
  destruct (socket_raises l) as [s|].
  { right. simpl. split; [|right; exists s; by auto].
    by rewrite list_elem_of_singleton. }
  destruct (setsockopt_raises l) as [s|].
  { right. simpl. split; [|right; exists s; by auto].
    rewrite !not_elem_of_cons. repeat split; try done. apply not_elem_of_nil. }
  assert (∃ raised t,
            match bind_raises l with
            | Some s => (Some s, [Bind HOST PORT])
            | None =>
                match listen_raises l with
                | Some s => (Some s, [Bind HOST PORT; Listen 5])
                | None =>
                    match announce l with
                    | Some s => (Some s, [Bind HOST PORT; Listen 5])
                    | None =>
                        let '(raised, t) := serve l fuel 0 in
                        (raised, Bind HOST PORT :: Listen 5 :: t)
                    end
                end
            end = (raised, t) ∧ Close_server ∉ t)
    as (raised & t & -> & Ht).
  { destruct (bind_raises l).
    { eexists _, _. split; [done|]. by rewrite list_elem_of_singleton. }
    destruct (listen_raises l).
    { eexists _, _. split; [done|].
      rewrite !not_elem_of_cons. repeat split; try done.
      apply not_elem_of_nil. }
    destruct (announce l).
    { eexists _, _. split; [done|].
      rewrite !not_elem_of_cons. repeat split; try done.
      apply not_elem_of_nil. }
    pose proof (serve_never_closes l fuel 0) as Hserve.
    destruct (serve l fuel 0) as [r t]. eexists _, _. split; [done|].
    simpl in *. rewrite !not_elem_of_cons. by repeat split. }
  destruct raised as [s|].
  - left. split; [done|]. split; [done|]. split; [by eexists|]. simpl.
    exists (Socket :: Setsockopt :: t). split; [done|].
    rewrite !not_elem_of_cons. by repeat split.
  - right. simpl. split; [|by left].
    rewrite !not_elem_of_cons. by repeat split.
Qed.

